(** * A shallow embedding of the accounting backend

    Two services are embedded: the report pipeline of
    [src/reports/reports.service.ts] and the ticket router of
    [src/tickets/tickets.service.ts].  The embedding keeps the data the
    way the TypeScript code has it: JavaScript numbers are IEEE-754
    binary64 values, objects used as dictionaries are ordinary objects
    (own properties in creation order, [Object.prototype] behind them),
    and code that can throw runs in an exception monad with an explicit
    [try]/[catch]. *)

From Stdlib Require Import ZArith NArith List Bool Lia.
From Stdlib Require Import Ascii String DecimalString.
From Stdlib Require Import Floats.SpecFloat.
From Stdlib Require Import Sorting.Permutation.
Import ListNotations.

Local Open Scope string_scope.
Local Open Scope Z_scope.

(** ** Strings

    A string is a sequence of code units; only code units below 256 are
    representable, which covers the CSV text the services handle. *)
Module JsString.

(** WhiteSpace and LineTerminator code units (below 256): TAB, LF, VT,
    FF, CR, SP and NBSP.  They are what [trim] and [parseFloat] strip. *)
Definition is_space (c : ascii) : bool :=
  let n := N_of_ascii c in
  ((9 <=? n) && (n <=? 13) || (n =? 32) || (n =? 160))%N.

Definition is_digit (c : ascii) : bool :=
  let n := N_of_ascii c in ((48 <=? n) && (n <=? 57))%N.

Definition digit_val (c : ascii) : Z := Z.of_N (N_of_ascii c) - 48.

Fixpoint trimStart (s : string) : string :=
  match s with
  | String c r => if is_space c then trimStart r else s
  | EmptyString => EmptyString
  end.

Definition rev_string (s : string) : string :=
  string_of_list_ascii (rev (list_ascii_of_string s)).

Definition trimEnd (s : string) : string :=
  rev_string (trimStart (rev_string s)).

Definition trim (s : string) : string := trimEnd (trimStart s).

(** [s.split(c)] for a separator of one code unit: the pieces between
    the separators, empty pieces included; never the empty list. *)
Fixpoint split (sep : ascii) (s : string) : list string :=
  match s with
  | EmptyString => [EmptyString]
  | String c r =>
      if Ascii.eqb c sep then EmptyString :: split sep r
      else match split sep r with
           | p :: ps => String c p :: ps
           | [] => [String c EmptyString]
           end
  end.

(** [pieces.join(sep)]. *)
Fixpoint join (sep : string) (l : list string) : string :=
  match l with
  | [] => EmptyString
  | [x] => x
  | x :: r => x ++ sep ++ join sep r
  end.

Definition startsWith (s p : string) : bool := String.prefix p s.

Definition endsWith (s p : string) : bool :=
  String.prefix (rev_string p) (rev_string s).

(** Code-unit order, the default order of [Array.prototype.sort] on
    strings. *)
Fixpoint ltb (a b : string) : bool :=
  match a, b with
  | EmptyString, EmptyString => false
  | EmptyString, String _ _ => true
  | String _ _, EmptyString => false
  | String x a', String y b' =>
      if (N_of_ascii x <? N_of_ascii y)%N then true
      else if (N_of_ascii y <? N_of_ascii x)%N then false
      else ltb a' b'
  end.

Definition of_N (n : N) : string := NilZero.string_of_uint (N.to_uint n).

Definition of_Z (z : Z) : string :=
  match z with
  | Zneg p => "-" ++ of_N (Npos p)
  | _ => of_N (Z.to_N z)
  end.

End JsString.

(** ** Numbers

    The Number type: IEEE-754 binary64, computed with the reference
    operations of [SpecFloat] at precision 53 and maximal exponent 1024
    (round to nearest, ties to even). *)
Module JsNum.

Definition num : Type := spec_float.

Definition prec : Z := 53.
Definition emax : Z := 1024.

Definition NaN : num := S754_nan.
Definition Infinity : num := S754_infinity false.

Definition add : num -> num -> num := SFadd prec emax.
Definition sub : num -> num -> num := SFsub prec emax.
Definition mul : num -> num -> num := SFmul prec emax.
Definition div : num -> num -> num := SFdiv prec emax.
Definition neg : num -> num := SFopp.

(** The Number nearest to an integer. *)
Definition ofZ (z : Z) : num := binary_normalize prec emax z 0 false.

(** The Number nearest to the fraction [n / d], for [0 < n] and [0 < d]. *)
Definition ofFrac (negative : bool) (n d : Z) : num :=
  let '(q, e, l) := SFdiv_core_binary prec emax n 0 d 0 in
  binary_round_aux prec emax negative q e l.

Definition zero : num := S754_zero false.
Definition one : num := ofZ 1.
Definition thousand : num := ofZ 1000.

(** ToBoolean on a Number: [+0], [-0] and [NaN] are falsy. *)
Definition truthy (x : num) : bool :=
  match x with
  | S754_zero _ | S754_nan => false
  | _ => true
  end.

Definition isNaN (x : num) : bool :=
  match x with S754_nan => true | _ => false end.

(** *** parseFloat *)

(** Splits off the longest run of decimal digits: its value, its
    length and the rest. *)
Fixpoint digits (s : string) (acc : Z) (len : Z) : Z * Z * string :=
  match s with
  | String c r =>
      if JsString.is_digit c
      then digits r (10 * acc + JsString.digit_val c) (len + 1)
      else (acc, len, s)
  | EmptyString => (acc, len, s)
  end.

Definition sign_of (s : string) : bool * string :=
  match s with
  | String "-" r => (true, r)
  | String "+" r => (false, r)
  | _ => (false, s)
  end.

(** ExponentPart, when one is there in full: [e] or [E], an optional
    sign and at least one digit. *)
Definition exponent (s : string) : Z :=
  match s with
  | String c r =>
      if (Ascii.eqb c "e" || Ascii.eqb c "E")%bool then
        let '(sg, r1) := sign_of r in
        let '(v, len, _) := digits r1 0 0 in
        if len =? 0 then 0 else if sg then - v else v
      else 0
  | EmptyString => 0
  end.

(** The Number value of the decimal [m * 10^k], [0 <= m]. *)
Definition ofDecimal (negative : bool) (m k : Z) : num :=
  if m =? 0 then S754_zero negative
  else if 0 <=? k
       then (if negative then neg (ofZ (m * 10 ^ k)) else ofZ (m * 10 ^ k))
       else ofFrac negative m (10 ^ (- k)).

(** [parseFloat(string)]: leading white space is skipped, the longest
    prefix that is a StrDecimalLiteral is converted, [NaN] when there
    is none. *)
Definition parseFloat (input : string) : num :=
  let '(sg, s) := sign_of (JsString.trimStart input) in
  if JsString.startsWith s "Infinity" then S754_infinity sg
  else
    let '(ip, ilen, r1) := digits s 0 0 in
    let '(fp, flen, r2) :=
      match r1 with
      | String "." r => digits r ip 0
      | _ => (ip, 0, r1)
      end in
    if (ilen =? 0) && (flen =? 0) then NaN
    else ofDecimal sg fp (exponent r2 - flen).

(** *** Number.prototype.toFixed(2) *)

(** The integer [n] for which [n / 100 - x] is closest to zero, the
    larger one of two, for the positive finite [x = m * 2^e]. *)
Definition hundredths (m : positive) (e : Z) : Z :=
  if 0 <=? e then Zpos m * 2 ^ e * 100
  else (2 * (Zpos m * 100) + 2 ^ (- e)) / 2 ^ (1 - e).

Definition fixed2 (n : Z) : string :=
  JsString.of_Z (n / 100) ++ "." ++
  JsString.of_Z ((n mod 100) / 10) ++ JsString.of_Z (n mod 10).

(** The integer part of the positive finite [m * 2^e]. *)
Definition floor_abs (m : positive) (e : Z) : Z :=
  if 0 <=? e then Zpos m * 2 ^ e else Zpos m / 2 ^ (- e).

(** Number::toString for an integral value [v >= 10^21] of the Number
    [x]: the shortest digit string [s] with [s * 10^(k-n)] converting
    back to [x], in exponential notation. *)
Definition ndigits10 (v : Z) : Z :=
  Z.of_nat (String.length (JsString.of_Z v)).

Fixpoint shortest (fuel : nat) (n : Z) (x : num) (v : Z) : Z * Z :=
  let p := 10 ^ (ndigits10 v - n) in
  let lo := (v / p) * p in
  let hi := lo + p in
  let lo_ok := match SFcompare (ofZ lo) x with Some Eq => true | _ => false end in
  let hi_ok := match SFcompare (ofZ hi) x with Some Eq => true | _ => false end in
  let pick :=
    if lo_ok && hi_ok then Some (if v - lo <=? hi - v then lo else hi)
    else if lo_ok then Some lo
    else if hi_ok then Some hi
    else None in
  match pick, fuel with
  | Some c, _ => (c, n)
  | None, S fuel' => shortest fuel' (n + 1) x v
  | None, O => (v, ndigits10 v)
  end.

Definition exponential (x : num) (v : Z) : string :=
  let '(c, n) := shortest 20 1 x v in
  let k := ndigits10 c in
  let s := JsString.of_Z (c / 10 ^ (k - n)) in
  match s with
  | String d EmptyString => s ++ "e+" ++ JsString.of_Z (k - 1)
  | String d r => String d ("." ++ r) ++ "e+" ++ JsString.of_Z (k - 1)
  | EmptyString => s
  end.

Definition toFixed2 (x : num) : string :=
  match x with
  | S754_nan => "NaN"
  | S754_infinity false => "Infinity"
  | S754_infinity true => "-Infinity"
  | S754_zero _ => "0.00"
  | S754_finite s m e =>
      (if s then "-" else "") ++
      (if 10 ^ 21 <=? floor_abs m e
       then exponential (S754_finite false m e) (floor_abs m e)
       else fixed2 (hundredths m e))
  end.

End JsNum.

(** ** Ordinary objects used as dictionaries

    An object literal [{}] has its own properties, kept in creation
    order, and inherits from [Object.prototype].  The values stored are
    primitives. *)
Module JsObject.

Definition obj (V : Type) : Type := list (string * V).

(** The method names every ordinary object inherits. *)
Definition prototype_methods : list string :=
  [ "constructor"; "__defineGetter__"; "__defineSetter__";
    "hasOwnProperty"; "__lookupGetter__"; "__lookupSetter__";
    "isPrototypeOf"; "propertyIsEnumerable"; "toString"; "valueOf";
    "toLocaleString" ].

(** The accessor [__proto__] of [Object.prototype]. *)
Definition proto_accessor : string := "__proto__".

Definition inherited (k : string) : bool :=
  String.eqb k proto_accessor || existsb (String.eqb k) prototype_methods.

(** What [o[k]] evaluates to. *)
Inductive lookup (V : Type) : Type :=
| Own (v : V)                 (* an own property *)
| Inherited (name : string)   (* a function or object of the prototype *)
| Undefined.
Arguments Own {V} v.
Arguments Inherited {V} name.
Arguments Undefined {V}.

Fixpoint get_own {V} (k : string) (o : obj V) : option V :=
  match o with
  | [] => None
  | (k', v) :: r => if String.eqb k k' then Some v else get_own k r
  end.

Definition hasOwnProperty {V} (o : obj V) (k : string) : bool :=
  match get_own k o with Some _ => true | None => false end.

Definition get {V} (o : obj V) (k : string) : lookup V :=
  match get_own k o with
  | Some v => Own v
  | None => if inherited k then Inherited k else Undefined
  end.

Fixpoint replace {V} (k : string) (v : V) (o : obj V) : obj V :=
  match o with
  | [] => []
  | (k', v') :: r =>
      if String.eqb k k' then (k', v) :: r else (k', v') :: replace k v r
  end.

(** [o[k] = v] for a primitive [v]: an own property is overwritten in
    place, a new one is created last; the setter of [__proto__]
    ignores a primitive. *)
Definition set {V} (o : obj V) (k : string) (v : V) : obj V :=
  if hasOwnProperty o k then replace k v o
  else if String.eqb k proto_accessor then o
  else (o ++ [(k, v)])%list.

(** An array index: the canonical decimal string of an integer in
    [0, 2^32 - 2]. *)
Definition index_of (k : string) : option Z :=
  match JsNum.digits k 0 0 with
  | (v, len, EmptyString) =>
      if (0 <? len) && String.eqb (JsString.of_Z v) k && (v <=? 4294967294)
      then Some v else None
  | _ => None
  end.

Fixpoint insert_index (x : Z * string) (l : list (Z * string)) : list (Z * string) :=
  match l with
  | [] => [x]
  | y :: r => if fst x <=? fst y then x :: l else y :: insert_index x r
  end.

Fixpoint index_keys {V} (o : obj V) : list (Z * string) :=
  match o with
  | [] => []
  | (k, _) :: r =>
      match index_of k with
      | Some i => insert_index (i, k) (index_keys r)
      | None => index_keys r
      end
  end.

Definition name_keys {V} (o : obj V) : list string :=
  filter (fun k => match index_of k with Some _ => false | None => true end)
         (map fst o).

(** [Object.keys(o)]: array indices in ascending numeric order, then
    the other names in creation order. *)
Definition keys {V} (o : obj V) : list string :=
  (map snd (index_keys o) ++ name_keys o)%list.

(** [Object.entries(o)]. *)
Definition entries {V} (o : obj V) : list (string * lookup V) :=
  map (fun k => (k, get o k)) (keys o).

End JsObject.

(** ** Exceptions and effects

    A computation reads and writes a state [S] and either returns or
    throws an exception of type [E].  A throw leaves the state as it
    was at the throw. *)
Module Eff.

Inductive outcome (E A : Type) : Type :=
| Ret (a : A)
| Throw (error : E).
Arguments Ret {E A} a.
Arguments Throw {E A} error.

Definition M (E S A : Type) : Type := S -> outcome E A * S.

Definition ret {E S A} (a : A) : M E S A := fun s => (Ret a, s).
Definition throw {E S A} (error : E) : M E S A := fun s => (Throw error, s).

Definition bind {E S A B} (m : M E S A) (k : A -> M E S B) : M E S B :=
  fun s => match m s with
           | (Ret a, s') => k a s'
           | (Throw e, s') => (Throw e, s')
           end.

(** [try { body } catch (error) { handler(error) }]. *)
Definition try_catch {E S A} (body : M E S A) (handler : E -> M E S A) : M E S A :=
  fun s => match body s with
           | (Ret a, s') => (Ret a, s')
           | (Throw e, s') => handler e s'
           end.

Definition modify {E S} (f : S -> S) : M E S unit := fun s => (Ret tt, f s).
Definition gets {E S A} (f : S -> A) : M E S A := fun s => (Ret (f s), s).

(** Lifts the answer of the environment. *)
Definition lift {E S A} (o : outcome E A) : M E S A := fun s => (o, s).

Fixpoint for_each {E S A} (l : list A) (body : A -> M E S unit) : M E S unit :=
  match l with
  | [] => ret tt
  | x :: r => bind (body x) (fun _ => for_each r body)
  end.

End Eff.

Module EffNotations.
Notation "x <- m ;; k" := (Eff.bind m (fun x => k))
  (at level 61, m at next level, right associativity).
Notation "m ;;; k" := (Eff.bind m (fun _ => k))
  (at level 61, right associativity).
End EffNotations.

(** ** The report pipeline: [src/reports/reports.service.ts] *)
Module Reports.

Import JsNum JsObject Eff EffNotations.

(** A thrown [Error] is kept as its [message]. *)
Definition outcome (A : Type) : Type := Eff.outcome string A.
Definition M (S A : Type) : Type := Eff.M string S A.

Definition LF : ascii := "010"%char.
Definition newline : string := String LF EmptyString.

(** [ReportStatus] *)
Module ReportStatus.
Definition IDLE : string := "idle".
Definition PROCESSING : string := "starting".
Definition FINISHED : string := "finished".
Definition ERROR : string := "error".
End ReportStatus.

(** [enum ReportType] and its string values. *)
Inductive ReportType : Type := ACCOUNTS | YEARLY | FINANCIAL_STATEMENTS.

Definition ReportType_value (r : ReportType) : string :=
  match r with
  | ACCOUNTS => "accounts"
  | YEARLY => "yearly"
  | FINANCIAL_STATEMENTS => "fs"
  end.

(** [class ReportTimeMetrics]: milliseconds per report and in total. *)
Record ReportTimeMetrics : Type := {
  rt_accounts : num;
  rt_yearly : num;
  rt_fs : num;
  rt_total : num
}.

(** [class ReportMetrics]; [lastRun] is [null] or the time value of a
    [Date]. *)
Record ReportMetrics : Type := {
  lastRunTime : ReportTimeMetrics;
  averageRunTime : ReportTimeMetrics;
  runs : num;
  lastRun : option Z
}.

(** The fields of [class ReportsService]. *)
Record ReportsService : Type := {
  TMP_DIR : string;
  OUTPUT_DIR : string;
  PARALLEL_PROCESSING : bool;
  states : obj string;
  metrics : ReportMetrics
}.

(** What the service does to the file system, in the order issued. *)
Inductive FsOp : Type :=
| Readdir (dir : string)
| ReadFile (path : string)
| WriteFile (path data : string)
| Mkdir (dir : string).

(** The state a method runs in: the service object and the log of its
    file-system calls. *)
Record World : Type := {
  service : ReportsService;
  trace : list FsOp
}.

(** The environment of the process: the answers of [fs] and
    [fs.promises], the order in which pending reads complete (by
    [latency], ties in the order issued) and the year [Date] finds in
    a date string ([None] for [NaN]). *)
Record Host : Type := {
  existsSync : string -> bool;
  mkdirSync : string -> outcome unit;
  readdir : string -> outcome (list string);
  readFile : string -> outcome string;
  writeFile : string -> string -> outcome unit;
  latency : string -> nat;
  getFullYear : string -> option Z
}.

(** Two readings of [performance.now()]. *)
Record Timing : Type := { t_start : num; t_end : num }.

(** The readings of one pipeline run and the time value of
    [new Date()] at its end. *)
Record RunClock : Type := {
  run_start : num;
  run_end : num;
  clk_accounts : Timing;
  clk_yearly : Timing;
  clk_fs : Timing;
  run_date : Z
}.

(** [ConfigService]: the values registered under [reports.*], any of
    which may be undefined. *)
Record ConfigService : Type := {
  reports_tmpDir : option string;
  reports_outputDir : option string;
  reports_parallelProcessing : option bool
}.

(** [configService.get(key, defaultValue)]. *)
Definition config_get {A} (value : option A) (defaultValue : A) : A :=
  match value with Some v => v | None => defaultValue end.

(** *** Field updates *)

Definition set_states (f : obj string -> obj string) (w : World) : World :=
  let s := service w in
  {| service := {| TMP_DIR := TMP_DIR s; OUTPUT_DIR := OUTPUT_DIR s;
                   PARALLEL_PROCESSING := PARALLEL_PROCESSING s;
                   states := f (states s); metrics := metrics s |};
     trace := trace w |}.

Definition set_metrics (f : ReportMetrics -> ReportMetrics) (w : World) : World :=
  let s := service w in
  {| service := {| TMP_DIR := TMP_DIR s; OUTPUT_DIR := OUTPUT_DIR s;
                   PARALLEL_PROCESSING := PARALLEL_PROCESSING s;
                   states := states s; metrics := f (metrics s) |};
     trace := trace w |}.

Definition log (ops : list FsOp) (w : World) : World :=
  {| service := service w; trace := (trace w ++ ops)%list |}.

Definition with_accounts (x : num) (t : ReportTimeMetrics) : ReportTimeMetrics :=
  {| rt_accounts := x; rt_yearly := rt_yearly t; rt_fs := rt_fs t; rt_total := rt_total t |}.
Definition with_yearly (x : num) (t : ReportTimeMetrics) : ReportTimeMetrics :=
  {| rt_accounts := rt_accounts t; rt_yearly := x; rt_fs := rt_fs t; rt_total := rt_total t |}.
Definition with_fs (x : num) (t : ReportTimeMetrics) : ReportTimeMetrics :=
  {| rt_accounts := rt_accounts t; rt_yearly := rt_yearly t; rt_fs := x; rt_total := rt_total t |}.
Definition with_total (x : num) (t : ReportTimeMetrics) : ReportTimeMetrics :=
  {| rt_accounts := rt_accounts t; rt_yearly := rt_yearly t; rt_fs := rt_fs t; rt_total := x |}.

(** [this.metrics.lastRunTime.f = t; this.metrics.averageRunTime.f =
    (this.metrics.averageRunTime.f * this.metrics.runs + t) /
    (this.metrics.runs + 1)], for the field [f] read by [field] and
    written by [with_field]. *)
Definition track (field : ReportTimeMetrics -> num)
    (with_field : num -> ReportTimeMetrics -> ReportTimeMetrics)
    (t : num) (m : ReportMetrics) : ReportMetrics :=
  {| lastRunTime := with_field t (lastRunTime m);
     averageRunTime :=
       with_field (div (add (mul (field (averageRunTime m)) (runs m)) t)
                       (add (runs m) one))
                  (averageRunTime m);
     runs := runs m;
     lastRun := lastRun m |}.

(** [this.metrics.runs++; this.metrics.lastRun = new Date()]. *)
Definition count_run (date : Z) (m : ReportMetrics) : ReportMetrics :=
  {| lastRunTime := lastRunTime m;
     averageRunTime := averageRunTime m;
     runs := add (runs m) one;
     lastRun := Some date |}.

(** [this.states[key] = value]. *)
Definition set_state (key value : string) : M World unit :=
  modify (set_states (fun o => set o key value)).

(** *** File-system calls *)

(** [path.join(dir, file)] for a directory name and an entry of its
    listing. *)
Definition path_join (dir file : string) : string := dir ++ "/" ++ file.

Definition do_readdir (h : Host) (dir : string) : M World (list string) :=
  modify (log [Readdir dir]) ;;; lift (readdir h dir).

Definition do_writeFile (h : Host) (path data : string) : M World unit :=
  modify (log [WriteFile path data]) ;;; lift (writeFile h path data).

Definition do_mkdir (h : Host) (dir : string) : M World unit :=
  modify (log [Mkdir dir]) ;;; lift (mkdirSync h dir).

Fixpoint insert_by_latency (h : Host) (p : string) (l : list string) : list string :=
  match l with
  | [] => [p]
  | q :: r =>
      if (latency h p <=? latency h q)%nat then p :: l
      else q :: insert_by_latency h p r
  end.

(** The order in which reads issued together complete. *)
Definition completion_order (h : Host) (paths : list string) : list string :=
  fold_right (insert_by_latency h) [] paths.

(** Feeds the files to [step] one after the other; the first read that
    fails ends it. *)
Fixpoint consume {A} (h : Host) (step : A -> string -> A)
    (paths : list string) (acc : A) : outcome A :=
  match paths with
  | [] => Ret acc
  | p :: r =>
      match readFile h p with
      | Ret content => consume h step r (step acc content)
      | Throw e => Throw e
      end
  end.

(** [await Promise.all(files.map(async (file) => { const content =
    await fsPromises.readFile(path.join(dir, file), 'utf-8'); ... }))]:
    every read is issued, the callbacks run in completion order, the
    first rejection rejects the whole. *)
Definition read_all {A} (h : Host) (dir : string) (files : list string)
    (step : A -> string -> A) (init : A) : M World A :=
  let paths := map (path_join dir) files in
  modify (log (map ReadFile paths)) ;;;
  lift (consume h step (completion_order h paths) init).

(** [fs.readdirSync(dir).forEach((file) => { ... fs.readFileSync(
    path.join(dir, file), 'utf-8') ... })]: one read at a time, in
    listing order. *)
Fixpoint read_each {A} (h : Host) (dir : string) (files : list string)
    (step : A -> string -> A) (acc : A) : M World A :=
  match files with
  | [] => ret acc
  | f :: r =>
      modify (log [ReadFile (path_join dir f)]) ;;;
      content <- lift (readFile h (path_join dir f)) ;;
      read_each h dir r step (step acc content)
  end.

(** *** Rows *)

(** [const [date, account, , debit, credit] = line.split(',')]: a
    missing element is [undefined]. *)
Record Row : Type := {
  date : string;
  account : option string;
  debit : option string;
  credit : option string
}.

Definition destructure (line : string) : Row :=
  let fields := JsString.split "," line in
  {| date := nth 0 fields EmptyString;
     account := nth_error fields 1;
     debit := nth_error fields 3;
     credit := nth_error fields 4 |}.

(** [content.trim().split('\n')]. *)
Definition lines_of (content : string) : list string :=
  JsString.split LF (JsString.trim content).

(** [String(field || 0)]. *)
Definition or_zero (field : option string) : string :=
  match field with
  | Some (String c r) => String c r
  | _ => "0"
  end.

(** [parseFloat(String(debit || 0)) - parseFloat(String(credit || 0))]. *)
Definition net (r : Row) : num :=
  sub (parseFloat (or_zero (debit r))) (parseFloat (or_zero (credit r))).

(** The property key an [account] is used as. *)
Definition prop_key (name : option string) : string :=
  match name with Some s => s | None => "undefined" end.

(** What a slot of a balance dictionary holds: a number, or the text
    that [+=] makes of an inherited function or object (never empty;
    its content is not observed). *)
Inductive cell : Type := CNum (x : num) | CText.

(** ToBoolean of [o[k]]. *)
Definition truthy_lookup (l : lookup cell) : bool :=
  match l with
  | Own (CNum x) => truthy x
  | Own CText => true
  | Inherited _ => true
  | Undefined => false
  end.

(** [o[k] + d]. *)
Definition plus (l : lookup cell) (d : num) : cell :=
  match l with
  | Own (CNum x) => CNum (add x d)
  | Own CText => CText
  | Inherited _ => CText
  | Undefined => CNum NaN
  end.

(** [if (!o[k]) { o[k] = 0; } o[k] += d]. *)
Definition accumulate (o : obj cell) (k : string) (d : num) : obj cell :=
  let o1 := if truthy_lookup (get o k) then o else set o k (CNum zero) in
  set o1 k (plus (get o1 k) d).

(** [`${k},${v.toFixed(2)}`]; [callee] is the text the TypeError of a
    value without [toFixed] names. *)
Definition balance_line (callee : string) (k : string) (v : lookup cell) : outcome string :=
  match v with
  | Own (CNum x) => Ret (k ++ "," ++ toFixed2 x)
  | _ => Throw (callee ++ ".toFixed is not a function")
  end.

Fixpoint balance_lines (callee : string) (es : list (string * lookup cell))
    : outcome (list string) :=
  match es with
  | [] => Ret []
  | (k, v) :: r =>
      match balance_line callee k v with
      | Ret l =>
          match balance_lines callee r with
          | Ret ls => Ret (l :: ls)
          | Throw e => Throw e
          end
      | Throw e => Throw e
      end
  end.

Definition is_csv (file : string) : bool := JsString.endsWith file ".csv".

(** *** The accounts report *)

(** The body of [for (const line of lines)] in [accountsAsync] and
    [accounts]. *)
Definition accounts_line (balances : obj cell) (line : string) : obj cell :=
  let r := destructure line in
  accumulate balances (prop_key (account r)) (net r).

Definition accounts_file (balances : obj cell) (content : string) : obj cell :=
  fold_left accounts_line (lines_of content) balances.

(** [output]: the header, then a line per entry of [accountBalances]. *)
Definition accounts_output (balances : obj cell) : outcome (list string) :=
  match balance_lines "balance" (entries balances) with
  | Ret ls => Ret ("Account,Balance" :: ls)
  | Throw e => Throw e
  end.

Definition finished_in (processTime : num) : string :=
  "finished in " ++ toFixed2 (div processTime thousand).

(** [accountsAsync] up to its first [await]. *)
Definition accountsAsync_start : M World unit :=
  set_state "accounts" "starting".

(** [accountsAsync] from its first [await] on. *)
Definition accountsAsync_rest (h : Host) (tm : Timing) : M World bool :=
  let start := t_start tm in
  let tmpDir := "tmp" in
  let outputFile := "out/accounts.csv" in
  try_catch
    (files <- do_readdir h tmpDir ;;
     let csvFiles := filter is_csv files in
     accountBalances <- read_all h tmpDir csvFiles accounts_file [] ;;
     output <- lift (accounts_output accountBalances) ;;
     do_writeFile h outputFile (JsString.join newline output) ;;;
     let processTime := sub (t_end tm) start in
     set_state "accounts" (finished_in processTime ++ " seconds") ;;;
     modify (set_metrics (track rt_accounts with_accounts processTime)) ;;;
     ret true)
    (fun message =>
       set_state "accounts" ("error: " ++ message) ;;; ret false).

Definition accountsAsync (h : Host) (tm : Timing) : M World bool :=
  accountsAsync_start ;;; accountsAsync_rest h tm.

(** The synchronous [accounts]. *)
Definition accounts (h : Host) (tm : Timing) : M World unit :=
  set_state "accounts" "starting" ;;;
  let start := t_start tm in
  let tmpDir := "tmp" in
  let outputFile := "out/accounts.csv" in
  files <- do_readdir h tmpDir ;;
  accountBalances <- read_each h tmpDir (filter is_csv files) accounts_file [] ;;
  output <- lift (accounts_output accountBalances) ;;
  do_writeFile h outputFile (JsString.join newline output) ;;;
  set_state "accounts" (finished_in (sub (t_end tm) start)).

(** *** The yearly report *)

(** The key a year is used as: Number::toString of an integer or of
    [NaN]. *)
Definition year_key (year : option Z) : string :=
  match year with Some y => JsString.of_Z y | None => "NaN" end.

Definition yearly_line (h : Host) (cashByYear : obj cell) (line : string) : obj cell :=
  let r := destructure line in
  match account r with
  | Some a =>
      if String.eqb a "Cash"
      then accumulate cashByYear (year_key (getFullYear h (date r))) (net r)
      else cashByYear
  | None => cashByYear
  end.

Definition yearly_file (h : Host) (cashByYear : obj cell) (content : string) : obj cell :=
  fold_left (yearly_line h) (lines_of content) cashByYear.

Fixpoint insert_sorted (k : string) (l : list string) : list string :=
  match l with
  | [] => [k]
  | x :: r => if JsString.ltb x k then x :: insert_sorted k r else k :: l
  end.

(** [keys.sort()]. *)
Definition sort_keys (l : list string) : list string :=
  fold_right insert_sorted [] l.

Definition yearly_output (cashByYear : obj cell) : outcome (list string) :=
  match balance_lines "cashByYear[year]"
          (map (fun year => (year, get cashByYear year))
               (sort_keys (keys cashByYear))) with
  | Ret ls => Ret ("Financial Year,Cash Balance" :: ls)
  | Throw e => Throw e
  end.

Definition is_yearly_input (file : string) : bool :=
  is_csv file && negb (String.eqb file "yearly.csv").

Definition yearlyAsync_start : M World unit :=
  set_state "yearly" "starting".

Definition yearlyAsync_rest (h : Host) (tm : Timing) : M World bool :=
  let start := t_start tm in
  let tmpDir := "tmp" in
  let outputFile := "out/yearly.csv" in
  try_catch
    (files <- do_readdir h tmpDir ;;
     let csvFiles := filter is_yearly_input files in
     cashByYear <- read_all h tmpDir csvFiles (yearly_file h) [] ;;
     output <- lift (yearly_output cashByYear) ;;
     do_writeFile h outputFile (JsString.join newline output) ;;;
     let processTime := sub (t_end tm) start in
     set_state "yearly" (finished_in processTime ++ " seconds") ;;;
     modify (set_metrics (track rt_yearly with_yearly processTime)) ;;;
     ret true)
    (fun message =>
       set_state "yearly" ("error: " ++ message) ;;; ret false).

Definition yearlyAsync (h : Host) (tm : Timing) : M World bool :=
  yearlyAsync_start ;;; yearlyAsync_rest h tm.

(** The synchronous [yearly]. *)
Definition yearly (h : Host) (tm : Timing) : M World unit :=
  set_state "yearly" "starting" ;;;
  let start := t_start tm in
  let tmpDir := "tmp" in
  let outputFile := "out/yearly.csv" in
  files <- do_readdir h tmpDir ;;
  cashByYear <- read_each h tmpDir (filter is_yearly_input files) (yearly_file h) [] ;;
  output <- lift (yearly_output cashByYear) ;;
  do_writeFile h outputFile (JsString.join newline output) ;;;
  set_state "yearly" (finished_in (sub (t_end tm) start)).

(** *** The financial statement *)

Definition Revenues : list string := ["Sales Revenue"].
Definition Expenses : list string :=
  ["Cost of Goods Sold"; "Salaries Expense"; "Rent Expense";
   "Utilities Expense"; "Interest Expense"; "Tax Expense"].
Definition Assets : list string :=
  ["Cash"; "Accounts Receivable"; "Inventory"; "Fixed Assets";
   "Prepaid Expenses"].
Definition Liabilities : list string :=
  ["Accounts Payable"; "Loan Payable"; "Sales Tax Payable";
   "Accrued Liabilities"; "Unearned Revenue"; "Dividends Payable"].
Definition Equity : list string := ["Common Stock"; "Retained Earnings"].

(** [categories], section by section and group by group. *)
Definition categories : list (list string) :=
  [Revenues; Expenses; Assets; Liabilities; Equity].

(** [balances[account] = 0] for every account of [categories]. *)
Definition initial_balances : obj num :=
  fold_left (fun o a => set o a zero) (List.concat categories) [].

(** [if (balances.hasOwnProperty(account)) { balances[account] += d }]. *)
Definition fs_line (balances : obj num) (line : string) : obj num :=
  let r := destructure line in
  let k := prop_key (account r) in
  match get_own k balances with
  | Some x => set balances k (add x (net r))
  | None => balances
  end.

Definition fs_file (balances : obj num) (content : string) : obj num :=
  fold_left fs_line (lines_of content) balances.

(** [balances[account] || 0] for an account of [categories]. *)
Definition value_of (balances : obj num) (a : string) : num :=
  match get_own a balances with
  | Some x => if truthy x then x else zero
  | None => zero
  end.

(** The lines of a group and its total. *)
Definition group_lines (balances : obj num) (group : list string) : list string :=
  map (fun a => a ++ "," ++ toFixed2 (value_of balances a)) group.

Definition group_total (balances : obj num) (group : list string) : num :=
  fold_left (fun t a => add t (value_of balances a)) group zero.

Definition fs_output (balances : obj num) : list string :=
  let totalRevenue := group_total balances Revenues in
  let totalExpenses := group_total balances Expenses in
  let totalAssets := group_total balances Assets in
  let totalLiabilities := group_total balances Liabilities in
  let netIncome := sub totalRevenue totalExpenses in
  let totalEquity := add (group_total balances Equity) netIncome in
  let netIncomeLine := "Net Income," ++ toFixed2 netIncome in
  let assetsLine := "Total Assets," ++ toFixed2 totalAssets in
  let liabilitiesLine := "Total Liabilities," ++ toFixed2 totalLiabilities in
  let retainedLine := "Retained Earnings (Net Income)," ++ toFixed2 netIncome in
  let equityLine := "Total Equity," ++ toFixed2 totalEquity in
  let checkLine :=
    "Assets = Liabilities + Equity, " ++ toFixed2 totalAssets ++ " = "
      ++ toFixed2 (add totalLiabilities totalEquity) in
  (["Basic Financial Statement"; ""; "Income Statement"]
   ++ group_lines balances Revenues
   ++ group_lines balances Expenses
   ++ [netIncomeLine; ""; "Balance Sheet"; "Assets"]
   ++ group_lines balances Assets
   ++ [assetsLine; ""; "Liabilities"]
   ++ group_lines balances Liabilities
   ++ [liabilitiesLine; ""; "Equity"]
   ++ group_lines balances Equity
   ++ [retainedLine; equityLine; ""; checkLine])%list.

Definition is_fs_input (file : string) : bool :=
  is_csv file && negb (String.eqb file "fs.csv").

Definition fsAsync_start : M World unit :=
  set_state "fs" "starting".

Definition fsAsync_rest (h : Host) (tm : Timing) : M World bool :=
  let start := t_start tm in
  let tmpDir := "tmp" in
  let outputFile := "out/fs.csv" in
  try_catch
    (let balances := initial_balances in
     files <- do_readdir h tmpDir ;;
     let csvFiles := filter is_fs_input files in
     balances <- read_all h tmpDir csvFiles fs_file balances ;;
     do_writeFile h outputFile (JsString.join newline (fs_output balances)) ;;;
     let processTime := sub (t_end tm) start in
     set_state "fs" (finished_in processTime ++ " seconds") ;;;
     modify (set_metrics (track rt_fs with_fs processTime)) ;;;
     ret true)
    (fun message =>
       set_state "fs" ("error: " ++ message) ;;; ret false).

Definition fsAsync (h : Host) (tm : Timing) : M World bool :=
  fsAsync_start ;;; fsAsync_rest h tm.

(** The synchronous [fs]. *)
Definition fs (h : Host) (tm : Timing) : M World unit :=
  set_state "fs" "starting" ;;;
  let start := t_start tm in
  let tmpDir := "tmp" in
  let outputFile := "out/fs.csv" in
  files <- do_readdir h tmpDir ;;
  balances <- read_each h tmpDir (filter is_fs_input files) fs_file initial_balances ;;
  do_writeFile h outputFile (JsString.join newline (fs_output balances)) ;;;
  set_state "fs" (finished_in (sub (t_end tm) start)).

(** *** The pipeline *)

(** The rest of a generator, by report. *)
Definition generator_rest (h : Host) (clk : RunClock) (r : ReportType) : M World bool :=
  match r with
  | ACCOUNTS => accountsAsync_rest h (clk_accounts clk)
  | YEARLY => yearlyAsync_rest h (clk_yearly clk)
  | FINANCIAL_STATEMENTS => fsAsync_rest h (clk_fs clk)
  end.

(** [await Promise.all([this.accountsAsync(), this.yearlyAsync(),
    this.fsAsync()])]: the three calls run to their first [await] in
    the order written; the generators then finish in the order
    [schedule], each touching its own status, its own metrics and its
    own files only. *)
Definition parallel (h : Host) (clk : RunClock) (schedule : list ReportType) : M World unit :=
  accountsAsync_start ;;;
  yearlyAsync_start ;;;
  fsAsync_start ;;;
  for_each schedule (fun r => generator_rest h clk r ;;; ret tt).

Definition sequential (h : Host) (clk : RunClock) : M World unit :=
  accountsAsync h (clk_accounts clk) ;;;
  yearlyAsync h (clk_yearly clk) ;;;
  fsAsync h (clk_fs clk) ;;;
  ret tt.

(** [processReportsAsync]. *)
Definition processReportsAsync (h : Host) (clk : RunClock)
    (schedule : list ReportType) : M World bool :=
  let startTime := run_start clk in
  try_catch
    (parallel_mode <- gets (fun w => PARALLEL_PROCESSING (service w)) ;;
     (if parallel_mode : bool then parallel h clk schedule else sequential h clk) ;;;
     let totalTime := sub (run_end clk) startTime in
     modify (set_metrics (track rt_total with_total totalTime)) ;;;
     modify (set_metrics (count_run (run_date clk))) ;;;
     ret true)
    (fun _ => ret false).

(** *** Queries *)

(** [state(scope)]: [this.states[scope]]. *)
Definition state (s : ReportsService) (scope : string) : lookup string :=
  get (states s) scope.

(** [getMetrics()]. *)
Definition getMetrics (s : ReportsService) : ReportMetrics := metrics s.

(** [class ReportsStatusResponse]. *)
Record ReportsStatusResponse : Type := {
  accounts_csv : lookup string;
  yearly_csv : lookup string;
  fs_csv : lookup string;
  response_metrics : ReportMetrics
}.

(** [getReportStatus()]. *)
Definition getReportStatus (s : ReportsService) : ReportsStatusResponse :=
  {| accounts_csv := state s (ReportType_value ACCOUNTS);
     yearly_csv := state s (ReportType_value YEARLY);
     fs_csv := state s (ReportType_value FINANCIAL_STATEMENTS);
     response_metrics := getMetrics s |}.

(** *** Construction *)

Definition no_time : ReportTimeMetrics :=
  {| rt_accounts := zero; rt_yearly := zero; rt_fs := zero; rt_total := zero |}.

(** The field initialisers and the assignments of the constructor. *)
Definition initial_service (config : ConfigService) : ReportsService :=
  {| TMP_DIR := config_get (reports_tmpDir config) "tmp";
     OUTPUT_DIR := config_get (reports_outputDir config) "out";
     PARALLEL_PROCESSING := config_get (reports_parallelProcessing config) true;
     states :=
       [ (ReportType_value ACCOUNTS, ReportStatus.IDLE);
         (ReportType_value YEARLY, ReportStatus.IDLE);
         (ReportType_value FINANCIAL_STATEMENTS, ReportStatus.IDLE) ];
     metrics :=
       {| lastRunTime := no_time; averageRunTime := no_time;
          runs := zero; lastRun := None |} |}.

(** [ensureDirectoriesExist()]. *)
Definition ensureDirectoriesExist (h : Host) : M World unit :=
  try_catch
    (tmp <- gets (fun w => TMP_DIR (service w)) ;;
     out <- gets (fun w => OUTPUT_DIR (service w)) ;;
     for_each [tmp; out]
       (fun dir => if existsSync h dir then ret tt else do_mkdir h dir))
    (fun _ => ret tt).

(** [new ReportsService(configService)]. *)
Definition new_ReportsService (h : Host) (config : ConfigService) : World :=
  snd (ensureDirectoriesExist h {| service := initial_service config; trace := [] |}).

End Reports.

(** ** The ticket router: [src/tickets/tickets.service.ts] *)
Module Tickets.

Import Eff EffNotations.

(** Modelled from the spec: the enums of [db/models/Ticket] and
    [db/models/User], which the service imports and which are not
    among the sources; the values are those of the spec and of the
    seed data. *)
Inductive TicketType : Type := managementReport | registrationAddressChange | strikeOff.
Inductive TicketStatus : Type := open | resolved.
Inductive TicketCategory : Type := accounting | corporate | management.
Inductive UserRole : Type := accountant | corporateSecretary | director.

Definition UserRole_value (r : UserRole) : string :=
  match r with
  | accountant => "accountant"
  | corporateSecretary => "corporateSecretary"
  | director => "director"
  end.

Definition TicketType_eqb (a b : TicketType) : bool :=
  match a, b with
  | managementReport, managementReport
  | registrationAddressChange, registrationAddressChange
  | strikeOff, strikeOff => true
  | _, _ => false
  end.

Definition TicketStatus_eqb (a b : TicketStatus) : bool :=
  match a, b with
  | open, open | resolved, resolved => true
  | _, _ => false
  end.

Definition UserRole_eqb (a b : UserRole) : bool :=
  match a, b with
  | accountant, accountant
  | corporateSecretary, corporateSecretary
  | director, director => true
  | _, _ => false
  end.

(** Modelled from the spec: the rows of the [users] and [tickets]
    tables (the models are not among the sources). *)
Record User : Type := {
  user_id : Z;
  role : UserRole;
  user_companyId : Z;
  createdAt : Z
}.

Record Ticket : Type := {
  id : Z;
  type : TicketType;
  companyId : Z;
  assigneeId : Z;
  status : TicketStatus;
  category : TicketCategory
}.

(** [class TicketResponseDto] has the fields of a ticket row. *)
Definition TicketResponseDto : Type := Ticket.

(** What is thrown: a [ConflictException] or another [Error]. *)
Inductive exn : Type :=
| ConflictException (message : string)
| Error (message : string).

(** Modelled from the spec: the relational store, the collaborator of
    section 6 ("create/find/update with filter predicates and
    ordering, and a transaction scope with automatic rollback on
    thrown error").  The tables, the identifier the store gives the
    next ticket, and the calls that are going to fail with a storage
    error. *)
Record Db : Type := {
  users : list User;
  tickets : list Ticket;
  next_id : Z;
  find_fails : bool;
  create_fails : bool;
  update_fails : bool
}.

Definition M (A : Type) : Type := Eff.M exn Db A.

Definition with_tickets (f : list Ticket -> list Ticket) (n : Z) (db : Db) : Db :=
  {| users := users db; tickets := f (tickets db); next_id := n;
     find_fails := find_fails db; create_fails := create_fails db;
     update_fails := update_fails db |}.

Fixpoint insert_newest (u : User) (l : list User) : list User :=
  match l with
  | [] => [u]
  | v :: r => if createdAt v <=? createdAt u then u :: l else v :: insert_newest u r
  end.

(** [order: [['createdAt', 'DESC']]]. *)
Definition newest_first (l : list User) : list User :=
  fold_right insert_newest [] l.

(** Modelled from the spec: [User.findAll({ where: { companyId, role },
    order: [['createdAt', 'DESC']] })]. *)
Definition User_findAll (company : Z) (r : UserRole) : M (list User) :=
  fun db =>
    if find_fails db then (Throw (Error "storage failure"), db)
    else (Ret (newest_first
                 (filter (fun u => (user_companyId u =? company) && UserRole_eqb (role u) r)
                         (users db))), db).

(** Modelled from the spec: [Ticket.findOne({ where: { companyId,
    type, status } })]. *)
Definition Ticket_findOne (company : Z) (ty : TicketType) (st : TicketStatus)
    : M (option Ticket) :=
  fun db =>
    if find_fails db then (Throw (Error "storage failure"), db)
    else (Ret (find (fun t => (companyId t =? company) && TicketType_eqb (type t) ty
                              && TicketStatus_eqb (status t) st)
                    (tickets db)), db).

(** Modelled from the spec: [Ticket.create({ companyId, assigneeId,
    category, type, status })]; the store assigns the identifier. *)
Definition Ticket_create (company assignee : Z) (cat : TicketCategory)
    (ty : TicketType) (st : TicketStatus) : M Ticket :=
  fun db =>
    if create_fails db then (Throw (Error "storage failure"), db)
    else
      let t := {| id := next_id db; type := ty; companyId := company;
                  assigneeId := assignee; status := st; category := cat |} in
      (Ret t, with_tickets (fun l => (l ++ [t])%list) (next_id db + 1) db).

Definition set_status (st : TicketStatus) (t : Ticket) : Ticket :=
  {| id := id t; type := type t; companyId := companyId t;
     assigneeId := assigneeId t; status := st; category := category t |}.

(** Modelled from the spec: [Ticket.update({ status: resolved },
    { where: { companyId, status: open, id: { [Op.ne]: except } } })]. *)
Definition Ticket_update_resolved (company except : Z) : M unit :=
  fun db =>
    if update_fails db then (Throw (Error "storage failure"), db)
    else
      (Ret tt,
       with_tickets
         (map (fun t =>
                 if (companyId t =? company) && TicketStatus_eqb (status t) open
                    && negb (id t =? except)
                 then set_status resolved t else t))
         (next_id db) db).

(** Modelled from the spec: [sequelize.transaction(async (transaction)
    => body)]: the tables are committed when [body] returns and put
    back when it throws. *)
Definition transaction {A} (body : M A) : M A :=
  fun db =>
    match body db with
    | (Ret a, db') => (Ret a, db')
    | (Throw e, db') => (Throw e, with_tickets (fun _ => tickets db) (next_id db') db)
    end.

(** [mapTicketToDto]. *)
Definition mapTicketToDto (ticket : Ticket) : TicketResponseDto :=
  {| id := id ticket; type := type ticket; companyId := companyId ticket;
     assigneeId := assigneeId ticket; status := status ticket;
     category := category ticket |}.

(** [checkForDuplicateRegistrationTicket]. *)
Definition checkForDuplicateRegistrationTicket (company : Z) : M unit :=
  existingTicket <- Ticket_findOne company registrationAddressChange open ;;
  match existingTicket with
  | Some _ =>
      throw (ConflictException
               "A registration address change ticket already exists for this company.")
  | None => ret tt
  end.

(** [determineTicketCategory]. *)
Definition determineTicketCategory (ty : TicketType) : TicketCategory :=
  match ty with
  | managementReport => accounting
  | registrationAddressChange => corporate
  | strikeOff => management
  end.

(** [findAssignee]. *)
Definition findAssignee (ty : TicketType) (company : Z) : M User :=
  let userRole :=
    match ty with
    | managementReport => accountant
    | registrationAddressChange => corporateSecretary
    | strikeOff => director
    end in
  assignees <- User_findAll company userRole ;;
  found <-
    (if TicketType_eqb ty registrationAddressChange && (List.length assignees =? 0)%nat
     then (fallback <- User_findAll company director ;; ret (director, fallback))
     else ret (userRole, assignees)) ;;
  let '(userRole, assignees) := found in
  match assignees with
  | [] =>
      throw (ConflictException
               ("Cannot find user with role " ++ UserRole_value userRole
                ++ " to create a ticket"))
  | first :: others =>
      if (UserRole_eqb userRole corporateSecretary || UserRole_eqb userRole director)
         && (1 <? List.length assignees)%nat
      then throw (ConflictException
                    ("Multiple users with role " ++ UserRole_value userRole
                     ++ ". Cannot create a ticket"))
      else ret first
  end.

(** [createStrikeOffTicket]. *)
Definition createStrikeOffTicket (company : Z) : M TicketResponseDto :=
  transaction
    (try_catch
       (directors <- User_findAll company director ;;
        match directors with
        | [] =>
            throw (ConflictException
                     ("Cannot find user with role " ++ UserRole_value director
                      ++ " to create a strike off ticket"))
        | the_director :: others =>
            if (1 <? List.length directors)%nat
            then throw (ConflictException
                          ("Multiple users with role " ++ UserRole_value director
                           ++ ". Cannot create a strike off ticket"))
            else
              ticket <- Ticket_create company (user_id the_director)
                          management strikeOff open ;;
              Ticket_update_resolved company (id ticket) ;;;
              ret (mapTicketToDto ticket)
        end)
       (fun error =>
          match error with
          | ConflictException _ => throw error
          | Error _ =>
              throw (ConflictException
                       "Failed to process strike off ticket. Please try again.")
          end)).

(** [createTicket]. *)
Definition createTicket (ty : TicketType) (company : Z) : M TicketResponseDto :=
  if TicketType_eqb ty strikeOff then createStrikeOffTicket company
  else
    (if TicketType_eqb ty registrationAddressChange
     then checkForDuplicateRegistrationTicket company
     else ret tt) ;;;
    let cat := determineTicketCategory ty in
    assignee <- findAssignee ty company ;;
    ticket <- Ticket_create company (user_id assignee) cat ty open ;;
    ret (mapTicketToDto ticket).

End Tickets.


(** ** Calls that overlap *)

(** A call of an [async] method runs from one [await] to the next
    without interruption; at an [await] any other call in flight may
    run instead.  [step] takes a call from one [await] to the next. *)
Module Overlap.

Section WithStep.

Variables Call State : Type.
Variable step : Call -> State -> Call * State.

(** The call at position [i] of the pool runs to its next [await]. *)
Fixpoint advance (i : nat) (flights : list Call) (s : State) : list Call * State :=
  match flights with
  | [] => ([], s)
  | f :: rest =>
      match i with
      | O => let (f', s') := step f s in (f' :: rest, s')
      | S j => let (rest', s') := advance j rest s in (f :: rest', s')
      end
  end.

(** The calls of the pool run as [schedule] picks them. *)
Definition interleave (schedule : list nat) (flights : list Call) (s : State) : list Call * State :=
  fold_left (fun st i => advance i (fst st) (snd st)) schedule (flights, s).

(** One call runs [n] steps with nothing in between. *)
Definition alone (n : nat) (f : Call) (s : State) : Call * State :=
  Nat.iter n (fun st => step (fst st) (snd st)) (f, s).

End WithStep.

Arguments advance {Call State} step i flights s.
Arguments interleave {Call State} step schedule flights s.
Arguments alone {Call State} step n f s.

End Overlap.

(** ** [createTicket] from [await] to [await] *)
Module TicketsSteps.

Import Eff EffNotations Tickets.

(** Where a call of [createTicket] of a type other than [strikeOff]
    stands: before [Ticket.findOne] (line 166), before the first
    [User.findAll] (line 219), before the second (line 227), before
    [Ticket.create] (line 144), or returned.  No transaction spans
    these calls. *)
Inductive Flight : Type :=
| AtCheck (company : Z)
| AtFind (ty : TicketType) (company : Z)
| AtFallback (company : Z)
| AtCreate (ty : TicketType) (company : Z) (assignee : User)
| Landed (result : Eff.outcome exn TicketResponseDto).

(** The role [findAssignee] looks up first. *)
Definition primary_role (ty : TicketType) : UserRole :=
  match ty with
  | managementReport => accountant
  | registrationAddressChange => corporateSecretary
  | strikeOff => director
  end.

(** [findAssignee] after its last lookup (lines 233-250), and on to
    [Ticket.create]. *)
Definition choose (ty : TicketType) (company : Z) (userRole : UserRole)
    (assignees : list User) : Flight :=
  match assignees with
  | [] =>
      Landed (Throw (ConflictException
                       ("Cannot find user with role " ++ UserRole_value userRole
                        ++ " to create a ticket")))
  | first :: others =>
      if (UserRole_eqb userRole corporateSecretary || UserRole_eqb userRole director)
         && (1 <? List.length assignees)%nat
      then Landed (Throw (ConflictException
                            ("Multiple users with role " ++ UserRole_value userRole
                             ++ ". Cannot create a ticket")))
      else AtCreate ty company first
  end.

(** The call as it is made: the first [await] is the duplicate check
    for an address change, the lookup of the assignee otherwise. *)
Definition start (ty : TicketType) (company : Z) : Flight :=
  if TicketType_eqb ty registrationAddressChange then AtCheck company
  else AtFind ty company.

(** The store call the flight waits for, and the code up to the next
    [await]. *)
Definition step (f : Flight) (db : Db) : Flight * Db :=
  match f with
  | AtCheck company =>
      match Ticket_findOne company registrationAddressChange open db with
      | (Ret (Some _), db') =>
          (Landed (Throw (ConflictException
             "A registration address change ticket already exists for this company.")),
           db')
      | (Ret None, db') => (AtFind registrationAddressChange company, db')
      | (Throw e, db') => (Landed (Throw e), db')
      end
  | AtFind ty company =>
      match User_findAll company (primary_role ty) db with
      | (Ret assignees, db') =>
          if TicketType_eqb ty registrationAddressChange
             && (List.length assignees =? 0)%nat
          then (AtFallback company, db')
          else (choose ty company (primary_role ty) assignees, db')
      | (Throw e, db') => (Landed (Throw e), db')
      end
  | AtFallback company =>
      match User_findAll company director db with
      | (Ret assignees, db') =>
          (choose registrationAddressChange company director assignees, db')
      | (Throw e, db') => (Landed (Throw e), db')
      end
  | AtCreate ty company assignee =>
      match Ticket_create company (user_id assignee) (determineTicketCategory ty)
              ty open db with
      | (Ret ticket, db') => (Landed (Ret (mapTicketToDto ticket)), db')
      | (Throw e, db') => (Landed (Throw e), db')
      end
  | Landed result => (Landed result, db)
  end.

(** Two calls in flight: both reach their second [await] before
    either goes on. *)
Definition both_check_first : list nat := [0; 1; 0; 0; 0; 1; 1; 1]%nat.

End TicketsSteps.

(** ** The ticket endpoints: [src/tickets/tickets.controller.ts] *)
Module TicketsApi.

Import Eff EffNotations Tickets.

(** An exception with an HTTP status, as the controller throws it. *)
Inductive HttpException : Type :=
| HttpError (status : Z) (message : string).

(** [error.status] of what the service throws: a [ConflictException]
    carries 409, a plain [Error] has none. *)
Definition status_of_exn (e : exn) : option Z :=
  match e with
  | ConflictException _ => Some 409
  | Error _ => None
  end.

Section WithModels.

(** The row [Ticket.findAll({ include: [Company, User] })] gives for a
    ticket: the associations are declared in the models, which are not
    among the sources, so the joined row is a parameter; it is made
    from the ticket and the tables the service only reads. *)
Variable View : Type.
Variable joined : list User -> Ticket -> View.

(** [TicketsService.findAll]. *)
Definition findAll : Tickets.M (list View) :=
  fun db =>
    if find_fails db then (Throw (Error "storage failure"), db)
    else (Ret (map (joined (users db)) (tickets db)), db).

(** The application: the store and the entry ['all-tickets'] of the
    cache, an in-memory map whose calls do not fail (as the one of
    [src/cache/test/mock-cache.module.ts]). *)
Record App : Type := {
  store : Db;
  all_tickets : option (list View)
}.

Definition Handler (A : Type) : Type := Eff.M HttpException App A.

(** The body of [TicketsController.findAll]. *)
Definition findAll_handler : Handler (list View) :=
  fun app =>
    match findAll (store app) with
    | (Ret [], db') =>
        (Throw (HttpError 404 "No tickets found"),
         {| store := db'; all_tickets := all_tickets app |})
    | (Ret tickets, db') =>
        (Ret tickets, {| store := db'; all_tickets := all_tickets app |})
    | (Throw _, db') =>
        (Throw (HttpError 500 "Failed to retrieve tickets"),
         {| store := db'; all_tickets := all_tickets app |})
    end.

(** [@UseInterceptors(CacheInterceptor) @CacheKey('all-tickets')]: a
    cached response is returned without running the handler; a response
    the handler returns is cached; an exception is not. *)
Definition get_tickets : Handler (list View) :=
  fun app =>
    match all_tickets app with
    | Some cached => (Ret cached, app)
    | None =>
        match findAll_handler app with
        | (Ret response, app') =>
            (Ret response, {| store := store app'; all_tickets := Some response |})
        | (Throw e, app') => (Throw e, app')
        end
    end.

(** [TicketsController.create]: the ticket is created, then the cache
    entry is deleted; an error with a [status] is thrown again, any
    other becomes a 500. *)
Definition create (ty : TicketType) (company : Z) : Handler TicketResponseDto :=
  fun app =>
    match createTicket ty company (store app) with
    | (Ret result, db') => (Ret result, {| store := db'; all_tickets := None |})
    | (Throw error, db') =>
        (Throw match error, status_of_exn error with
               | ConflictException message, Some status => HttpError status message
               | _, _ => HttpError 500 "Failed to create ticket. Please try again later."
               end,
         {| store := db'; all_tickets := all_tickets app |})
    end.

(** What happens to the application, one thing after the other: a
    request to list, a request to create, each served to its end, or
    the expiry of the cache entry (its TTL is one hour).  Requests
    that overlap are those of [InFlight] below. *)
Inductive Request : Type :=
| GetTickets
| PostTicket (ty : TicketType) (company : Z)
| CacheExpiry.

Definition serve (app : App) (r : Request) : App :=
  match r with
  | GetTickets => snd (get_tickets app)
  | PostTicket ty company => snd (create ty company app)
  | CacheExpiry => {| store := store app; all_tickets := None |}
  end.

(** A request in flight.  For [GET] the interceptor looks the key up;
    on a miss the handler awaits the store (line 40), and when it has
    returned the interceptor stores the response.  For [POST] the
    handler awaits the service (line 89), then deletes the key
    (line 92).  The call of the service is taken as one step. *)
Inductive InFlight : Type :=
| GetLookup
| GetRead
| GetStore (response : list View)
| GetAnswered (response : Eff.outcome HttpException (list View))
| PostCreate (ty : TicketType) (company : Z)
| PostDelete (result : TicketResponseDto)
| PostAnswered (response : Eff.outcome HttpException TicketResponseDto).

Definition step_request (f : InFlight) (app : App) : InFlight * App :=
  match f with
  | GetLookup =>
      match all_tickets app with
      | Some cached => (GetAnswered (Ret cached), app)
      | None => (GetRead, app)
      end
  | GetRead =>
      match findAll_handler app with
      | (Ret response, app') => (GetStore response, app')
      | (Throw e, app') => (GetAnswered (Throw e), app')
      end
  | GetStore response =>
      (GetAnswered (Ret response),
       {| store := store app; all_tickets := Some response |})
  | PostCreate ty company =>
      match createTicket ty company (store app) with
      | (Ret result, db') =>
          (PostDelete result, {| store := db'; all_tickets := all_tickets app |})
      | (Throw error, db') =>
          (PostAnswered
             (Throw match error, status_of_exn error with
                    | ConflictException message, Some status => HttpError status message
                    | _, _ => HttpError 500 "Failed to create ticket. Please try again later."
                    end),
           {| store := db'; all_tickets := all_tickets app |})
      end
  | PostDelete result =>
      (PostAnswered (Ret result), {| store := store app; all_tickets := None |})
  | GetAnswered response => (GetAnswered response, app)
  | PostAnswered response => (PostAnswered response, app)
  end.

(** A [GET] and a [POST] in flight: the [GET] misses the cache and
    reads the store, the [POST] runs to its end, the [GET] goes on. *)
Definition post_within_get : list nat := [0; 0; 1; 1; 0]%nat.

End WithModels.

End TicketsApi.

(** * Vocabulary of the properties *)

(** ** The report pipeline *)
Module ReportsSpec.

Import JsNum JsObject Eff EffNotations Reports.

(** [m] leaves the service alone and issues the same calls with the
    same result whatever the state it starts in. *)
Definition logs_only {A} (m : M World A) : Prop :=
  exists (o : outcome A) (ops : list FsOp), forall w, m w = (o, log ops w).

(** The file-system part of each generator: everything in its [try]
    block up to and including the write. *)
Definition accounts_io (h : Host) : M World unit :=
  files <- do_readdir h "tmp" ;;
  accountBalances <- read_all h "tmp" (filter is_csv files) accounts_file [] ;;
  output <- lift (accounts_output accountBalances) ;;
  do_writeFile h "out/accounts.csv" (JsString.join newline output).

Definition yearly_io (h : Host) : M World unit :=
  files <- do_readdir h "tmp" ;;
  cashByYear <- read_all h "tmp" (filter is_yearly_input files) (yearly_file h) [] ;;
  output <- lift (yearly_output cashByYear) ;;
  do_writeFile h "out/yearly.csv" (JsString.join newline output).

Definition fs_io (h : Host) : M World unit :=
  files <- do_readdir h "tmp" ;;
  balances <- read_all h "tmp" (filter is_fs_input files) fs_file initial_balances ;;
  do_writeFile h "out/fs.csv" (JsString.join newline (fs_output balances)).

Definition report_io (h : Host) (r : ReportType) : M World unit :=
  match r with
  | ACCOUNTS => accounts_io h
  | YEARLY => yearly_io h
  | FINANCIAL_STATEMENTS => fs_io h
  end.

Definition report_timing (clk : RunClock) (r : ReportType) : Timing :=
  match r with
  | ACCOUNTS => clk_accounts clk
  | YEARLY => clk_yearly clk
  | FINANCIAL_STATEMENTS => clk_fs clk
  end.

(** [processTime]. *)
Definition elapsed (tm : Timing) : num := sub (t_end tm) (t_start tm).

(** The duration field of a report. *)
Definition field_of (r : ReportType) : ReportTimeMetrics -> num :=
  match r with
  | ACCOUNTS => rt_accounts
  | YEARLY => rt_yearly
  | FINANCIAL_STATEMENTS => rt_fs
  end.

Definition with_field_of (r : ReportType) : num -> ReportTimeMetrics -> ReportTimeMetrics :=
  match r with
  | ACCOUNTS => with_accounts
  | YEARLY => with_yearly
  | FINANCIAL_STATEMENTS => with_fs
  end.

(** The state a generator leaves when its file-system part returned
    ([succeeded]) and when it threw ([failed]). *)
Definition succeeded (r : ReportType) (tm : Timing) (w : World) : World :=
  set_metrics (track (field_of r) (with_field_of r) (elapsed tm))
    (set_states (fun o => set o (ReportType_value r)
                            (finished_in (elapsed tm) ++ " seconds")) w).

Definition failed (r : ReportType) (message : string) (w : World) : World :=
  set_states (fun o => set o (ReportType_value r) ("error: " ++ message)) w.

Definition conclude (r : ReportType) (tm : Timing) (x : outcome unit * World)
    : outcome bool * World :=
  match x with
  | (Ret _, w) => (Ret true, succeeded r tm w)
  | (Throw e, w) => (Ret false, failed r e w)
  end.

(** A generator from its first [await] on, by report. *)
Definition rest (h : Host) (tm : Timing) (r : ReportType) : M World bool :=
  match r with
  | ACCOUNTS => accountsAsync_rest h tm
  | YEARLY => yearlyAsync_rest h tm
  | FINANCIAL_STATEMENTS => fsAsync_rest h tm
  end.

(** What a generator does before its first [await]. *)
Definition started (r : ReportType) (w : World) : World :=
  set_states (fun o => set o (ReportType_value r) "starting") w.

(** A generator from its call to its end. *)
Definition generator (h : Host) (tm : Timing) (r : ReportType) : M World bool :=
  match r with
  | ACCOUNTS => accountsAsync h tm
  | YEARLY => yearlyAsync h tm
  | FINANCIAL_STATEMENTS => fsAsync h tm
  end.

(** The status entry of a report and the metrics, as observed. *)
Definition status_of (w : World) (r : ReportType) : lookup string :=
  state (service w) (ReportType_value r).

Definition metrics_of (w : World) : ReportMetrics := getMetrics (service w).

Definition all_reports : list ReportType := [ACCOUNTS; YEARLY; FINANCIAL_STATEMENTS].

(** A service nothing has run on, with the default configuration. *)
Definition blank : World :=
  {| service := initial_service
                  {| reports_tmpDir := None; reports_outputDir := None;
                     reports_parallelProcessing := None |};
     trace := [] |}.

(** Whether the file-system part of a report returns or throws in the
    environment [h], and with which message. *)
Definition verdict (h : Host) (r : ReportType) : outcome unit :=
  fst (report_io h r blank).

(** The status a generator leaves behind. *)
Definition final_status (h : Host) (tm : Timing) (r : ReportType) : string :=
  match verdict h r with
  | Ret _ => finished_in (elapsed tm) ++ " seconds"
  | Throw e => "error: " ++ e
  end.

(** The state after the generators of [schedule] have finished, one
    after the other. *)
Fixpoint settled (h : Host) (clk : RunClock) (schedule : list ReportType)
    (w : World) : World :=
  match schedule with
  | [] => w
  | r :: rs => settled h clk rs (snd (generator_rest h clk r w))
  end.

(** The state when the three generators of a pipeline run are done. *)
Definition after_generators (h : Host) (clk : RunClock)
    (schedule : list ReportType) (w : World) : World :=
  if PARALLEL_PROCESSING (service w)
  then settled h clk schedule
         (started FINANCIAL_STATEMENTS (started YEARLY (started ACCOUNTS w)))
  else snd (generator h (clk_fs clk) FINANCIAL_STATEMENTS
         (snd (generator h (clk_yearly clk) YEARLY
            (snd (generator h (clk_accounts clk) ACCOUNTS w))))).

(** The part of the metrics no generator writes: the run counter, the
    time of the last run and the two totals. *)
Definition shared (m : ReportMetrics) : num * option Z * num * num :=
  (runs m, lastRun m, rt_total (lastRunTime m), rt_total (averageRunTime m)).

(** [totalTime]. *)
Definition total_time (clk : RunClock) : num := sub (run_end clk) (run_start clk).

(** *** The accounts report, as the specification words it *)

(** The account a line is booked on and the amount it adds. *)
Definition line_key (line : string) : string := prop_key (account (destructure line)).
Definition line_net (line : string) : num := net (destructure line).

Definition mem (k : string) (l : list string) : bool := existsb (String.eqb k) l.

(** The names of [l], each once, in the order first met. *)
Definition distinct (l : list string) : list string :=
  fold_left (fun seen k => if mem k seen then seen else (seen ++ [k])%list) l [].

(** The sum of (debit - credit) over the lines of account [a], added up
    in the order the lines are processed. *)
Definition account_sum (a : string) (lines : list string) : num :=
  fold_left (fun acc l => if String.eqb (line_key l) a then add acc (line_net l) else acc)
            lines zero.












(** *** Calls on the service *)

(** The synchronous generators, by report. *)
Definition sync (h : Host) (tm : Timing) (r : ReportType) : M World unit :=
  match r with
  | ACCOUNTS => accounts h tm
  | YEARLY => yearly h tm
  | FINANCIAL_STATEMENTS => fs h tm
  end.

(** The file-system part of the synchronous generators. *)
Definition sync_io (h : Host) (r : ReportType) : M World unit :=
  match r with
  | ACCOUNTS =>
      files <- do_readdir h "tmp" ;;
      accountBalances <- read_each h "tmp" (filter is_csv files) accounts_file [] ;;
      output <- lift (accounts_output accountBalances) ;;
      do_writeFile h "out/accounts.csv" (JsString.join newline output)
  | YEARLY =>
      files <- do_readdir h "tmp" ;;
      cashByYear <- read_each h "tmp" (filter is_yearly_input files) (yearly_file h) [] ;;
      output <- lift (yearly_output cashByYear) ;;
      do_writeFile h "out/yearly.csv" (JsString.join newline output)
  | FINANCIAL_STATEMENTS =>
      files <- do_readdir h "tmp" ;;
      balances <- read_each h "tmp" (filter is_fs_input files) fs_file initial_balances ;;
      do_writeFile h "out/fs.csv" (JsString.join newline (fs_output balances))
  end.

(** The state a synchronous generator leaves when it returns. *)
Definition sync_finished (r : ReportType) (tm : Timing) (w : World) : World :=
  set_states (fun o => set o (ReportType_value r) (finished_in (elapsed tm))) w.

(** What a client can call. *)
Inductive Call : Type :=
| CallPipeline (h : Host) (clk : RunClock) (schedule : list ReportType)
| CallAsync (h : Host) (tm : Timing) (r : ReportType)
| CallSync (h : Host) (tm : Timing) (r : ReportType).

Definition perform (w : World) (c : Call) : World :=
  match c with
  | CallPipeline h clk schedule => snd (processReportsAsync h clk schedule w)
  | CallAsync h tm r => snd (generator h tm r w)
  | CallSync h tm r => snd (sync h tm r w)
  end.

(** The state after a sequence of calls on a new service. *)
Definition after (h : Host) (config : ConfigService) (calls : list Call) : World :=
  fold_left perform calls (new_ReportsService h config).

(** The own keys of the status object. *)
Definition report_names : list string := map ReportType_value all_reports.

(** The status object has the three report names as its own keys. *)
Definition keys_ok (w : World) : Prop :=
  map fst (states (service w)) = report_names.

(** The configuration of the integration test, and one with
    directories of its own. *)
Definition default_config : ConfigService :=
  {| reports_tmpDir := Some "tmp"; reports_outputDir := Some "out";
     reports_parallelProcessing := Some true |}.

Definition custom_config : ConfigService :=
  {| reports_tmpDir := Some "staging"; reports_outputDir := Some "reports";
     reports_parallelProcessing := Some true |}.

(** *** The shape of a status *)

(** [s] without the prefix, or without the suffix, [p]. *)
Fixpoint strip_prefix (p s : string) : option string :=
  match p, s with
  | EmptyString, _ => Some s
  | String a p', String b s' => if Ascii.eqb a b then strip_prefix p' s' else None
  | String _ _, EmptyString => None
  end.

Definition strip_suffix (p s : string) : option string :=
  match strip_prefix (JsString.rev_string p) (JsString.rev_string s) with
  | Some r => Some (JsString.rev_string r)
  | None => None
  end.

(** Seconds with two decimals: one digit or more, a point, two digits. *)
Definition two_decimals (s : string) : bool :=
  match rev (list_ascii_of_string s) with
  | c2 :: c1 :: point :: d :: ds =>
      JsString.is_digit c2 && JsString.is_digit c1 && Ascii.eqb point "."
      && forallb JsString.is_digit (d :: ds)
  | _ => false
  end.

Definition finished_shape (s : string) : bool :=
  match strip_prefix "finished in " s with
  | Some r =>
      match strip_suffix " seconds" r with
      | Some seconds => two_decimals seconds
      | None => false
      end
  | None => false
  end.

(** ['idle'], ['starting'], ['finished in <seconds> seconds'] or
    ['error: <message>']. *)
Definition status_shape (s : string) : bool :=
  String.eqb s "idle" || String.eqb s "starting"
  || finished_shape s || JsString.startsWith s "error: ".

(** Every report has a status of one of the four shapes. *)
Definition shape_ok (w : World) : Prop :=
  forall r, exists s, status_of w r = Own s /\ status_shape s = true.

(** A duration that [toFixed(2)] prints with two decimals: a zero, or
    positive, finite and below 10^21. *)
Definition plausible (x : num) : bool :=
  match x with
  | S754_zero _ => true
  | S754_finite false m e => floor_abs m e <? 10 ^ 21
  | _ => false
  end.

Definition plausible_timing (tm : Timing) : Prop :=
  plausible (div (elapsed tm) thousand) = true.

(** A call of an asynchronous method with such durations. *)
Definition plausible_async (c : Call) : Prop :=
  match c with
  | CallPipeline h clk schedule =>
      plausible_timing (clk_accounts clk) /\ plausible_timing (clk_yearly clk)
      /\ plausible_timing (clk_fs clk)
  | CallAsync h tm r => plausible_timing tm
  | CallSync h tm r => False
  end.

(** The files a generator takes from a listing and the file it writes. *)
Definition input_filter (r : ReportType) : string -> bool :=
  match r with
  | ACCOUNTS => is_csv
  | YEARLY => is_yearly_input
  | FINANCIAL_STATEMENTS => is_fs_input
  end.

Definition output_file (r : ReportType) : string :=
  match r with
  | ACCOUNTS => "out/accounts.csv"
  | YEARLY => "out/yearly.csv"
  | FINANCIAL_STATEMENTS => "out/fs.csv"
  end.

(** *** Sample environments *)

(** The file of the integration test. *)
Definition test_csv : string :=
  JsString.join newline
    ["2024-01-01,Cash,,1000,0"; "2024-01-02,Sales Revenue,,0,500";
     "2024-01-03,Cost of Goods Sold,,200,0"].

(** The year of an ISO date in a process that runs in UTC. *)
Definition utc_year (date : string) : option Z :=
  match digits date 0 0 with
  | (y, 4, _) => Some y
  | _ => None
  end.

(** A staging directory [tmp] that holds [files] (name and content);
    every call succeeds, but a write to [readonly] is refused. *)
Definition host_with (files : list (string * string)) (readonly : string) : Host :=
  {| existsSync := fun _ => true;
     mkdirSync := fun _ => Ret tt;
     readdir := fun dir =>
       if String.eqb dir "tmp" then Ret (map fst files)
       else Throw ("ENOENT: no such file or directory, scandir '" ++ dir ++ "'");
     readFile := fun path =>
       match find (fun f => String.eqb path (path_join "tmp" (fst f))) files with
       | Some f => Ret (snd f)
       | None => Throw ("ENOENT: no such file or directory, open '" ++ path ++ "'")
       end;
     writeFile := fun path _ =>
       if String.eqb path readonly
       then Throw ("EACCES: permission denied, open '" ++ path ++ "'")
       else Ret tt;
     latency := fun _ => 0%nat;
     getFullYear := utc_year |}.

Definition sample_timing : Timing := {| t_start := ofZ 100; t_end := ofZ 350 |}.

Definition sample_clock : RunClock :=
  {| run_start := ofZ 90; run_end := ofZ 400;
     clk_accounts := sample_timing; clk_yearly := sample_timing;
     clk_fs := sample_timing; run_date := 1749167700000 |}.

End ReportsSpec.

(** ** The ticket router *)
Module TicketsSpec.

Import Eff Tickets.

(** The directors of a company. *)
Definition directors_of (db : Db) (company : Z) : list User :=
  filter (fun u => (user_companyId u =? company) && UserRole_eqb (role u) director)
         (users db).

(** The tickets of a company, and those of them that are open. *)
Definition tickets_of (db : Db) (company : Z) : list Ticket :=
  filter (fun t => companyId t =? company) (tickets db).

Definition open_tickets_of (db : Db) (company : Z) : list Ticket :=
  filter (fun t => TicketStatus_eqb (status t) open) (tickets_of db company).

(** What the bulk update of the strike-off does to an older ticket. *)
Definition resolve_for (company : Z) (t : Ticket) : Ticket :=
  if (companyId t =? company) && TicketStatus_eqb (status t) open
  then set_status resolved t else t.

(** A store in which no call fails. *)
Definition reliable (db : Db) : Prop :=
  find_fails db = false /\ create_fails db = false /\ update_fails db = false.

(** The identifier the store hands out next is not in use. *)
Definition fresh_id (db : Db) : Prop :=
  Forall (fun t => id t <> next_id db) (tickets db).

(** *** A sample store *)

Definition sample_users : list User :=
  [ {| user_id := 1; role := director; user_companyId := 1; createdAt := 10 |};
    {| user_id := 2; role := accountant; user_companyId := 1; createdAt := 11 |};
    {| user_id := 3; role := corporateSecretary; user_companyId := 1; createdAt := 12 |};
    {| user_id := 4; role := accountant; user_companyId := 2; createdAt := 13 |} ].

Definition sample_tickets : list Ticket :=
  [ {| id := 1; type := managementReport; companyId := 1; assigneeId := 2;
       status := open; category := accounting |};
    {| id := 2; type := registrationAddressChange; companyId := 1; assigneeId := 3;
       status := open; category := corporate |};
    {| id := 3; type := managementReport; companyId := 1; assigneeId := 2;
       status := resolved; category := accounting |};
    {| id := 4; type := managementReport; companyId := 2; assigneeId := 4;
       status := open; category := accounting |} ].

Definition sample_db : Db :=
  {| users := sample_users; tickets := sample_tickets; next_id := 5;
     find_fails := false; create_fails := false; update_fails := false |}.

End TicketsSpec.

(** ** More vocabulary for the ticket router *)
Module TicketsProps.

Import Eff Tickets TicketsSpec TicketsApi.

(** The users of a company that have a role. *)
Definition users_with (db : Db) (company : Z) (r : UserRole) : list User :=
  filter (fun u => (user_companyId u =? company) && UserRole_eqb (role u) r) (users db).

(** Every later element was created no later than the first. *)
Definition newest_at_head (l : list User) : Prop :=
  match l with
  | [] => True
  | a :: r => forall b, In b r -> createdAt b <= createdAt a
  end.

(** The roles a ticket of a type can be assigned to. *)
Definition allowed_role (ty : TicketType) (r : UserRole) : bool :=
  match ty, r with
  | managementReport, accountant => true
  | registrationAddressChange, corporateSecretary => true
  | registrationAddressChange, director => true
  | strikeOff, director => true
  | _, _ => false
  end.

(** The open address-change tickets of a company. *)
Definition is_open_change (company : Z) (t : Ticket) : bool :=
  (companyId t =? company) && TicketType_eqb (type t) registrationAddressChange
  && TicketStatus_eqb (status t) open.

Definition open_changes (db : Db) (company : Z) : list Ticket :=
  filter (is_open_change company) (tickets db).

(** No company has two open address-change tickets. *)
Definition one_open_change (db : Db) : Prop :=
  forall company, (List.length (open_changes db company) <= 1)%nat.


(** What a call of [createTicket] can do to a row that is there:
    nothing, or, for a strike-off, resolve a ticket of the company. *)
Definition touched (ty : TicketType) (company : Z) (f : Ticket -> Ticket) : Prop :=
  forall x, f x = x
            \/ (f x = set_status resolved x /\ ty = strikeOff /\ companyId x = company).

(** A store with a company 3 that has a director and no secretary, and
    a company 4 that has two secretaries. *)
Definition office_db : Db :=
  {| users :=
       [ {| user_id := 7; role := director; user_companyId := 3; createdAt := 20 |};
         {| user_id := 8; role := corporateSecretary; user_companyId := 4; createdAt := 21 |};
         {| user_id := 9; role := corporateSecretary; user_companyId := 4; createdAt := 22 |} ];
     tickets := []; next_id := 1;
     find_fails := false; create_fails := false; update_fails := false |}.

(** The store after a sequence of calls of [createTicket], each
    returned before the next is made.  Calls that overlap are those of
    [TicketsSteps]. *)
Definition after_requests (db : Db) (requests : list (TicketType * Z)) : Db :=
  fold_left (fun db r => snd (createTicket (fst r) (snd r) db)) requests db.

(** The cache entry, when there is one, is the current list. *)
Definition coherent {View} (joined : list User -> Ticket -> View) (app : App View) : Prop :=
  all_tickets View app = None
  \/ (tickets (store View app) <> []
      /\ all_tickets View app
         = Some (map (joined (users (store View app))) (tickets (store View app)))).

End TicketsProps.

(** ** More vocabulary for the reports *)
Module ReportsProps.

Import JsNum JsObject Eff EffNotations Reports ReportsSpec.

(** A line the yearly report counts: its account is ['Cash']. *)
Definition is_cash (line : string) : bool :=
  match account (destructure line) with
  | Some a => String.eqb a "Cash"
  | None => false
  end.

(** The year a line is booked on, as a property key. *)
Definition year_of (h : Host) (line : string) : string :=
  year_key (getFullYear h (date (destructure line))).

(** The cash lines as (year, amount), in the order processed. *)
Definition bookings (h : Host) (lines : list string) : list (string * num) :=
  map (fun l => (year_of h l, line_net l)) (filter is_cash lines).

(** The amounts booked on [k], added up in order the way the loops
    do: a sum that is [0] or [NaN] is put back to [0] first. *)
Definition tally (k : string) (ps : list (string * num)) : num :=
  fold_left (fun acc p =>
               if String.eqb (fst p) k
               then add (if truthy acc then acc else zero) (snd p)
               else acc)
            ps zero.

Definition year_sum (h : Host) (y : string) (lines : list string) : num :=
  tally y (bookings h lines).

(** The years of the cash lines, each once, in the order first met. *)
Definition years (h : Host) (lines : list string) : list string :=
  distinct (map fst (bookings h lines)).

(** Strictly ascending in code-unit order. *)
Fixpoint ascending (l : list string) : Prop :=
  match l with
  | a :: r =>
      match r with
      | b :: _ => JsString.ltb a b = true
      | [] => True
      end /\ ascending r
  | [] => True
  end.

(** A line without a comma. *)
Definition no_comma (line : string) : bool :=
  forallb (fun c => negb (Ascii.eqb c ",")) (list_ascii_of_string line).

(** Nothing but white space and line terminators. *)
Definition all_space (content : string) : bool :=
  forallb JsString.is_space (list_ascii_of_string content).

(** [m] answers [o] and issues the calls [ops], whatever the state. *)
Definition runs_as {A} (m : M World A) (o : outcome A) (ops : list FsOp) : Prop :=
  forall w, m w = (o, log ops w).

(** The contents of the files at [paths], in that order; the first
    read that fails ends it. *)
Definition contents_of (h : Host) (paths : list string) : outcome (list string) :=
  consume h (fun cs content => (cs ++ [content])%list) paths [].

(** The paths a generator reads, in the order of the listing. *)
Definition input_paths (r : ReportType) (files : list string) : list string :=
  map (path_join "tmp") (filter (input_filter r) files).

(** The text a generator makes of the contents of its input files. *)
Definition render (h : Host) (r : ReportType) (contents : list string) : outcome string :=
  match r with
  | ACCOUNTS =>
      match accounts_output (fold_left accounts_file contents []) with
      | Ret output => Ret (JsString.join newline output)
      | Throw e => Throw e
      end
  | YEARLY =>
      match yearly_output (fold_left (yearly_file h) contents []) with
      | Ret output => Ret (JsString.join newline output)
      | Throw e => Throw e
      end
  | FINANCIAL_STATEMENTS =>
      Ret (JsString.join newline
             (fs_output (fold_left fs_file contents initial_balances)))
  end.

(** The text made of the files at [paths], read in that order. *)
Definition rendered (h : Host) (r : ReportType) (paths : list string) : outcome string :=
  match contents_of h paths with
  | Ret contents => render h r contents
  | Throw e => Throw e
  end.

(** The writes among the calls: path and data. *)
Definition writes (ops : list FsOp) : list (string * string) :=
  flat_map (fun op => match op with WriteFile p d => [(p, d)] | _ => [] end) ops.

(** Reads issued together complete in the order issued. *)
Definition in_listing_order (h : Host) (r : ReportType) : Prop :=
  forall files, readdir h "tmp" = Ret files ->
                completion_order h (input_paths r files) = input_paths r files.

(** The pipeline runs among the calls and the date of the last one. *)
Definition is_pipeline (c : Call) : bool :=
  match c with CallPipeline _ _ _ => true | _ => false end.

Definition pipeline_calls (calls : list Call) : nat :=
  List.length (filter is_pipeline calls).

Definition last_run_date (calls : list Call) : option Z :=
  fold_left (fun d c => match c with
                        | CallPipeline _ clk _ => Some (run_date clk)
                        | _ => d
                        end)
            calls None.

(** The calls a generator may issue: list [tmp], read an entry of it
    whose name ends in [.csv], write one of the three reports. *)
Definition allowed (op : FsOp) : Prop :=
  match op with
  | Readdir dir => dir = "tmp"
  | ReadFile path => exists file, path = path_join "tmp" file /\ is_csv file = true
  | WriteFile path _ => In path (map output_file all_reports)
  | Mkdir _ => False
  end.


(** What a client can observe of the service: the status object and
    the metrics. *)
Definition board (w : World) : obj string * ReportMetrics :=
  (states (service w), metrics (service w)).

(** The start and the end of a generator, on the board. *)
Definition start_on (r : ReportType) (b : obj string * ReportMetrics)
    : obj string * ReportMetrics :=
  (set (fst b) (ReportType_value r) "starting", snd b).

Definition finish_on (h : Host) (tm : Timing) (r : ReportType)
    (b : obj string * ReportMetrics) : obj string * ReportMetrics :=
  match verdict h r with
  | Ret _ =>
      (set (fst b) (ReportType_value r) (finished_in (elapsed tm) ++ " seconds"),
       track (field_of r) (with_field_of r) (elapsed tm) (snd b))
  | Throw e => (set (fst b) (ReportType_value r) ("error: " ++ e), snd b)
  end.

(** The board after the three generators, each taken on its own. *)
Definition all_finished (h : Host) (clk : RunClock) (b : obj string * ReportMetrics)
    : obj string * ReportMetrics :=
  finish_on h (clk_fs clk) FINANCIAL_STATEMENTS
    (finish_on h (clk_yearly clk) YEARLY
       (finish_on h (clk_accounts clk) ACCOUNTS b)).

(** [reportsConfig]: the variables of the environment it reads. *)
Record Env : Type := {
  REPORTS_TMP_DIR : option string;
  REPORTS_OUTPUT_DIR : option string;
  REPORTS_PARALLEL_PROCESSING : option string
}.

(** [process.env.X || fallback]: an unset or empty variable gives the
    fallback. *)
Definition env_or (value : option string) (fallback : string) : string :=
  match value with
  | Some (String c r) => String c r
  | _ => fallback
  end.

(** [process.env.X !== 'false']. *)
Definition env_is_not_false (value : option string) : bool :=
  match value with
  | Some s => negb (String.eqb s "false")
  | None => true
  end.

(** The factory registered as ['reports']. *)
Definition reportsConfig (env : Env) : ConfigService :=
  {| reports_tmpDir := Some (env_or (REPORTS_TMP_DIR env) "tmp");
     reports_outputDir := Some (env_or (REPORTS_OUTPUT_DIR env) "out");
     reports_parallelProcessing :=
       Some (env_is_not_false (REPORTS_PARALLEL_PROCESSING env)) |}.

(** The lines as (account, amount), in the order processed. *)
Definition postings (lines : list string) : list (string * num) :=
  map (fun l => (line_key l, line_net l)) lines.

(** A name that is an array index, and its value. *)
Definition is_index (k : string) : bool :=
  match index_of k with Some _ => true | None => false end.

Definition index_value (k : string) : Z :=
  match index_of k with Some i => i | None => 0 end.

(** Ascending by value. *)
Fixpoint numeric_ascending (l : list string) : Prop :=
  match l with
  | a :: r =>
      match r with
      | b :: _ => index_value a <= index_value b
      | [] => True
      end /\ numeric_ascending r
  | [] => True
  end.

End ReportsProps.

(** * Properties of the report pipeline *)

Section ReportGenerators.

Import JsNum JsObject Eff EffNotations Reports ReportsSpec.

(** ** Computations that only talk to the file system *)

Lemma log_nil (w : World) : log [] w = w.
Proof. destruct w as [s t]. unfold log. simpl. now rewrite app_nil_r. Qed.

Lemma log_log (a b : list FsOp) (w : World) :
  log b (log a w) = log (a ++ b)%list w.
Proof. unfold log. simpl. now rewrite app_assoc. Qed.

Lemma logs_only_ret {A} (a : A) : logs_only (ret a).
Proof. exists (Ret a), []. intros w. unfold ret. now rewrite log_nil. Qed.

Lemma logs_only_lift {A} (o : outcome A) : logs_only (lift o).
Proof. exists o, []. intros w. unfold lift. now rewrite log_nil. Qed.

Lemma logs_only_log (ops : list FsOp) : logs_only (modify (log ops)).
Proof. exists (Ret tt), ops. reflexivity. Qed.

Lemma logs_only_bind {A B} (m : M World A) (k : A -> M World B) :
  logs_only m -> (forall a, logs_only (k a)) -> logs_only (bind m k).
Proof.
  intros [o [ops Hm]] Hk. destruct o as [a | e].
  - destruct (Hk a) as [o' [ops' Hka]].
    exists o', (ops ++ ops')%list. intros w.
    unfold bind. rewrite Hm, Hka. now rewrite log_log.
  - exists (Throw e), ops. intros w. unfold bind. now rewrite Hm.
Qed.

Lemma logs_only_read_all {A} h dir files (step : A -> string -> A) init :
  logs_only (read_all h dir files step init).
Proof.
  unfold read_all. apply logs_only_bind.
  - apply logs_only_log.
  - intros _. apply logs_only_lift.
Qed.

Lemma logs_only_readdir h dir : logs_only (do_readdir h dir).
Proof.
  unfold do_readdir. apply logs_only_bind;
    [apply logs_only_log | intros _; apply logs_only_lift].
Qed.

Lemma logs_only_writeFile h path data : logs_only (do_writeFile h path data).
Proof.
  unfold do_writeFile. apply logs_only_bind;
    [apply logs_only_log | intros _; apply logs_only_lift].
Qed.

Lemma logs_only_report_io h r : logs_only (report_io h r).
Proof.
  destruct r; cbn [report_io]; unfold accounts_io, yearly_io, fs_io;
    repeat first
      [ apply logs_only_readdir | apply logs_only_read_all
      | apply logs_only_writeFile | apply logs_only_lift
      | apply logs_only_bind | intro ].
Qed.

(** ** The two ways a generator ends *)

Lemma rest_conclude h tm r w :
  rest h tm r w = conclude r tm (report_io h r w).
Proof.
  destruct r; cbn [rest report_io];
    unfold accountsAsync_rest, yearlyAsync_rest, fsAsync_rest,
           accounts_io, yearly_io, fs_io, conclude, succeeded, failed,
           elapsed, try_catch, bind, set_state, modify, ret;
    repeat match goal with
           | |- context [do_readdir ?a ?b ?c] =>
               destruct (do_readdir a b c) as [[?|?] ?]
           | |- context [@read_all ?T ?a ?b ?c ?d ?e ?f] =>
               destruct (@read_all T a b c d e f) as [[?|?] ?]
           | |- context [@lift ?E ?S ?T ?a ?b] =>
               destruct (@lift E S T a b) as [[?|?] ?]
           | |- context [do_writeFile ?a ?b ?c ?d] =>
               destruct (do_writeFile a b c d) as [[?|?] ?]
           end; reflexivity.
Qed.

Lemma generator_rest_is_rest h clk r :
  generator_rest h clk r = rest h (report_timing clk r) r.
Proof. destruct r; reflexivity. Qed.

Lemma generator_is_start_rest h tm r w :
  generator h tm r w = rest h tm r (started r w).
Proof. destruct r; reflexivity. Qed.

(** A generator ends in one of two ways, fixed by the environment:
    the calls it issues and whether they succeed do not depend on the
    state of the service. *)
Lemma rest_cases h r :
  exists (o : outcome unit) (ops : list FsOp),
    forall tm w, rest h tm r w = conclude r tm (o, log ops w).
Proof.
  destruct (logs_only_report_io h r) as [o [ops H]].
  exists o, ops. intros tm w. now rewrite rest_conclude, H.
Qed.

(** ** Reading and writing the status object *)

Lemma get_own_replace_same {V} k (v : V) o :
  get_own k o <> None -> get_own k (replace k v o) = Some v.
Proof.
  induction o as [| [k' v'] o IH]; simpl; [congruence |].
  destruct (String.eqb k k') eqn:E; simpl; rewrite E; auto.
Qed.

Lemma get_own_replace_other {V} k k' (v : V) o :
  k' <> k -> get_own k' (replace k v o) = get_own k' o.
Proof.
  intros Hne. induction o as [| [k0 v0] o IH]; simpl; [reflexivity |].
  destruct (String.eqb k k0) eqn:E; simpl.
  - apply String.eqb_eq in E. subst k0.
    destruct (String.eqb k' k) eqn:E'; [apply String.eqb_eq in E'; congruence | reflexivity].
  - destruct (String.eqb k' k0); auto.
Qed.

Lemma get_own_app_same {V} k (v : V) o :
  get_own k o = None -> get_own k (o ++ [(k, v)])%list = Some v.
Proof.
  induction o as [| [k' v'] o IH]; simpl.
  - now rewrite String.eqb_refl.
  - destruct (String.eqb k k'); [congruence | auto].
Qed.

Lemma get_own_app_other {V} k k' (v : V) o :
  k' <> k -> get_own k' (o ++ [(k, v)])%list = get_own k' o.
Proof.
  intros Hne. induction o as [| [k0 v0] o IH]; simpl.
  - destruct (String.eqb k' k) eqn:E; [apply String.eqb_eq in E; congruence | reflexivity].
  - destruct (String.eqb k' k0); auto.
Qed.

Lemma get_own_set_same {V} (o : obj V) k v :
  k <> proto_accessor -> get_own k (set o k v) = Some v.
Proof.
  intros Hk. unfold set, hasOwnProperty.
  destruct (get_own k o) eqn:E.
  - apply get_own_replace_same. congruence.
  - destruct (String.eqb k proto_accessor) eqn:E'.
    + apply String.eqb_eq in E'. congruence.
    + now apply get_own_app_same.
Qed.

Lemma get_own_set_other {V} (o : obj V) k k' v :
  k' <> k -> get_own k' (set o k v) = get_own k' o.
Proof.
  intros Hne. unfold set, hasOwnProperty.
  destruct (get_own k o).
  - now apply get_own_replace_other.
  - destruct (String.eqb k proto_accessor); [reflexivity |].
    now apply get_own_app_other.
Qed.

Lemma get_set_same {V} (o : obj V) k v :
  k <> proto_accessor -> get (set o k v) k = Own v.
Proof. intros Hk. unfold get. now rewrite get_own_set_same. Qed.

Lemma get_set_other {V} (o : obj V) k k' v :
  k' <> k -> get (set o k v) k' = get o k'.
Proof. intros Hne. unfold get. now rewrite get_own_set_other. Qed.

Lemma ReportType_value_inj r r' :
  ReportType_value r = ReportType_value r' -> r = r'.
Proof. destruct r, r'; simpl; intros H; try reflexivity; discriminate H. Qed.

Lemma ReportType_value_not_proto r : ReportType_value r <> proto_accessor.
Proof. destruct r; discriminate. Qed.

Lemma status_started r w : status_of (started r w) r = Own "starting".
Proof. apply get_set_same, ReportType_value_not_proto. Qed.

Lemma status_succeeded r tm w :
  status_of (succeeded r tm w) r = Own (finished_in (elapsed tm) ++ " seconds").
Proof. apply get_set_same, ReportType_value_not_proto. Qed.

Lemma status_failed r e w : status_of (failed r e w) r = Own ("error: " ++ e).
Proof. apply get_set_same, ReportType_value_not_proto. Qed.

Lemma status_started_other r r' w :
  r' <> r -> status_of (started r w) r' = status_of w r'.
Proof.
  intros Hne. apply get_set_other. intros H. now apply ReportType_value_inj in H.
Qed.

Lemma status_succeeded_other r r' tm w :
  r' <> r -> status_of (succeeded r tm w) r' = status_of w r'.
Proof.
  intros Hne. apply get_set_other. intros H. now apply ReportType_value_inj in H.
Qed.

Lemma status_failed_other r r' e w :
  r' <> r -> status_of (failed r e w) r' = status_of w r'.
Proof.
  intros Hne. apply get_set_other. intros H. now apply ReportType_value_inj in H.
Qed.

Lemma status_log ops w r : status_of (log ops w) r = status_of w r.
Proof. reflexivity. Qed.

(** ** Metrics *)

Lemma metrics_started r w : metrics_of (started r w) = metrics_of w.
Proof. reflexivity. Qed.

Lemma metrics_failed r e w : metrics_of (failed r e w) = metrics_of w.
Proof. reflexivity. Qed.

Lemma metrics_log ops w : metrics_of (log ops w) = metrics_of w.
Proof. reflexivity. Qed.

Lemma metrics_succeeded r tm w :
  metrics_of (succeeded r tm w) =
  track (field_of r) (with_field_of r) (elapsed tm) (metrics_of w).
Proof. reflexivity. Qed.

Lemma field_with_field r x t : field_of r (with_field_of r x t) = x.
Proof. destruct r; reflexivity. Qed.

Lemma total_with_field r x t : rt_total (with_field_of r x t) = rt_total t.
Proof. destruct r; reflexivity. Qed.

(** ** What one generator does to the state *)

Lemma report_io_verdict h r w :
  exists ops, report_io h r w = (verdict h r, log ops w).
Proof.
  destruct (logs_only_report_io h r) as [o [ops H]].
  exists ops. unfold verdict. now rewrite (H blank), (H w).
Qed.

Lemma rest_verdict h tm r w :
  exists ops,
    rest h tm r w =
    match verdict h r with
    | Ret _ => (Ret true, succeeded r tm (log ops w))
    | Throw e => (Ret false, failed r e (log ops w))
    end.
Proof.
  destruct (report_io_verdict h r w) as [ops H]. exists ops.
  rewrite rest_conclude, H. unfold conclude. now destruct (verdict h r).
Qed.

(** A generator never throws. *)
Lemma rest_returns h tm r w :
  fst (rest h tm r w) = Ret (match verdict h r with Ret _ => true | Throw _ => false end).
Proof.
  destruct (rest_verdict h tm r w) as [ops H]. rewrite H.
  now destruct (verdict h r).
Qed.

Lemma rest_status h tm r w :
  status_of (snd (rest h tm r w)) r = Own (final_status h tm r).
Proof.
  destruct (rest_verdict h tm r w) as [ops H]. rewrite H. unfold final_status.
  destruct (verdict h r); cbn [snd].
  - apply status_succeeded.
  - apply status_failed.
Qed.

Lemma rest_status_other h tm r r' w :
  r' <> r -> status_of (snd (rest h tm r w)) r' = status_of w r'.
Proof.
  intros Hne. destruct (rest_verdict h tm r w) as [ops H]. rewrite H.
  destruct (verdict h r); cbn [snd].
  - now rewrite status_succeeded_other, status_log.
  - now rewrite status_failed_other, status_log.
Qed.

Lemma rest_metrics h tm r w :
  metrics_of (snd (rest h tm r w)) =
  match verdict h r with
  | Ret _ => track (field_of r) (with_field_of r) (elapsed tm) (metrics_of w)
  | Throw _ => metrics_of w
  end.
Proof.
  destruct (rest_verdict h tm r w) as [ops H]. rewrite H.
  now destruct (verdict h r).
Qed.

Lemma rest_mode h tm r w :
  PARALLEL_PROCESSING (service (snd (rest h tm r w))) = PARALLEL_PROCESSING (service w).
Proof.
  destruct (rest_verdict h tm r w) as [ops H]. rewrite H.
  now destruct (verdict h r).
Qed.

Lemma rest_shared h tm r w :
  shared (metrics_of (snd (rest h tm r w))) = shared (metrics_of w).
Proof.
  rewrite rest_metrics. destruct (verdict h r); [| reflexivity].
  unfold shared, track. cbn [runs lastRun lastRunTime averageRunTime].
  now rewrite !total_with_field.
Qed.

Lemma generator_returns h tm r w :
  fst (generator h tm r w) = Ret (match verdict h r with Ret _ => true | Throw _ => false end).
Proof. rewrite generator_is_start_rest. apply rest_returns. Qed.

Lemma generator_status h tm r w :
  status_of (snd (generator h tm r w)) r = Own (final_status h tm r).
Proof. rewrite generator_is_start_rest. apply rest_status. Qed.

Lemma generator_status_other h tm r r' w :
  r' <> r -> status_of (snd (generator h tm r w)) r' = status_of w r'.
Proof.
  intros Hne. rewrite generator_is_start_rest, rest_status_other by assumption.
  now apply status_started_other.
Qed.

Lemma generator_metrics h tm r w :
  metrics_of (snd (generator h tm r w)) =
  match verdict h r with
  | Ret _ => track (field_of r) (with_field_of r) (elapsed tm) (metrics_of w)
  | Throw _ => metrics_of w
  end.
Proof. rewrite generator_is_start_rest, rest_metrics. reflexivity. Qed.

Lemma generator_shared h tm r w :
  shared (metrics_of (snd (generator h tm r w))) = shared (metrics_of w).
Proof. rewrite generator_is_start_rest, rest_shared. reflexivity. Qed.

(** ** The pipeline *)

Lemma rest_is_ret h tm r w :
  exists b, rest h tm r w = (Ret b, snd (rest h tm r w)).
Proof.
  destruct (rest_verdict h tm r w) as [ops H]. rewrite H.
  destruct (verdict h r); eexists; reflexivity.
Qed.

Lemma for_each_settled h clk schedule w :
  for_each schedule (fun r => generator_rest h clk r ;;; ret tt) w =
  (Ret tt, settled h clk schedule w).
Proof.
  revert w. induction schedule as [| r rs IH]; intros w; [reflexivity |].
  cbn [for_each settled]. unfold bind at 1. unfold bind at 1.
  rewrite generator_rest_is_rest.
  destruct (rest_is_ret h (report_timing clk r) r w) as [b Hb].
  rewrite Hb. cbn [snd]. unfold ret at 1. apply IH.
Qed.

Lemma generator_is_ret h tm r w :
  exists b, generator h tm r w = (Ret b, snd (generator h tm r w)).
Proof. rewrite generator_is_start_rest. apply rest_is_ret. Qed.

(** [processReportsAsync] always returns [true]: nothing in its [try]
    block throws. *)
Lemma pipeline_run h clk schedule w :
  processReportsAsync h clk schedule w =
  (Ret true,
   set_metrics (count_run (run_date clk))
     (set_metrics (track rt_total with_total (total_time clk))
        (after_generators h clk schedule w))).
Proof.
  unfold processReportsAsync, after_generators, try_catch.
  unfold bind at 1. unfold gets at 1.
  destruct (PARALLEL_PROCESSING (service w)).
  - unfold bind at 1. unfold parallel.
    unfold bind at 1. unfold accountsAsync_start, set_state, modify at 1.
    unfold bind at 1. unfold yearlyAsync_start, set_state, modify at 1.
    unfold bind at 1. unfold fsAsync_start, set_state, modify at 1.
    rewrite for_each_settled. reflexivity.
  - unfold bind at 1. unfold sequential.
    unfold bind at 1.
    destruct (generator_is_ret h (clk_accounts clk) ACCOUNTS w) as [b1 H1].
    cbn [generator] in H1. rewrite H1.
    unfold bind at 1.
    destruct (generator_is_ret h (clk_yearly clk) YEARLY
                (snd (accountsAsync h (clk_accounts clk) w))) as [b2 H2].
    cbn [generator] in H2. rewrite H2.
    unfold bind at 1.
    destruct (generator_is_ret h (clk_fs clk) FINANCIAL_STATEMENTS
                (snd (yearlyAsync h (clk_yearly clk)
                        (snd (accountsAsync h (clk_accounts clk) w))))) as [b3 H3].
    cbn [generator] in H3. rewrite H3.
    reflexivity.
Qed.

Lemma settled_shared h clk schedule w :
  shared (metrics_of (settled h clk schedule w)) = shared (metrics_of w).
Proof.
  revert w. induction schedule as [| r rs IH]; intros w; [reflexivity |].
  cbn [settled]. rewrite IH, generator_rest_is_rest. apply rest_shared.
Qed.

Lemma after_generators_shared h clk schedule w :
  shared (metrics_of (after_generators h clk schedule w)) = shared (metrics_of w).
Proof.
  unfold after_generators. destruct (PARALLEL_PROCESSING (service w)).
  - rewrite settled_shared. reflexivity.
  - now rewrite !generator_shared.
Qed.

Lemma settled_status_skipped h clk schedule w r :
  ~ In r schedule ->
  status_of (settled h clk schedule w) r = status_of w r.
Proof.
  revert w. induction schedule as [| r0 rs IH]; intros w Hnot; [reflexivity |].
  cbn [settled]. rewrite IH by (intros Hin; apply Hnot; now right).
  rewrite generator_rest_is_rest. apply rest_status_other.
  intros ->. apply Hnot. now left.
Qed.

Lemma ReportType_eq_dec (r r' : ReportType) : {r = r'} + {r <> r'}.
Proof. decide equality. Qed.

Lemma settled_status h clk schedule w r :
  In r schedule ->
  status_of (settled h clk schedule w) r =
  Own (final_status h (report_timing clk r) r).
Proof.
  revert w. induction schedule as [| r0 rs IH]; intros w Hin; [destruct Hin |].
  cbn [settled].
  destruct (in_dec ReportType_eq_dec r rs) as [Hrs | Hrs].
  - now apply IH.
  - destruct Hin as [-> | Hin]; [| contradiction].
    rewrite settled_status_skipped by assumption.
    rewrite generator_rest_is_rest. apply rest_status.
Qed.

Lemma after_generators_status h clk schedule w r :
  In r schedule ->
  status_of (after_generators h clk schedule w) r =
  Own (final_status h (report_timing clk r) r).
Proof.
  intros Hin. unfold after_generators.
  destruct (PARALLEL_PROCESSING (service w)).
  - now apply settled_status.
  - destruct r; cbn [report_timing].
    + rewrite !generator_status_other by discriminate. apply generator_status.
    + rewrite generator_status_other by discriminate. apply generator_status.
    + apply generator_status.
Qed.

(** ** The running averages *)

Lemma settled_metrics h clk schedule w :
  metrics_of (settled h clk schedule w) =
  fold_left (fun m r =>
               match verdict h r with
               | Ret _ => track (field_of r) (with_field_of r)
                            (elapsed (report_timing clk r)) m
               | Throw _ => m
               end)
            schedule (metrics_of w).
Proof.
  revert w. induction schedule as [| r rs IH]; intros w; [reflexivity |].
  cbn [settled fold_left]. now rewrite IH, generator_rest_is_rest, rest_metrics.
Qed.

Lemma permutations_of_three (l : list ReportType) :
  Permutation l all_reports ->
  l = [ACCOUNTS; YEARLY; FINANCIAL_STATEMENTS]
  \/ l = [ACCOUNTS; FINANCIAL_STATEMENTS; YEARLY]
  \/ l = [YEARLY; ACCOUNTS; FINANCIAL_STATEMENTS]
  \/ l = [YEARLY; FINANCIAL_STATEMENTS; ACCOUNTS]
  \/ l = [FINANCIAL_STATEMENTS; ACCOUNTS; YEARLY]
  \/ l = [FINANCIAL_STATEMENTS; YEARLY; ACCOUNTS].
Proof.
  intros Hperm.
  assert (Hnd : NoDup l).
  { apply (Permutation_NoDup (Permutation_sym Hperm)).
    unfold all_reports. repeat constructor; cbn; intuition discriminate. }
  pose proof (Permutation_length Hperm) as Hlen.
  destruct l as [| x [| y [| z [| t l]]]]; try discriminate Hlen.
  inversion Hnd as [| x' l' Hx Hnd']; subst.
  inversion Hnd' as [| y' l'' Hy _]; subst.
  cbn [In] in Hx, Hy.
  destruct x, y, z; tauto.
Qed.

(** The metrics after the generators of a pipeline run, each having
    run once. *)
Lemma after_generators_metrics h clk schedule w :
  Permutation schedule all_reports ->
  forall r,
    match verdict h r with
    | Ret _ =>
        field_of r (lastRunTime (metrics_of (after_generators h clk schedule w)))
        = elapsed (report_timing clk r)
        /\ field_of r (averageRunTime (metrics_of (after_generators h clk schedule w)))
           = div (add (mul (field_of r (averageRunTime (metrics_of w)))
                           (runs (metrics_of w)))
                      (elapsed (report_timing clk r)))
                 (add (runs (metrics_of w)) one)
    | Throw _ =>
        field_of r (lastRunTime (metrics_of (after_generators h clk schedule w)))
        = field_of r (lastRunTime (metrics_of w))
        /\ field_of r (averageRunTime (metrics_of (after_generators h clk schedule w)))
           = field_of r (averageRunTime (metrics_of w))
    end.
Proof.
  intros Hperm r.
  assert (Hm : metrics_of (after_generators h clk schedule w) =
               fold_left (fun m r =>
                            match verdict h r with
                            | Ret _ => track (field_of r) (with_field_of r)
                                         (elapsed (report_timing clk r)) m
                            | Throw _ => m
                            end)
                         schedule (metrics_of w)
               \/ metrics_of (after_generators h clk schedule w) =
                  fold_left (fun m r =>
                               match verdict h r with
                               | Ret _ => track (field_of r) (with_field_of r)
                                            (elapsed (report_timing clk r)) m
                               | Throw _ => m
                               end)
                            all_reports (metrics_of w)).
  { unfold after_generators. destruct (PARALLEL_PROCESSING (service w)).
    - left. now rewrite settled_metrics, !metrics_started.
    - right. now rewrite !generator_metrics. }
  assert (Hone : forall l, Permutation l all_reports ->
            match verdict h r with
            | Ret _ =>
                field_of r (lastRunTime
                  (fold_left (fun m r =>
                                match verdict h r with
                                | Ret _ => track (field_of r) (with_field_of r)
                                             (elapsed (report_timing clk r)) m
                                | Throw _ => m
                                end) l (metrics_of w)))
                = elapsed (report_timing clk r)
                /\ field_of r (averageRunTime
                     (fold_left (fun m r =>
                                   match verdict h r with
                                   | Ret _ => track (field_of r) (with_field_of r)
                                                (elapsed (report_timing clk r)) m
                                   | Throw _ => m
                                   end) l (metrics_of w)))
                   = div (add (mul (field_of r (averageRunTime (metrics_of w)))
                                   (runs (metrics_of w)))
                              (elapsed (report_timing clk r)))
                         (add (runs (metrics_of w)) one)
            | Throw _ =>
                field_of r (lastRunTime
                  (fold_left (fun m r =>
                                match verdict h r with
                                | Ret _ => track (field_of r) (with_field_of r)
                                             (elapsed (report_timing clk r)) m
                                | Throw _ => m
                                end) l (metrics_of w)))
                = field_of r (lastRunTime (metrics_of w))
                /\ field_of r (averageRunTime
                     (fold_left (fun m r =>
                                   match verdict h r with
                                   | Ret _ => track (field_of r) (with_field_of r)
                                                (elapsed (report_timing clk r)) m
                                   | Throw _ => m
                                   end) l (metrics_of w)))
                   = field_of r (averageRunTime (metrics_of w))
            end).
  { intros l Hl.
    destruct (permutations_of_three l Hl) as [-> | [-> | [-> | [-> | [-> | ->]]]]];
      cbn [fold_left];
      destruct r;
      destruct (verdict h ACCOUNTS), (verdict h YEARLY), (verdict h FINANCIAL_STATEMENTS);
      cbn [track lastRunTime averageRunTime runs lastRun with_accounts with_yearly
           with_fs rt_accounts rt_yearly rt_fs rt_total field_of with_field_of];
      split; reflexivity. }
  destruct Hm as [Hm | Hm]; rewrite Hm.
  - now apply Hone.
  - apply Hone. apply Permutation_refl.
Qed.

(** C1: every update of a duration metric sets the new average to
    [(oldAverage * runs + duration) / (runs + 1)], where [runs] is the
    run counter at the moment of the update.

    A generator called on its own ([accountsAsync], [yearlyAsync],
    [fsAsync]) never changes the counter, the time of the last run,
    the totals or the durations of the other reports.  When its
    file-system part returns, it returns [true] and sets its last-run
    duration to the duration of the call and its average by the rule,
    with the current counter; when its file-system part throws, it
    returns [false] and leaves the metrics as they are.

    A pipeline run adds one to the counter, once, stamps the time of
    the run and updates the total by the rule with the counter from
    before the run.  Each of its three generators having run once, in
    whatever order and mode, every report whose file-system part
    returns has its last-run duration set and its average updated by
    the rule, again with the counter from before the run, and every
    report whose file-system part throws keeps both. *)
Theorem running_average_rule (h : Host) :
  (forall r tm w,
     let w' := snd (generator h tm r w) in
     let d := sub (t_end tm) (t_start tm) in
     let n := runs (metrics_of w) in
     runs (metrics_of w') = n /\
     lastRun (metrics_of w') = lastRun (metrics_of w) /\
     rt_total (lastRunTime (metrics_of w')) = rt_total (lastRunTime (metrics_of w)) /\
     rt_total (averageRunTime (metrics_of w'))
       = rt_total (averageRunTime (metrics_of w)) /\
     (forall r', r' <> r ->
        field_of r' (lastRunTime (metrics_of w'))
          = field_of r' (lastRunTime (metrics_of w)) /\
        field_of r' (averageRunTime (metrics_of w'))
          = field_of r' (averageRunTime (metrics_of w))) /\
     match verdict h r with
     | Ret _ =>
         fst (generator h tm r w) = Ret true /\
         field_of r (lastRunTime (metrics_of w')) = d /\
         field_of r (averageRunTime (metrics_of w')) =
           div (add (mul (field_of r (averageRunTime (metrics_of w))) n) d)
               (add n one)
     | Throw _ =>
         fst (generator h tm r w) = Ret false /\
         metrics_of w' = metrics_of w
     end)
  /\
  (forall clk schedule w,
     let w' := snd (processReportsAsync h clk schedule w) in
     let d := sub (run_end clk) (run_start clk) in
     let n := runs (metrics_of w) in
     runs (metrics_of w') = add n one /\
     lastRun (metrics_of w') = Some (run_date clk) /\
     rt_total (lastRunTime (metrics_of w')) = d /\
     rt_total (averageRunTime (metrics_of w')) =
       div (add (mul (rt_total (averageRunTime (metrics_of w))) n) d)
           (add n one) /\
     (Permutation schedule all_reports ->
      forall r,
        let dr := sub (t_end (report_timing clk r)) (t_start (report_timing clk r)) in
        match verdict h r with
        | Ret _ =>
            field_of r (lastRunTime (metrics_of w')) = dr /\
            field_of r (averageRunTime (metrics_of w')) =
              div (add (mul (field_of r (averageRunTime (metrics_of w))) n) dr)
                  (add n one)
        | Throw _ =>
            field_of r (lastRunTime (metrics_of w'))
              = field_of r (lastRunTime (metrics_of w)) /\
            field_of r (averageRunTime (metrics_of w'))
              = field_of r (averageRunTime (metrics_of w))
        end)).
Proof.
  split.
  - intros r tm w. cbv zeta.
    rewrite generator_returns, generator_metrics.
    destruct (verdict h r).
    + unfold track. cbn [runs lastRun lastRunTime averageRunTime].
      rewrite !total_with_field, !field_with_field.
      repeat (split; [reflexivity |]).
      split; [| repeat split; reflexivity].
      intros r' Hne. destruct r, r'; try contradiction; split; reflexivity.
    + repeat (split; [reflexivity |]).
      split; [| split; reflexivity].
      intros r' Hne. split; reflexivity.
  - intros clk schedule w. cbv zeta.
    rewrite pipeline_run. cbn [snd].
    pose proof (after_generators_shared h clk schedule w) as Hs.
    unfold shared in Hs. injection Hs as Hruns _ _ Havg.
    pose proof (after_generators_metrics h clk schedule w) as Hfields.
    unfold metrics_of, getMetrics in *.
    cbn [set_metrics service metrics count_run track runs lastRun lastRunTime
         averageRunTime with_total rt_total].
    rewrite Hruns, Havg.
    repeat (split; [reflexivity |]).
    intros Hperm r. specialize (Hfields Hperm r). unfold elapsed in Hfields.
    destruct (verdict h r); destruct r; exact Hfields.
Qed.

(** A pipeline run on a new service in which the write of
    [out/accounts.csv] is refused, each report taking 250 ms, then a
    call of [yearlyAsync] on its own that takes 350 ms: the counter is
    1 after the run and stays 1; the average of the yearly report is
    250 after the run and (250 * 1 + 350) / (1 + 1) = 300 after the
    call; the accounts report keeps its average of 0. *)
Lemma running_average_rule_witness :
  let h := host_with [("test.csv", test_csv)] "out/accounts.csv" in
  let schedule := [YEARLY; FINANCIAL_STATEMENTS; ACCOUNTS] in
  let w1 := snd (processReportsAsync h sample_clock schedule blank) in
  let tm := {| t_start := ofZ 100; t_end := ofZ 450 |} in
  let w2 := snd (generator h tm YEARLY w1) in
  Permutation schedule all_reports /\
  runs (metrics_of w1) = one /\
  rt_yearly (lastRunTime (metrics_of w1)) = ofZ 250 /\
  rt_yearly (averageRunTime (metrics_of w1)) = ofZ 250 /\
  rt_accounts (averageRunTime (metrics_of w1)) = zero /\
  runs (metrics_of w2) = one /\
  rt_yearly (lastRunTime (metrics_of w2)) = ofZ 350 /\
  rt_yearly (averageRunTime (metrics_of w2)) = ofZ 300 /\
  rt_accounts (averageRunTime (metrics_of w2)) = zero.
Proof.
  cbv zeta.
  set (h := host_with [("test.csv", test_csv)] "out/accounts.csv").
  set (schedule := [YEARLY; FINANCIAL_STATEMENTS; ACCOUNTS]).
  set (tm := {| t_start := ofZ 100; t_end := ofZ 450 |}).
  assert (Hperm : Permutation schedule all_reports).
  { unfold schedule, all_reports.
    apply perm_trans with (l' := [YEARLY; ACCOUNTS; FINANCIAL_STATEMENTS]).
    - apply perm_skip, perm_swap.
    - apply perm_swap. }
  assert (Hy : verdict h YEARLY = Ret tt) by (vm_compute; reflexivity).
  assert (Ha : verdict h ACCOUNTS
               = Throw "EACCES: permission denied, open 'out/accounts.csv'")
    by (vm_compute; reflexivity).
  destruct (running_average_rule h) as [Hcall Hrun].
  destruct (Hrun sample_clock schedule blank) as [R1 [_ [_ [_ Hfields]]]].
  pose proof (Hfields Hperm YEARLY) as Fy. pose proof (Hfields Hperm ACCOUNTS) as Fa.
  cbv zeta in Fy, Fa. rewrite Hy in Fy. rewrite Ha in Fa.
  destruct Fy as [Fy1 Fy2]. destruct Fa as [_ Fa2].
  cbn [field_of] in Fy1, Fy2, Fa2.
  set (w1 := snd (processReportsAsync h sample_clock schedule blank)) in *.
  destruct (Hcall YEARLY tm w1) as [C1 [_ [_ [_ [Hother Hown]]]]].
  rewrite Hy in Hown. destruct Hown as [_ [C2 C3]].
  destruct (Hother ACCOUNTS ltac:(discriminate)) as [_ C4].
  cbn [field_of] in C2, C3, C4.
  split; [exact Hperm |].
  split; [rewrite R1; vm_compute; reflexivity |].
  split; [rewrite Fy1; vm_compute; reflexivity |].
  split; [rewrite Fy2; vm_compute; reflexivity |].
  split; [rewrite Fa2; vm_compute; reflexivity |].
  split; [rewrite C1, R1; vm_compute; reflexivity |].
  split; [rewrite C2; vm_compute; reflexivity |].
  split; [rewrite C3, Fy2, R1; vm_compute; reflexivity |].
  rewrite C4, Fa2. vm_compute. reflexivity.
Defined.

(** ** Failures of single reports *)

(** C4: in a pipeline run, a report whose file-system part throws the
    error [e] records ["error: " ++ e] in its own status entry and
    returns [false] instead of throwing; every report ends with the
    status it reaches when run alone, whatever happens to the others;
    and [processReportsAsync] returns [true], records the total
    duration, adds one to the run counter and stamps the time of the
    run. *)
Theorem report_failure_is_contained h clk schedule w :
  Permutation schedule all_reports ->
  let w' := snd (processReportsAsync h clk schedule w) in
  fst (processReportsAsync h clk schedule w) = Ret true /\
  rt_total (lastRunTime (metrics_of w')) = sub (run_end clk) (run_start clk) /\
  runs (metrics_of w') = add (runs (metrics_of w)) one /\
  lastRun (metrics_of w') = Some (run_date clk) /\
  forall r,
    status_of w' r = status_of (snd (generator h (report_timing clk r) r w)) r /\
    (forall e, verdict h r = Throw e ->
       fst (generator h (report_timing clk r) r w) = Ret false /\
       status_of w' r = Own ("error: " ++ e)) /\
    (forall u, verdict h r = Ret u ->
       fst (generator h (report_timing clk r) r w) = Ret true).
Proof.
  intros Hperm. cbv zeta. rewrite pipeline_run. cbn [fst snd].
  pose proof (after_generators_shared h clk schedule w) as Hs.
  unfold shared in Hs. injection Hs as Hruns _ _ _.
  split; [reflexivity |]. split; [reflexivity |].
  split; [unfold metrics_of, getMetrics in *; cbn; now rewrite Hruns |].
  split; [reflexivity |].
  intros r.
  assert (Hin : In r schedule).
  { apply (Permutation_in r (Permutation_sym Hperm)). destruct r; simpl; auto. }
  assert (Hst : status_of
                  (set_metrics (count_run (run_date clk))
                     (set_metrics (track rt_total with_total (total_time clk))
                        (after_generators h clk schedule w))) r
                = Own (final_status h (report_timing clk r) r)).
  { change (status_of (after_generators h clk schedule w) r
            = Own (final_status h (report_timing clk r) r)).
    now apply after_generators_status. }
  rewrite Hst, generator_status, generator_returns.
  split; [reflexivity |]. split.
  - intros e He. unfold final_status. rewrite He. now split.
  - intros u Hu. now rewrite Hu.
Qed.

(** In a run where the write of [out/accounts.csv] is refused, the
    accounts report ends in error while the two others finish. *)
Lemma report_failure_is_contained_witness :
  Permutation [YEARLY; FINANCIAL_STATEMENTS; ACCOUNTS] all_reports /\
  let h := host_with [("test.csv", test_csv)] "out/accounts.csv" in
  let run := processReportsAsync h sample_clock
               [YEARLY; FINANCIAL_STATEMENTS; ACCOUNTS] blank in
  fst run = Ret true /\
  status_of (snd run) ACCOUNTS =
    Own "error: EACCES: permission denied, open 'out/accounts.csv'" /\
  status_of (snd run) YEARLY = Own "finished in 0.25 seconds" /\
  status_of (snd run) FINANCIAL_STATEMENTS = Own "finished in 0.25 seconds".
Proof.
  assert (Hperm : Permutation [YEARLY; FINANCIAL_STATEMENTS; ACCOUNTS] all_reports).
  { unfold all_reports.
    apply perm_trans with (l' := [YEARLY; ACCOUNTS; FINANCIAL_STATEMENTS]).
    - apply perm_skip, perm_swap.
    - apply perm_swap. }
  split; [exact Hperm |].
  cbv zeta.
  destruct (report_failure_is_contained
              (host_with [("test.csv", test_csv)] "out/accounts.csv")
              sample_clock [YEARLY; FINANCIAL_STATEMENTS; ACCOUNTS] blank Hperm)
    as [Hret [_ [_ [_ Hr]]]].
  split; [exact Hret |].
  split; [| split].
  - destruct (Hr ACCOUNTS) as [_ [Herr _]].
    apply (Herr "EACCES: permission denied, open 'out/accounts.csv'").
    vm_compute. reflexivity.
  - destruct (Hr YEARLY) as [Hsame _]. rewrite Hsame. vm_compute. reflexivity.
  - destruct (Hr FINANCIAL_STATEMENTS) as [Hsame _]. rewrite Hsame.
    vm_compute. reflexivity.
Defined.

End ReportGenerators.

(** * The accounts report *)

Section AccountsReport.

Import JsNum JsObject Eff EffNotations Reports ReportsSpec.

(** ** One step of the loop on an account with a plain name *)

Lemma inherited_proto k : inherited k = false -> k <> proto_accessor.
Proof.
  unfold inherited. intros H ->. now rewrite String.eqb_refl in H.
Qed.

Lemma replace_replace {V} k (v v' : V) o :
  replace k v' (replace k v o) = replace k v' o.
Proof.
  induction o as [| [k0 v0] o IH]; simpl; [reflexivity |].
  destruct (String.eqb k k0) eqn:E; simpl; rewrite E; [reflexivity | now rewrite IH].
Qed.

Lemma replace_app_new {V} k (v v' : V) o :
  get_own k o = None -> replace k v' (o ++ [(k, v)])%list = (o ++ [(k, v')])%list.
Proof.
  induction o as [| [k0 v0] o IH]; simpl.
  - now rewrite String.eqb_refl.
  - destruct (String.eqb k k0); [discriminate | intros H; now rewrite IH].
Qed.

Lemma accumulate_new o k d :
  inherited k = false -> get_own k o = None ->
  accumulate o k d = (o ++ [(k, CNum (add zero d))])%list.
Proof.
  intros Hk Hnone. pose proof (inherited_proto k Hk) as Hp.
  assert (Hget : get o k = Undefined).
  { unfold get. now rewrite Hnone, Hk. }
  assert (Hset : set o k (CNum zero) = (o ++ [(k, CNum zero)])%list).
  { unfold set, hasOwnProperty. rewrite Hnone.
    destruct (String.eqb k proto_accessor) eqn:E; [| reflexivity].
    apply String.eqb_eq in E. contradiction. }
  pose proof (get_own_app_same k (CNum zero) o Hnone) as Hown.
  assert (Hget' : get (o ++ [(k, CNum zero)])%list k = Own (CNum zero)).
  { unfold get. now rewrite Hown. }
  unfold accumulate. cbv zeta. rewrite Hget. cbn [truthy_lookup].
  rewrite Hset, Hget'. cbn [plus]. unfold set, hasOwnProperty.
  rewrite Hown. now apply replace_app_new.
Qed.

Lemma accumulate_known o k d x :
  get_own k o = Some (CNum x) ->
  accumulate o k d = replace k (CNum (add (if truthy x then x else zero) d)) o.
Proof.
  intros Hsome.
  assert (Hget : get o k = Own (CNum x)).
  { unfold get. now rewrite Hsome. }
  unfold accumulate. cbv zeta. rewrite Hget. cbn [truthy_lookup].
  destruct (truthy x).
  - rewrite Hget. cbn [plus]. unfold set, hasOwnProperty. now rewrite Hsome.
  - assert (Hset : set o k (CNum zero) = replace k (CNum zero) o).
    { unfold set, hasOwnProperty. now rewrite Hsome. }
    assert (Hown : get_own k (replace k (CNum zero) o) = Some (CNum zero)).
    { apply get_own_replace_same. congruence. }
    rewrite Hset. unfold get. rewrite Hown. cbn [plus].
    unfold set, hasOwnProperty. rewrite Hown. apply replace_replace.
Qed.

(** ** Names in the order first met *)

Lemma mem_In k l : mem k l = true <-> In k l.
Proof.
  unfold mem. rewrite existsb_exists. split.
  - intros [x [Hin Heq]]. apply String.eqb_eq in Heq. now subst.
  - intros Hin. exists k. split; [assumption | apply String.eqb_refl].
Qed.

Lemma mem_app k l l' : mem k (l ++ l')%list = mem k l || mem k l'.
Proof. unfold mem. apply existsb_app. Qed.

Lemma distinct_snoc ks k :
  distinct (ks ++ [k])%list =
  if mem k (distinct ks) then distinct ks else (distinct ks ++ [k])%list.
Proof. unfold distinct. now rewrite fold_left_app. Qed.

Lemma mem_distinct k ks : mem k (distinct ks) = mem k ks.
Proof.
  induction ks as [| x ks IH] using rev_ind; [reflexivity |].
  rewrite distinct_snoc, mem_app.
  destruct (mem x (distinct ks)) eqn:E.
  - rewrite IH. cbn [mem existsb]. rewrite orb_false_r.
    destruct (String.eqb k x) eqn:Ekx; [| now rewrite orb_false_r].
    apply String.eqb_eq in Ekx. subst x. rewrite <- IH, E. reflexivity.
  - now rewrite mem_app, IH.
Qed.

Lemma NoDup_snoc {A} (l : list A) (x : A) :
  NoDup l -> ~ In x l -> NoDup (l ++ [x])%list.
Proof.
  induction l as [| a l IH]; intros Hnd Hnot; simpl.
  - constructor; [intros [] | constructor].
  - inversion Hnd as [| a' l' Ha Hl]; subst. constructor.
    + rewrite in_app_iff. intros [Hin | [Heq | []]]; [contradiction |].
      subst. apply Hnot. now left.
    + apply IH; [assumption |]. intros Hin. apply Hnot. now right.
Qed.

Lemma NoDup_distinct ks : NoDup (distinct ks).
Proof.
  induction ks as [| x ks IH] using rev_ind; [constructor |].
  rewrite distinct_snoc. destruct (mem x (distinct ks)) eqn:E; [assumption |].
  apply NoDup_snoc; [assumption |].
  intros Hin. apply mem_In in Hin. congruence.
Qed.

(** ** An object that holds one number per name *)

Lemma get_own_table (F : string -> cell) D k :
  get_own k (map (fun a => (a, F a)) D) = if mem k D then Some (F k) else None.
Proof.
  induction D as [| a D IH]; [reflexivity |].
  cbn [map get_own mem existsb]. destruct (String.eqb k a) eqn:E.
  - apply String.eqb_eq in E. now subst.
  - exact IH.
Qed.

Lemma replace_table (F : string -> cell) D k v :
  NoDup D ->
  replace k v (map (fun a => (a, F a)) D) =
  map (fun a => (a, if String.eqb a k then v else F a)) D.
Proof.
  induction D as [| a D IH]; intros Hnd; [reflexivity |].
  inversion Hnd as [| a' D' Ha HD]; subst.
  cbn [map replace]. destruct (String.eqb k a) eqn:E.
  - apply String.eqb_eq in E. subst a. rewrite String.eqb_refl. f_equal.
    apply map_ext_in. intros b Hb.
    destruct (String.eqb b k) eqn:Eb; [| reflexivity].
    apply String.eqb_eq in Eb. subst b. contradiction.
  - rewrite String.eqb_sym, E. f_equal. now apply IH.
Qed.

(** ** The loop over the lines *)


Lemma account_sum_snoc a ls x :
  account_sum a (ls ++ [x])%list =
  if String.eqb (line_key x) a
  then add (account_sum a ls) (line_net x)
  else account_sum a ls.
Proof. unfold account_sum. now rewrite fold_left_app. Qed.





(** ** The lines of the report *)




Lemma balance_lines_numbers callee (F : string -> num) D :
  balance_lines callee (map (fun k => (k, Own (CNum (F k)))) D) =
  Ret (map (fun k => k ++ "," ++ toFixed2 (F k)) D).
Proof.
  induction D as [| k D IH]; [reflexivity |].
  cbn [map balance_lines balance_line]. now rewrite IH.
Qed.


(** ** The balance is the sum *)








(** ** From the files to the lines *)



Lemma trace_log ops w : trace (log ops w) = (trace w ++ ops)%list.
Proof. reflexivity. Qed.








(** Why the names are to be plain: an account called [toString] finds
    the inherited method in [accountBalances], the balance becomes a
    text, [toFixed] fails and no report is written. *)
Example accounts_inherited_name :
  let lines := ["2024-01-01,Cash,,1000,0"; "2024-01-02,toString,,5,0"] in
  let h := host_with [("ledger.csv", JsString.join newline lines)] "" in
  let run := accountsAsync h sample_timing blank in
  fst run = Ret false /\
  status_of (snd run) ACCOUNTS = Own "error: balance.toFixed is not a function" /\
  trace (snd run) = [Readdir "tmp"; ReadFile "tmp/ledger.csv"].
Proof. cbv zeta. repeat split; vm_compute; reflexivity. Qed.

(** Why the sums are to be numbers: a balance that is NaN is falsy and
    is set to [0] before the next amount is added. *)
Example accounts_nan_is_reset :
  let lines := ["2024-01-01,Cash,,abc,0"; "2024-01-02,Cash,,5,0"] in
  isNaN (account_sum "Cash" lines) = true /\
  accounts_output (fold_left accounts_line lines []) =
    Ret ["Account,Balance"; "Cash,5.00"].
Proof. cbv zeta. split; vm_compute; reflexivity. Qed.

End AccountsReport.

(** * Missing and malformed fields *)

Section Fields.

Import JsNum JsObject Eff EffNotations Reports ReportsSpec.





End Fields.

(** * The ticket router *)

Section StrikeOff.

Import Eff EffNotations Tickets TicketsSpec.

Lemma insert_newest_length u l :
  List.length (insert_newest u l) = S (List.length l).
Proof.
  induction l as [| v l IH]; [reflexivity |].
  cbn [insert_newest]. destruct (createdAt v <=? createdAt u); cbn [List.length]; auto.
Qed.

Lemma newest_first_length l : List.length (newest_first l) = List.length l.
Proof.
  induction l as [| u l IH]; [reflexivity |].
  cbn [newest_first fold_right]. fold (newest_first l).
  now rewrite insert_newest_length, IH.
Qed.

Lemma rollback_nothing db :
  with_tickets (fun _ => tickets db) (next_id db) db = db.
Proof. now destruct db. Qed.

(** Whatever makes the strike-off fail, the tables are as before and
    the error is a [ConflictException]. *)
Lemma strikeOff_failure_rolls_back db company e db' :
  createTicket strikeOff company db = (Throw e, db') ->
  users db' = users db /\ tickets db' = tickets db /\
  exists message, e = ConflictException message.
Proof.
  unfold createTicket. cbn [TicketType_eqb].
  unfold createStrikeOffTicket, transaction, try_catch, bind, User_findAll,
    Ticket_create, Ticket_update_resolved, throw, ret.
  destruct (find_fails db).
  { intros H. injection H as <- <-. cbn. eauto. }
  destruct (newest_first _) as [| d1 [| d2 ds]].
  { intros H. injection H as <- <-. cbn. eauto. }
  2: { intros H. injection H as <- <-. cbn. eauto. }
  cbn [List.length Nat.ltb Nat.leb].
  destruct (create_fails db).
  { intros H. injection H as <- <-. cbn. eauto. }
  cbn [with_tickets update_fails].
  destruct (update_fails db).
  { intros H. injection H as <- <-. cbn. eauto. }
  intros H. discriminate H.
Qed.

(** C2: for a company that has no director or more than one,
    [createTicket] of type [strikeOff] throws a [ConflictException] and
    leaves the store as it was: no ticket is inserted and none is
    changed.  The whole sequence runs in one transaction: whenever it
    throws, the tables are as before. *)
Theorem strikeOff_without_sole_director db company :
  (List.length (directors_of db company) <> 1%nat ->
   exists message,
     createTicket strikeOff company db = (Throw (ConflictException message), db))
  /\
  (forall e db',
     createTicket strikeOff company db = (Throw e, db') ->
     users db' = users db /\ tickets db' = tickets db /\
     exists message, e = ConflictException message).
Proof.
  split; [| apply strikeOff_failure_rolls_back].
  intros Hlen. unfold createTicket. cbn [TicketType_eqb].
  unfold createStrikeOffTicket, transaction, try_catch, bind, User_findAll.
  destruct (find_fails db) eqn:Hfind.
  - eexists. unfold throw. cbn. now rewrite rollback_nothing.
  - fold (directors_of db company).
    pose proof (newest_first_length (directors_of db company)) as Hl.
    destruct (newest_first (directors_of db company)) as [| d1 [| d2 ds]] eqn:E.
    + eexists. unfold throw. cbn. now rewrite rollback_nothing.
    + cbn in Hl. congruence.
    + eexists. unfold throw. cbn. now rewrite rollback_nothing.
Qed.

(** Company 2 of the sample store has an accountant and no director. *)
Lemma strikeOff_without_sole_director_witness :
  List.length (directors_of sample_db 2) <> 1%nat /\
  exists message,
    createTicket strikeOff 2 sample_db = (Throw (ConflictException message), sample_db).
Proof.
  assert (H : List.length (directors_of sample_db 2) <> 1%nat)
    by (vm_compute; discriminate).
  split; [exact H |].
  exact (proj1 (strikeOff_without_sole_director sample_db 2) H).
Defined.

Lemma update_fresh company n l :
  Forall (fun t => id t <> n) l ->
  map (fun t => if (companyId t =? company) && TicketStatus_eqb (status t) open
                   && negb (id t =? n)
                then set_status resolved t else t) l
  = map (resolve_for company) l.
Proof.
  intros Hfresh. apply map_ext_in. intros t Ht. unfold resolve_for.
  rewrite Forall_forall in Hfresh. specialize (Hfresh t Ht).
  apply Z.eqb_neq in Hfresh. rewrite Hfresh. cbn [negb]. now rewrite andb_true_r.
Qed.

Lemma resolve_for_company company t :
  companyId (resolve_for company t) = companyId t.
Proof.
  unfold resolve_for.
  now destruct ((companyId t =? company) && TicketStatus_eqb (status t) open).
Qed.

Lemma filter_company_resolved company l :
  List.length (filter (fun t => companyId t =? company) (map (resolve_for company) l))
  = List.length (filter (fun t => companyId t =? company) l).
Proof.
  induction l as [| t l IH]; [reflexivity |].
  cbn [map filter]. rewrite resolve_for_company.
  destruct (companyId t =? company); cbn [List.length]; now rewrite IH.
Qed.

Lemma no_open_after_resolve company l :
  filter (fun t => TicketStatus_eqb (status t) open)
         (filter (fun t => companyId t =? company) (map (resolve_for company) l)) = [].
Proof.
  induction l as [| t l IH]; [reflexivity |].
  cbn [map filter]. rewrite resolve_for_company.
  destruct (companyId t =? company) eqn:Ec; [| exact IH].
  cbn [filter]. unfold resolve_for at 1. rewrite Ec. cbn [andb].
  destruct (status t) eqn:Es; cbn [TicketStatus_eqb set_status status]; try rewrite Es;
    cbn [TicketStatus_eqb]; exact IH.
Qed.

(** C3: for a company with exactly one director, on a store that does
    not fail and hands out an unused identifier, [createTicket] of type
    [strikeOff] returns a new open ticket of category [management]
    assigned to that director; the table then holds every older ticket,
    those of the company that were open now resolved and all others
    unchanged, followed by the new ticket; so each of the N tickets of
    the company that were open is resolved, the new ticket is the only
    open one of the company, and the company has exactly one ticket
    more. *)
Theorem strikeOff_with_sole_director db company d :
  reliable db ->
  fresh_id db ->
  directors_of db company = [d] ->
  let ticket :=
    {| id := next_id db; type := strikeOff; companyId := company;
       assigneeId := user_id d; status := open; category := management |} in
  exists db',
    createTicket strikeOff company db = (Ret ticket, db') /\
    users db' = users db /\
    tickets db' = (map (resolve_for company) (tickets db) ++ [ticket])%list /\
    (forall t, In t (open_tickets_of db company) ->
       In (set_status resolved t) (tickets db')) /\
    (forall t, In t (tickets db) -> companyId t <> company -> In t (tickets db')) /\
    open_tickets_of db' company = [ticket] /\
    List.length (tickets_of db' company) = S (List.length (tickets_of db company)).
Proof.
  intros [Hfind [Hcreate Hupdate]] Hfresh Hdir. cbv zeta.
  set (ticket := {| id := next_id db; type := strikeOff; companyId := company;
                    assigneeId := user_id d; status := open; category := management |}).
  exists (with_tickets (fun _ => (map (resolve_for company) (tickets db) ++ [ticket])%list)
            (next_id db + 1) db).
  assert (Hrun : createTicket strikeOff company db =
                 (Ret ticket,
                  with_tickets
                    (fun _ => (map (resolve_for company) (tickets db) ++ [ticket])%list)
                    (next_id db + 1) db)).
  { unfold createTicket. cbn [TicketType_eqb].
    unfold createStrikeOffTicket, transaction, try_catch, bind, User_findAll.
    rewrite Hfind. fold (directors_of db company). rewrite Hdir.
    cbn [newest_first fold_right insert_newest List.length Nat.ltb Nat.leb].
    unfold Ticket_create. rewrite Hcreate. fold ticket.
    unfold Ticket_update_resolved, with_tickets.
    cbn [update_fails users tickets next_id find_fails create_fails id].
    rewrite Hupdate. unfold ret, mapTicketToDto. cbn [fst snd].
    f_equal. f_equal.
    rewrite map_app. cbn [map]. f_equal.
    - apply update_fresh. exact Hfresh.
    - unfold ticket. cbn [companyId status id TicketStatus_eqb].
      rewrite !Z.eqb_refl. reflexivity. }
  split; [exact Hrun |]. split; [reflexivity |]. split; [reflexivity |].
  cbn [with_tickets tickets].
  repeat split.
  - intros t Ht. unfold open_tickets_of, tickets_of in Ht.
    apply filter_In in Ht as [Ht Hopen]. apply filter_In in Ht as [Ht Hco].
    apply in_or_app. left. apply in_map_iff. exists t. split; [| assumption].
    unfold resolve_for. now rewrite Hco, Hopen.
  - intros t Ht Hother. apply in_or_app. left. apply in_map_iff. exists t.
    split; [| assumption]. unfold resolve_for.
    apply Z.eqb_neq in Hother. now rewrite Hother.
  - unfold open_tickets_of, tickets_of. cbn [with_tickets tickets].
    rewrite !filter_app, no_open_after_resolve. cbn [filter companyId ticket].
    rewrite Z.eqb_refl. reflexivity.
  - unfold tickets_of. cbn [with_tickets tickets].
    rewrite filter_app, length_app, filter_company_resolved.
    cbn [filter companyId ticket]. rewrite Z.eqb_refl. cbn [List.length]. lia.
Qed.

(** Company 1 of the sample store: one director, two open tickets and
    a resolved one; company 2 has an open ticket of its own. *)
Lemma strikeOff_with_sole_director_witness :
  reliable sample_db /\
  fresh_id sample_db /\
  directors_of sample_db 1 =
    [ {| user_id := 1; role := director; user_companyId := 1; createdAt := 10 |} ] /\
  exists db',
    createTicket strikeOff 1 sample_db =
      (Ret {| id := 5; type := strikeOff; companyId := 1; assigneeId := 1;
              status := open; category := management |}, db') /\
    map (fun t => (id t, status t)) (tickets db') =
      [(1, resolved); (2, resolved); (3, resolved); (4, open); (5, open)].
Proof.
  assert (H1 : reliable sample_db) by (repeat split).
  assert (H2 : fresh_id sample_db) by (repeat constructor; discriminate).
  assert (H3 : directors_of sample_db 1 =
               [ {| user_id := 1; role := director; user_companyId := 1;
                    createdAt := 10 |} ]) by reflexivity.
  repeat (split; [assumption |]).
  destruct (strikeOff_with_sole_director sample_db 1 _ H1 H2 H3)
    as [db' [Hrun [_ [Htickets _]]]].
  exists db'. split; [exact Hrun |]. rewrite Htickets. reflexivity.
Defined.

End StrikeOff.

(** * The status object and the file-system calls *)

Section Service.

Import JsNum JsObject Eff EffNotations Reports ReportsSpec.

(** ** The synchronous generators *)

Lemma logs_only_read_each {A} h dir files (step : A -> string -> A) acc :
  logs_only (read_each h dir files step acc).
Proof.
  revert acc. induction files as [| f files IH]; intros acc; cbn [read_each].
  - apply logs_only_ret.
  - apply logs_only_bind; [apply logs_only_log | intros _].
    apply logs_only_bind; [apply logs_only_lift | intros content]. apply IH.
Qed.

Lemma logs_only_sync_io h r : logs_only (sync_io h r).
Proof.
  destruct r; cbn [sync_io];
    repeat first
      [ apply logs_only_readdir | apply logs_only_read_each
      | apply logs_only_writeFile | apply logs_only_lift
      | apply logs_only_bind | intro ].
Qed.

Lemma sync_conclude h tm r w :
  sync h tm r w =
  match sync_io h r (started r w) with
  | (Ret _, w') => (Ret tt, sync_finished r tm w')
  | (Throw e, w') => (Throw e, w')
  end.
Proof.
  destruct r; cbn [sync sync_io];
    unfold accounts, yearly, fs, sync_finished, started, elapsed,
           bind, set_state, modify, ret;
    cbn [ReportType_value];
    repeat match goal with
           | |- context [do_readdir ?a ?b ?c] =>
               destruct (do_readdir a b c) as [[?|?] ?]
           | |- context [@read_each ?T ?a ?b ?c ?d ?e ?f] =>
               destruct (@read_each T a b c d e f) as [[?|?] ?]
           | |- context [@lift ?E ?S ?T ?a ?b] =>
               destruct (@lift E S T a b) as [[?|?] ?]
           | |- context [do_writeFile ?a ?b ?c ?d] =>
               destruct (do_writeFile a b c d) as [[[]|?] ?]
           end; reflexivity.
Qed.

(** A synchronous generator either returns, with the status of a
    finished run, or throws and leaves the status at ['starting']. *)
Lemma sync_cases h tm r w :
  exists ops,
    snd (sync h tm r w) = sync_finished r tm (log ops (started r w))
    \/ snd (sync h tm r w) = log ops (started r w).
Proof.
  destruct (logs_only_sync_io h r) as [o [ops H]]. exists ops.
  rewrite sync_conclude, H. destruct o; [left | right]; reflexivity.
Qed.

(** ** The keys of the status object *)

Lemma map_fst_replace {V} k (v : V) o : map fst (replace k v o) = map fst o.
Proof.
  induction o as [| [k0 v0] o IH]; [reflexivity |].
  cbn [replace]. destruct (String.eqb k k0); cbn [map fst]; now rewrite ?IH.
Qed.

Lemma get_own_In {V} k (o : obj V) :
  In k (map fst o) -> exists v, get_own k o = Some v.
Proof.
  induction o as [| [k0 v0] o IH]; [intros [] |].
  cbn [map fst get_own]. destruct (String.eqb k k0) eqn:E; [eauto |].
  intros [-> | Hin]; [now rewrite String.eqb_refl in E | auto].
Qed.

Lemma get_own_not_In {V} k (o : obj V) :
  ~ In k (map fst o) -> get_own k o = None.
Proof.
  induction o as [| [k0 v0] o IH]; [reflexivity |].
  cbn [map fst get_own]. intros Hnot.
  destruct (String.eqb k k0) eqn:E.
  - apply String.eqb_eq in E. subst. exfalso. apply Hnot. now left.
  - apply IH. intros Hin. apply Hnot. now right.
Qed.

Lemma report_name_In r : In (ReportType_value r) report_names.
Proof. destruct r; cbn; auto. Qed.

Lemma keys_set_state r v w :
  keys_ok w -> keys_ok (set_states (fun o => set o (ReportType_value r) v) w).
Proof.
  unfold keys_ok. cbn [set_states service states]. intros Hk.
  unfold set, hasOwnProperty.
  destruct (get_own_In (ReportType_value r) (states (service w))) as [v0 Hv].
  { rewrite Hk. apply report_name_In. }
  now rewrite Hv, map_fst_replace.
Qed.

Lemma keys_started r w : keys_ok w -> keys_ok (started r w).
Proof. apply keys_set_state. Qed.

Lemma keys_succeeded r tm w : keys_ok w -> keys_ok (succeeded r tm w).
Proof.
  intros H. exact (keys_set_state r (finished_in (elapsed tm) ++ " seconds") w H).
Qed.

Lemma keys_failed r e w : keys_ok w -> keys_ok (failed r e w).
Proof. apply keys_set_state. Qed.

Lemma keys_sync_finished r tm w : keys_ok w -> keys_ok (sync_finished r tm w).
Proof. apply keys_set_state. Qed.

Lemma keys_log ops w : keys_ok w -> keys_ok (log ops w).
Proof. exact (fun H => H). Qed.

Lemma keys_rest h tm r w : keys_ok w -> keys_ok (snd (rest h tm r w)).
Proof.
  intros H. destruct (rest_verdict h tm r w) as [ops Hr]. rewrite Hr.
  destruct (verdict h r); cbn [snd].
  - now apply keys_succeeded, keys_log.
  - now apply keys_failed, keys_log.
Qed.

Lemma keys_generator h tm r w : keys_ok w -> keys_ok (snd (generator h tm r w)).
Proof.
  intros H. rewrite generator_is_start_rest. now apply keys_rest, keys_started.
Qed.

Lemma keys_settled h clk schedule w :
  keys_ok w -> keys_ok (settled h clk schedule w).
Proof.
  revert w. induction schedule as [| r rs IH]; intros w H; [assumption |].
  cbn [settled]. apply IH. rewrite generator_rest_is_rest. now apply keys_rest.
Qed.

Lemma keys_after_generators h clk schedule w :
  keys_ok w -> keys_ok (after_generators h clk schedule w).
Proof.
  intros H. unfold after_generators. destruct (PARALLEL_PROCESSING (service w)).
  - now apply keys_settled, keys_started, keys_started, keys_started.
  - now apply keys_generator, keys_generator, keys_generator.
Qed.

Lemma keys_perform w c : keys_ok w -> keys_ok (perform w c).
Proof.
  intros H. destruct c as [h clk schedule | h tm r | h tm r]; cbn [perform].
  - rewrite pipeline_run. cbn [snd].
    exact (keys_after_generators h clk schedule w H).
  - now apply keys_generator.
  - destruct (sync_cases h tm r w) as [ops [Hs | Hs]]; rewrite Hs.
    + now apply keys_sync_finished, keys_log, keys_started.
    + now apply keys_log, keys_started.
Qed.

(** The constructor only creates directories. *)
Lemma new_service_logs h config :
  exists ops,
    new_ReportsService h config = log ops {| service := initial_service config; trace := [] |}.
Proof.
  unfold new_ReportsService, ensureDirectoriesExist, try_catch, bind, gets,
    for_each, do_mkdir, bind, modify, lift, ret.
  cbn [service TMP_DIR OUTPUT_DIR initial_service].
  destruct (existsSync h (config_get (reports_tmpDir config) "tmp"));
    [| destruct (mkdirSync h (config_get (reports_tmpDir config) "tmp")) as [[] | e]];
    cbn [fst snd];
    try (destruct (existsSync h (config_get (reports_outputDir config) "out"));
         [| destruct (mkdirSync h (config_get (reports_outputDir config) "out"))
              as [[] | e']]);
    cbn [fst snd]; eexists; unfold log; cbn [trace service]; reflexivity.
Qed.

Lemma keys_new_service h config : keys_ok (new_ReportsService h config).
Proof.
  destruct (new_service_logs h config) as [ops H]. rewrite H. reflexivity.
Qed.

Lemma keys_after h config calls : keys_ok (after h config calls).
Proof.
  unfold after. generalize (keys_new_service h config).
  generalize (new_ReportsService h config).
  induction calls as [| c calls IH]; intros w H; [assumption |].
  cbn [fold_left]. apply IH. now apply keys_perform.
Qed.

(** ** Looking up a status *)

(** C10, amended: after any sequence of calls on a new service,
    [state(scope)] never throws; for each of the three report names it
    returns the current status string; for a scope that is neither a
    report name nor a property name of [Object.prototype] it returns
    [undefined]; for a property name of [Object.prototype] it returns
    what the object inherits under that name. *)
Theorem state_lookup h config calls :
  let s := service (after h config calls) in
  (forall r, exists status, state s (ReportType_value r) = Own status) /\
  (forall scope,
     ~ In scope report_names -> inherited scope = false ->
     state s scope = Undefined) /\
  (forall scope,
     ~ In scope report_names -> inherited scope = true ->
     state s scope = Inherited scope).
Proof.
  cbv zeta. pose proof (keys_after h config calls) as Hk. unfold keys_ok in Hk.
  unfold state, get. repeat split.
  - intros r.
    destruct (get_own_In (ReportType_value r) (states (service (after h config calls))))
      as [v Hv].
    { rewrite Hk. apply report_name_In. }
    exists v. now rewrite Hv.
  - intros scope Hnot Hinh. rewrite get_own_not_In by now rewrite Hk.
    now rewrite Hinh.
  - intros scope Hnot Hinh. rewrite get_own_not_In by now rewrite Hk.
    now rewrite Hinh.
Qed.

(** An unknown scope after a pipeline run. *)
Lemma state_lookup_witness :
  let h := host_with [("test.csv", test_csv)] "" in
  let s := service (after h default_config
                      [CallPipeline h sample_clock all_reports]) in
  ~ In "balance" report_names /\
  inherited "balance" = false /\
  state s "balance" = Undefined /\
  state s "accounts" = Own "finished in 0.25 seconds".
Proof.
  cbv zeta.
  assert (H1 : ~ In "balance" report_names).
  { cbn. intros [H | [H | [H | []]]]; discriminate H. }
  assert (H2 : inherited "balance" = false) by reflexivity.
  split; [exact H1 |]. split; [exact H2 |]. split.
  - exact (proj1 (proj2 (state_lookup
                           (host_with [("test.csv", test_csv)] "") default_config
                           [CallPipeline (host_with [("test.csv", test_csv)] "")
                              sample_clock all_reports]))
             "balance" H1 H2).
  - vm_compute. reflexivity.
Defined.

(** C10 as stated fails: ["toString"] is not a report name, and
    [state("toString")] is not [undefined] but the method every object
    inherits. *)
Lemma state_inherited_counterexample :
  ~ In "toString" report_names /\
  state (service blank) "toString" = Inherited "toString" /\
  state (service blank) "toString" <> Undefined.
Proof.
  repeat split.
  - cbn. intros [H | [H | [H | []]]]; discriminate H.
  - intros H. discriminate H.
Qed.

(** ** The shape of the status *)

Lemma initial_status h config r :
  status_of (new_ReportsService h config) r = Own "idle".
Proof.
  destruct (new_service_logs h config) as [ops H]. rewrite H.
  destruct r; reflexivity.
Qed.

(** C7 at its failing input: a new service has the status ['idle'] for
    each report, but the synchronous [accounts()] leaves the status
    ['finished in 0.25'], which lacks the [' seconds'] that
    [accountsAsync] appends and has none of the four shapes. *)
Theorem sync_status_lacks_seconds :
  (forall h config r, status_of (new_ReportsService h config) r = Own "idle") /\
  let h := host_with [("test.csv", test_csv)] "" in
  let w := new_ReportsService h default_config in
  status_of (perform w (CallSync h sample_timing ACCOUNTS)) ACCOUNTS
    = Own "finished in 0.25" /\
  status_shape "finished in 0.25" = false /\
  status_of (perform w (CallAsync h sample_timing ACCOUNTS)) ACCOUNTS
    = Own "finished in 0.25 seconds" /\
  status_shape "finished in 0.25 seconds" = true.
Proof.
  split; [exact initial_status |].
  cbv zeta. repeat split; vm_compute; reflexivity.
Qed.

(** ** The files a generator touches *)

Lemma trace_started r w : trace (started r w) = trace w.
Proof. reflexivity. Qed.

Lemma trace_conclude r tm x : trace (snd (conclude r tm x)) = trace (snd x).
Proof. destruct x as [[u | e] w]; reflexivity. Qed.

(** A generator lists [tmp], reads the entries its filter lets through
    and writes at most its own file under [out]. *)
Lemma generator_trace h tm r w :
  exists files tail,
    trace (snd (generator h tm r w)) =
      (trace w ++ Readdir "tmp"
         :: map ReadFile (map (path_join "tmp") (filter (input_filter r) files))
         ++ tail)%list
    /\ (tail = [] \/ exists data, tail = [WriteFile (output_file r) data]).
Proof.
  rewrite generator_is_start_rest, rest_conclude, trace_conclude.
  destruct r; cbn [report_io input_filter output_file];
    unfold accounts_io, yearly_io, fs_io, bind, do_readdir, read_all,
           do_writeFile, modify, lift, bind;
    (destruct (readdir h "tmp") as [files | e];
     [| exists [], []; cbn [snd filter map]; rewrite trace_log, trace_started;
        split; [reflexivity | now left]]);
    exists files;
    repeat match goal with
           | |- context [consume ?a ?b ?c ?d] =>
               destruct (consume a b c d) as [? | ?]
           | |- context [accounts_output ?a] =>
               destruct (accounts_output a) as [? | ?]
           | |- context [yearly_output ?a] =>
               destruct (yearly_output a) as [? | ?]
           | |- context [writeFile ?a ?b ?c] =>
               destruct (writeFile a b c) as [[] | ?]
           end;
    cbn [snd]; rewrite ?trace_log, trace_started;
    first
      [ exists []; split; [now rewrite <- ?app_assoc, ?app_nil_r | now left]
      | eexists [WriteFile _ _]; split;
        [now rewrite <- ?app_assoc | right; eexists; reflexivity] ].
Qed.

Lemma path_join_inj dir f f' : path_join dir f = path_join dir f' -> f = f'.
Proof.
  unfold path_join. induction dir as [| c dir IH]; cbn; intros H.
  - now injection H.
  - injection H as H. now apply IH.
Qed.

Lemma not_read h tm r s name :
  input_filter r name = false ->
  ~ In (ReadFile (path_join "tmp" name))
       (trace (snd (generator h tm r {| service := s; trace := [] |}))).
Proof.
  intros Hout Hin.
  destruct (generator_trace h tm r {| service := s; trace := [] |})
    as [files [tail [Htrace Htail]]].
  rewrite Htrace in Hin. cbn [trace app] in Hin.
  destruct Hin as [Hin | Hin]; [discriminate Hin |].
  apply in_app_or in Hin as [Hin | Hin].
  - apply in_map_iff in Hin as [p [Hp Hin]]. injection Hp as Hp. subst p.
    apply in_map_iff in Hin as [f [Hf Hin]].
    apply path_join_inj in Hf. subst f.
    apply filter_In in Hin as [_ Hin]. congruence.
  - destruct Htail as [-> | [data ->]]; [destruct Hin |].
    destruct Hin as [Hin | []]. discriminate Hin.
Qed.

(** C8: the yearly generator never reads [tmp/yearly.csv] and the
    financial-statement generator never reads [tmp/fs.csv], whatever
    the listing; the accounts generator has no such exclusion, and with
    a file [accounts.csv] in the staging directory it reads it. *)
Theorem own_output_exclusion :
  (forall h tm s,
     ~ In (ReadFile "tmp/yearly.csv")
          (trace (snd (yearlyAsync h tm {| service := s; trace := [] |})))) /\
  (forall h tm s,
     ~ In (ReadFile "tmp/fs.csv")
          (trace (snd (fsAsync h tm {| service := s; trace := [] |})))) /\
  let h := host_with [("accounts.csv", "Account,Balance"); ("test.csv", test_csv)] "" in
  trace (snd (accountsAsync h sample_timing blank)) =
    [Readdir "tmp"; ReadFile "tmp/accounts.csv"; ReadFile "tmp/test.csv";
     WriteFile "out/accounts.csv"
       (JsString.join newline
          ["Account,Balance"; "Balance,0.00"; "Cash,1000.00";
           "Sales Revenue,-500.00"; "Cost of Goods Sold,200.00"])].
Proof.
  split; [| split].
  - intros h tm s. exact (not_read h tm YEARLY s "yearly.csv" eq_refl).
  - intros h tm s. exact (not_read h tm FINANCIAL_STATEMENTS s "fs.csv" eq_refl).
  - vm_compute. reflexivity.
Qed.

(** C9: the constructor takes the two directories from the
    configuration, but every generator lists the literal [tmp] and
    writes to its literal file under [out], whatever the configuration:
    with the staging directory [staging] and the output directory
    [reports] configured, the accounts generator still lists [tmp] and
    writes [out/accounts.csv]. *)
Theorem generators_ignore_configuration :
  (forall h config,
     let s := service (new_ReportsService h config) in
     TMP_DIR s = config_get (reports_tmpDir config) "tmp" /\
     OUTPUT_DIR s = config_get (reports_outputDir config) "out") /\
  (forall h config tm r,
     let w := new_ReportsService h config in
     exists files tail,
       trace (snd (generator h tm r w)) =
         (trace w ++ Readdir "tmp"
            :: map ReadFile (map (path_join "tmp") (filter (input_filter r) files))
            ++ tail)%list
       /\ (tail = [] \/ exists data, tail = [WriteFile (output_file r) data])) /\
  let h := host_with [("test.csv", test_csv)] "" in
  let w := new_ReportsService h custom_config in
  TMP_DIR (service w) = "staging" /\
  OUTPUT_DIR (service w) = "reports" /\
  trace (snd (accountsAsync h sample_timing w)) =
    [Readdir "tmp"; ReadFile "tmp/test.csv";
     WriteFile "out/accounts.csv"
       (JsString.join newline
          ["Account,Balance"; "Cash,1000.00"; "Sales Revenue,-500.00";
           "Cost of Goods Sold,200.00"])].
Proof.
  split; [| split].
  - intros h config. cbv zeta.
    destruct (new_service_logs h config) as [ops H]. rewrite H. now split.
  - intros h config tm r. cbv zeta. apply generator_trace.
  - cbv zeta. repeat split; vm_compute; reflexivity.
Qed.

End Service.

(** * The shape of the status after asynchronous calls *)

Section StatusShape.

Import JsNum JsObject Eff EffNotations Reports ReportsSpec.

(** ** Strings *)

Lemma list_ascii_app a b :
  list_ascii_of_string (a ++ b) = (list_ascii_of_string a ++ list_ascii_of_string b)%list.
Proof. induction a as [| c a IH]; cbn; [reflexivity | now rewrite IH]. Qed.

Lemma string_of_list_app l l' :
  string_of_list_ascii (l ++ l')%list = string_of_list_ascii l ++ string_of_list_ascii l'.
Proof. induction l as [| c l IH]; cbn; [reflexivity | now rewrite IH]. Qed.

Lemma rev_string_app a b :
  JsString.rev_string (a ++ b) = JsString.rev_string b ++ JsString.rev_string a.
Proof.
  unfold JsString.rev_string.
  now rewrite list_ascii_app, rev_app_distr, string_of_list_app.
Qed.

Lemma rev_string_involutive s : JsString.rev_string (JsString.rev_string s) = s.
Proof.
  unfold JsString.rev_string.
  now rewrite list_ascii_of_string_of_list_ascii, rev_involutive,
    string_of_list_ascii_of_string.
Qed.

Lemma strip_prefix_app p s : strip_prefix p (p ++ s) = Some s.
Proof.
  induction p as [| c p IH]; cbn; [now destruct s |].
  now rewrite Ascii.eqb_refl.
Qed.

Lemma strip_suffix_app p s : strip_suffix p (s ++ p) = Some s.
Proof.
  unfold strip_suffix.
  now rewrite rev_string_app, strip_prefix_app, rev_string_involutive.
Qed.

Lemma append_assoc' a b c : (a ++ b) ++ c = a ++ (b ++ c).
Proof. induction a as [| x a IH]; cbn; [reflexivity | now rewrite IH]. Qed.

Lemma finished_shape_seconds seconds :
  finished_shape ("finished in " ++ seconds ++ " seconds") = two_decimals seconds.
Proof.
  unfold finished_shape. rewrite strip_prefix_app, strip_suffix_app. reflexivity.
Qed.

(** ** Digits *)

Lemma digits_of_uint d :
  forallb JsString.is_digit (list_ascii_of_string (NilEmpty.string_of_uint d)) = true.
Proof. induction d; cbn; auto. Qed.

Lemma of_N_digits n :
  exists c cs,
    list_ascii_of_string (JsString.of_N n) = c :: cs
    /\ forallb JsString.is_digit (c :: cs) = true.
Proof.
  unfold JsString.of_N, NilZero.string_of_uint.
  pose proof (digits_of_uint (N.to_uint n)) as H.
  destruct (N.to_uint n) as [| d | d | d | d | d | d | d | d | d | d];
    cbn in *; eauto.
Qed.

Lemma of_Z_nonneg z : 0 <= z -> JsString.of_Z z = JsString.of_N (Z.to_N z).
Proof. destruct z; [reflexivity | reflexivity | lia]. Qed.

Lemma of_Z_digit z :
  0 <= z < 10 ->
  exists c, JsString.of_Z z = String c EmptyString /\ JsString.is_digit c = true.
Proof.
  intros H.
  assert (Hz : z = 0 \/ z = 1 \/ z = 2 \/ z = 3 \/ z = 4 \/ z = 5 \/ z = 6
               \/ z = 7 \/ z = 8 \/ z = 9) by lia.
  repeat (destruct Hz as [-> | Hz]; [eexists; split; reflexivity |]).
  subst. eexists; split; reflexivity.
Qed.

Lemma forallb_rev {A} (f : A -> bool) l : forallb f (rev l) = forallb f l.
Proof.
  induction l as [| x l IH]; [reflexivity |].
  cbn [rev forallb]. rewrite forallb_app, IH. cbn. now rewrite andb_true_r, andb_comm.
Qed.

Lemma fixed2_two_decimals n : 0 <= n -> two_decimals (fixed2 n) = true.
Proof.
  intros Hn. unfold fixed2.
  pose proof (Z.mod_pos_bound n 100 ltac:(lia)) as H100.
  pose proof (Z.mod_pos_bound n 10 ltac:(lia)) as H10.
  destruct (of_Z_digit ((n mod 100) / 10)) as [c1 [H1 Hd1]].
  { split; [apply Z.div_pos; lia |]. apply Z.div_lt_upper_bound; lia. }
  destruct (of_Z_digit (n mod 10)) as [c2 [H2 Hd2]]; [lia |].
  rewrite H1, H2, of_Z_nonneg by (apply Z.div_pos; lia).
  destruct (of_N_digits (Z.to_N (n / 100))) as [c [cs [Hc Hds]]].
  unfold two_decimals. rewrite list_ascii_app, Hc. cbn [list_ascii_of_string append].
  rewrite rev_app_distr. cbn [rev app].
  rewrite <- forallb_rev in Hds. cbn [rev] in Hds.
  destruct (rev cs ++ [c])%list as [| d ds] eqn:E.
  - destruct (rev cs); discriminate E.
  - rewrite Hd1, Hd2, Hds. reflexivity.
Qed.

Lemma hundredths_nonneg m e : 0 <= hundredths m e.
Proof.
  unfold hundredths. destruct (0 <=? e) eqn:E.
  - apply Z.leb_le in E. apply Z.mul_nonneg_nonneg; [| lia].
    apply Z.mul_nonneg_nonneg; [lia |]. now apply Z.pow_nonneg.
  - apply Z.div_pos.
    + assert (0 <= 2 ^ (- e)) by (apply Z.pow_nonneg; lia). lia.
    + apply Z.pow_pos_nonneg; [lia |]. apply Z.leb_gt in E. lia.
Qed.

Lemma toFixed2_two_decimals x : plausible x = true -> two_decimals (toFixed2 x) = true.
Proof.
  destruct x as [s | s | | s m e]; cbn [plausible]; try discriminate.
  - reflexivity.
  - destruct s; [discriminate |]. intros H. cbn [toFixed2].
    apply Z.ltb_lt in H.
    assert (E : (10 ^ 21 <=? floor_abs m e) = false) by (apply Z.leb_gt; exact H).
    rewrite E. cbn [append]. apply fixed2_two_decimals, hundredths_nonneg.
Qed.

(** ** The four shapes *)

Lemma shape_finished tm :
  plausible_timing tm ->
  status_shape (finished_in (elapsed tm) ++ " seconds") = true.
Proof.
  intros H. unfold status_shape, finished_in.
  rewrite append_assoc', finished_shape_seconds, (toFixed2_two_decimals _ H).
  now rewrite orb_true_r.
Qed.

Lemma shape_error e : status_shape ("error: " ++ e) = true.
Proof.
  unfold status_shape.
  assert (H : JsString.startsWith ("error: " ++ e) "error: " = true).
  { unfold JsString.startsWith. cbn. now destruct e. }
  rewrite H. now rewrite !orb_true_r.
Qed.

Lemma shape_set r v w :
  status_shape v = true -> shape_ok w ->
  shape_ok (set_states (fun o => set o (ReportType_value r) v) w).
Proof.
  intros Hv Hw r'. destruct (ReportType_eq_dec r' r) as [-> | Hne].
  - exists v. split; [| assumption].
    apply get_set_same, ReportType_value_not_proto.
  - destruct (Hw r') as [s [Hs Hshape]]. exists s. split; [| assumption].
    rewrite <- Hs. apply get_set_other.
    intros H. now apply ReportType_value_inj in H.
Qed.

Lemma shape_rest h tm r w :
  plausible_timing tm -> shape_ok w -> shape_ok (snd (rest h tm r w)).
Proof.
  intros Htm Hw. destruct (rest_verdict h tm r w) as [ops Hr]. rewrite Hr.
  destruct (verdict h r); cbn [snd].
  - exact (shape_set r _ (log ops w) (shape_finished tm Htm) Hw).
  - exact (shape_set r _ (log ops w) (shape_error _) Hw).
Qed.

Lemma shape_started r w : shape_ok w -> shape_ok (started r w).
Proof. apply shape_set. reflexivity. Qed.

Lemma shape_generator h tm r w :
  plausible_timing tm -> shape_ok w -> shape_ok (snd (generator h tm r w)).
Proof.
  intros Htm Hw. rewrite generator_is_start_rest.
  now apply shape_rest, shape_started.
Qed.

Lemma shape_settled h clk schedule w :
  (forall r, plausible_timing (report_timing clk r)) ->
  shape_ok w -> shape_ok (settled h clk schedule w).
Proof.
  intros Hclk. revert w. induction schedule as [| r rs IH]; intros w Hw; [assumption |].
  cbn [settled]. apply IH. rewrite generator_rest_is_rest. now apply shape_rest.
Qed.

Lemma shape_perform w c :
  plausible_async c -> shape_ok w -> shape_ok (perform w c).
Proof.
  destruct c as [h clk schedule | h tm r | h tm r]; cbn [plausible_async perform].
  - intros [Ha [Hy Hf]] Hw. rewrite pipeline_run. cbn [snd].
    change (shape_ok (after_generators h clk schedule w)).
    unfold after_generators. destruct (PARALLEL_PROCESSING (service w)).
    + apply shape_settled; [intros []; assumption |].
      now apply shape_started, shape_started, shape_started.
    + now apply shape_generator, shape_generator, shape_generator.
  - intros Htm Hw. now apply shape_generator.
  - intros [].
Qed.

(** X23: on a new service, after any sequence of calls of the
    asynchronous methods ([processReportsAsync], [accountsAsync],
    [yearlyAsync], [fsAsync]) with durations that are zero or positive
    and below 10^21 seconds, every report has a status of one of the
    four shapes: ['idle'], ['starting'], ['finished in <digits>.<two
    digits> seconds'] or ['error: <message>']. *)
Lemma async_calls_keep_status_shape h config calls :
  Forall plausible_async calls -> shape_ok (after h config calls).
Proof.
  unfold after.
  assert (H0 : shape_ok (new_ReportsService h config)).
  { intros r. exists "idle". split; [apply initial_status | reflexivity]. }
  revert H0. generalize (new_ReportsService h config).
  induction calls as [| c calls IH]; intros w Hw Hcalls; [assumption |].
  inversion Hcalls as [| c' l' Hc Hl]; subst.
  cbn [fold_left]. apply IH; [| assumption]. now apply shape_perform.
Qed.

End StatusShape.

(** * Calls in flight: stepping *)
Section Stepping.

Variables Call State : Type.
Variable step : Call -> State -> Call * State.

Lemma interleave_cons i schedule flights (s : State) :
  Overlap.interleave step (i :: schedule) flights s =
  Overlap.interleave step schedule
    (fst (Overlap.advance step i flights s)) (snd (Overlap.advance step i flights s)).
Proof.
  unfold Overlap.interleave. cbn [fold_left fst snd].
  now destruct (Overlap.advance step i flights s).
Qed.

Lemma interleave_nil flights (s : State) :
  Overlap.interleave step [] flights s = (flights, s).
Proof. reflexivity. Qed.

Lemma advance_first f rest (s : State) :
  Overlap.advance step 0 (f :: rest) s = (fst (step f s) :: rest, snd (step f s)).
Proof. cbn [Overlap.advance]. now destruct (step f s). Qed.

Lemma advance_second f g rest (s : State) :
  Overlap.advance step 1 (f :: g :: rest) s
  = (f :: fst (step g s) :: rest, snd (step g s)).
Proof. cbn [Overlap.advance]. now destruct (step g s). Qed.

Lemma alone_step n f (s : State) :
  Overlap.alone step (S n) f s =
  Overlap.alone step n (fst (step f s)) (snd (step f s)).
Proof.
  unfold Overlap.alone. rewrite Nat.iter_succ_r. cbn [fst snd].
  now destruct (step f s).
Qed.

Lemma alone_zero f (s : State) : Overlap.alone step 0 f s = (f, s).
Proof. reflexivity. Qed.

Lemma interleave_first n schedule f rest (s : State) :
  Overlap.interleave step (repeat 0%nat n ++ schedule)%list (f :: rest) s =
  Overlap.interleave step schedule
    (fst (Overlap.alone step n f s) :: rest) (snd (Overlap.alone step n f s)).
Proof.
  revert f s. induction n as [| n IH]; intros f s; [reflexivity |].
  cbn [repeat app]. rewrite interleave_cons, advance_first. cbn [fst snd].
  now rewrite IH, alone_step.
Qed.

Lemma interleave_second n schedule f g rest (s : State) :
  Overlap.interleave step (repeat 1%nat n ++ schedule)%list (f :: g :: rest) s =
  Overlap.interleave step schedule
    (f :: fst (Overlap.alone step n g s) :: rest) (snd (Overlap.alone step n g s)).
Proof.
  revert g s. induction n as [| n IH]; intros g s; [reflexivity |].
  cbn [repeat app]. rewrite interleave_cons, advance_second. cbn [fst snd].
  now rewrite IH, alone_step.
Qed.

End Stepping.

(** * More on the ticket router *)

Section Assignees.

Import Eff EffNotations Tickets TicketsSpec TicketsApi TicketsProps.

(** ** The order of the candidates *)

Lemma In_insert_newest x u l : In x (insert_newest u l) <-> x = u \/ In x l.
Proof.
  induction l as [| v l IH]; cbn [insert_newest].
  - cbn. intuition.
  - destruct (createdAt v <=? createdAt u); cbn [In]; [intuition |].
    rewrite IH. intuition.
Qed.

Lemma In_newest_first x l : In x (newest_first l) <-> In x l.
Proof.
  induction l as [| u l IH]; [reflexivity |].
  cbn [newest_first fold_right]. fold (newest_first l).
  rewrite In_insert_newest, IH. cbn. intuition.
Qed.

Lemma insert_newest_sorted u l :
  (forall a r, l = a :: r -> forall b, In b r -> createdAt b <= createdAt a) ->
  newest_at_head l -> newest_at_head (insert_newest u l).
Proof.
  destruct l as [| v l]; intros _ H; cbn [insert_newest newest_at_head].
  - intros b [].
  - destruct (createdAt v <=? createdAt u) eqn:E; cbn [newest_at_head].
    + apply Z.leb_le in E. intros b [<- | Hb]; [assumption |].
      specialize (H b Hb). lia.
    + apply Z.leb_gt in E. intros b Hb.
      apply In_insert_newest in Hb as [-> | Hb]; [lia | now apply H].
Qed.

Lemma newest_first_head l : newest_at_head (newest_first l).
Proof.
  induction l as [| u l IH]; [exact I |].
  cbn [newest_first fold_right]. fold (newest_first l).
  apply insert_newest_sorted; [| assumption].
  intros a r E. rewrite E in IH. exact IH.
Qed.

Lemma newest_first_cons l a r :
  newest_first l = a :: r ->
  In a l /\ forall b, In b l -> createdAt b <= createdAt a.
Proof.
  intros E. split.
  - apply In_newest_first. rewrite E. now left.
  - intros b Hb. apply In_newest_first in Hb. rewrite E in Hb.
    destruct Hb as [<- | Hb]; [lia |].
    pose proof (newest_first_head l) as H. rewrite E in H. now apply H.
Qed.

Lemma newest_first_nil l : newest_first l = [] -> l = [].
Proof.
  intros E. pose proof (newest_first_length l) as H. rewrite E in H.
  destruct l; [reflexivity | discriminate H].
Qed.

Lemma newest_first_single u : newest_first [u] = [u].
Proof. reflexivity. Qed.

Lemma newest_first_many l :
  (2 <= List.length l)%nat -> exists a b r, newest_first l = a :: b :: r.
Proof.
  intros H. pose proof (newest_first_length l) as Hl.
  destruct (newest_first l) as [| a [| b r]]; cbn in Hl; try lia. eauto.
Qed.

(** ** Management reports *)

(** X1: on a store that does not fail, [createTicket] of type
    [managementReport] throws a [ConflictException] and changes
    nothing when the company has no accountant; when it has one or
    several it creates an open ticket of category [accounting] assigned
    to an accountant of the company created last of all, and adds it
    to the table behind the existing rows. *)
Theorem managementReport_newest_accountant db company :
  find_fails db = false ->
  create_fails db = false ->
  (users_with db company accountant = [] ->
   createTicket managementReport company db =
     (Throw (ConflictException
               "Cannot find user with role accountant to create a ticket"), db))
  /\
  (users_with db company accountant <> [] ->
   exists a db',
     In a (users_with db company accountant) /\
     (forall b, In b (users_with db company accountant) ->
                createdAt b <= createdAt a) /\
     let t := {| id := next_id db; type := managementReport; companyId := company;
                 assigneeId := user_id a; status := open; category := accounting |} in
     createTicket managementReport company db = (Ret t, db') /\
     users db' = users db /\
     tickets db' = (tickets db ++ [t])%list).
Proof.
  intros Hfind Hcreate.
  unfold createTicket. cbn [TicketType_eqb determineTicketCategory].
  unfold findAssignee, bind, ret, User_findAll, Ticket_create, throw.
  rewrite Hfind. cbn [TicketType_eqb andb].
  change (filter _ (users db)) with (users_with db company accountant).
  split.
  - intros Hnone. rewrite Hnone. reflexivity.
  - intros Hsome.
    destruct (newest_first (users_with db company accountant)) as [| a r] eqn:E.
    { apply newest_first_nil in E. contradiction. }
    destruct (newest_first_cons _ _ _ E) as [Hin Hmax].
    exists a. eexists. split; [exact Hin |]. split; [exact Hmax |].
    cbn. rewrite Hcreate. cbn. split; [reflexivity |]. split; reflexivity.
Qed.

(** Company 1 of the sample store has one accountant, the user 2. *)
Lemma managementReport_newest_accountant_witness :
  find_fails sample_db = false /\
  create_fails sample_db = false /\
  users_with sample_db 1 accountant <> [] /\
  exists db',
    createTicket managementReport 1 sample_db =
      (Ret {| id := 5; type := managementReport; companyId := 1; assigneeId := 2;
              status := open; category := accounting |}, db').
Proof.
  assert (H1 : find_fails sample_db = false) by reflexivity.
  assert (H2 : create_fails sample_db = false) by reflexivity.
  assert (H3 : users_with sample_db 1 accountant <> []) by (vm_compute; discriminate).
  repeat (split; [assumption |]).
  destruct (proj2 (managementReport_newest_accountant sample_db 1 H1 H2) H3)
    as [a [db' [_ [_ [Hrun _]]]]].
  exists db'. vm_compute. vm_compute in Hrun. 
  injection Hrun as _ Hdb. rewrite <- Hdb. reflexivity.
Defined.

(** ** Address changes *)

Lemma find_filter {A} (p : A -> bool) l : find p l = None <-> filter p l = [].
Proof.
  induction l as [| x l IH]; cbn; [tauto |].
  destruct (p x); [split; discriminate | exact IH].
Qed.

(** X2: when the company has an open address-change ticket and the
    lookup does not fail, [createTicket] of type
    [registrationAddressChange] throws a [ConflictException] and changes
    nothing, whoever the users of the company are. *)
Theorem duplicate_address_change_rejected db company :
  find_fails db = false ->
  open_changes db company <> [] ->
  createTicket registrationAddressChange company db =
    (Throw (ConflictException
              "A registration address change ticket already exists for this company."),
     db).
Proof.
  intros Hfind Hopen.
  unfold createTicket, checkForDuplicateRegistrationTicket, bind, Ticket_findOne.
  cbn [TicketType_eqb]. rewrite Hfind.
  change (find _ (tickets db)) with (find (is_open_change company) (tickets db)).
  destruct (find (is_open_change company) (tickets db)) eqn:E; [reflexivity |].
  apply find_filter in E. contradiction.
Qed.

(** Company 1 of the sample store has the open address change 2. *)
Lemma duplicate_address_change_rejected_witness :
  find_fails sample_db = false /\
  open_changes sample_db 1 <> [] /\
  createTicket registrationAddressChange 1 sample_db =
    (Throw (ConflictException
              "A registration address change ticket already exists for this company."),
     sample_db).
Proof.
  assert (H1 : find_fails sample_db = false) by reflexivity.
  assert (H2 : open_changes sample_db 1 <> []) by (vm_compute; discriminate).
  repeat (split; [assumption |]).
  exact (duplicate_address_change_rejected sample_db 1 H1 H2).
Defined.

(** What [createTicket] does with an address change that is no
    duplicate, on a store that does not fail. *)
Lemma address_change_run db company :
  find_fails db = false ->
  create_fails db = false ->
  open_changes db company = [] ->
  createTicket registrationAddressChange company db =
  match newest_first (users_with db company corporateSecretary) with
  | [] =>
      match newest_first (users_with db company director) with
      | [] => (Throw (ConflictException
                        "Cannot find user with role director to create a ticket"), db)
      | [d] =>
          (Ret {| id := next_id db; type := registrationAddressChange;
                  companyId := company; assigneeId := user_id d; status := open;
                  category := corporate |},
           with_tickets
             (fun l => (l ++ [{| id := next_id db; type := registrationAddressChange;
                                 companyId := company; assigneeId := user_id d;
                                 status := open; category := corporate |}])%list)
             (next_id db + 1) db)
      | _ :: _ :: _ =>
          (Throw (ConflictException
                    "Multiple users with role director. Cannot create a ticket"), db)
      end
  | [s] =>
      (Ret {| id := next_id db; type := registrationAddressChange;
              companyId := company; assigneeId := user_id s; status := open;
              category := corporate |},
       with_tickets
         (fun l => (l ++ [{| id := next_id db; type := registrationAddressChange;
                             companyId := company; assigneeId := user_id s;
                             status := open; category := corporate |}])%list)
         (next_id db + 1) db)
  | _ :: _ :: _ =>
      (Throw (ConflictException
                "Multiple users with role corporateSecretary. Cannot create a ticket"),
       db)
  end.
Proof.
  intros Hfind Hcreate Hopen.
  unfold createTicket, checkForDuplicateRegistrationTicket, bind, Ticket_findOne.
  cbn [TicketType_eqb]. rewrite Hfind.
  change (find _ (tickets db)) with (find (is_open_change company) (tickets db)).
  rewrite (proj2 (find_filter _ _) Hopen).
  unfold ret at 1. cbn [determineTicketCategory].
  unfold findAssignee, bind, User_findAll, ret, throw, Ticket_create, users_with.
  rewrite Hfind. cbn [TicketType_eqb andb].
  destruct (newest_first
              (filter (fun u => (user_companyId u =? company)
                                && UserRole_eqb (role u) corporateSecretary)
                      (users db)))
    as [| s [| s' ss]]; cbn [List.length Nat.eqb].
  - rewrite Hfind.
    destruct (newest_first
                (filter (fun u => (user_companyId u =? company)
                                  && UserRole_eqb (role u) director)
                        (users db))) as [| d [| d' ds]];
      cbn; rewrite ?Hcreate; reflexivity.
  - cbn. rewrite Hcreate. reflexivity.
  - reflexivity.
Qed.

(** X3: on a store that does not fail and without an open address
    change for the company, [createTicket] of type
    [registrationAddressChange] assigns the ticket to the corporate
    secretary when there is exactly one; falls back to the director
    only when there is no secretary, and then needs exactly one
    director; with several secretaries, or with no secretary and
    several directors, or with neither, it throws a
    [ConflictException] and changes nothing. *)
Theorem address_change_assignee db company :
  find_fails db = false ->
  create_fails db = false ->
  open_changes db company = [] ->
  let ticket_for u :=
    {| id := next_id db; type := registrationAddressChange; companyId := company;
       assigneeId := user_id u; status := open; category := corporate |} in
  let created u :=
    exists db', createTicket registrationAddressChange company db = (Ret (ticket_for u), db')
                /\ users db' = users db
                /\ tickets db' = (tickets db ++ [ticket_for u])%list in
  let refused message :=
    createTicket registrationAddressChange company db
    = (Throw (ConflictException message), db) in
  (forall s, users_with db company corporateSecretary = [s] -> created s) /\
  (forall d, users_with db company corporateSecretary = [] ->
             users_with db company director = [d] -> created d) /\
  ((2 <= List.length (users_with db company corporateSecretary))%nat ->
   refused "Multiple users with role corporateSecretary. Cannot create a ticket") /\
  (users_with db company corporateSecretary = [] ->
   (2 <= List.length (users_with db company director))%nat ->
   refused "Multiple users with role director. Cannot create a ticket") /\
  (users_with db company corporateSecretary = [] ->
   users_with db company director = [] ->
   refused "Cannot find user with role director to create a ticket").
Proof.
  intros Hfind Hcreate Hopen. cbv zeta.
  pose proof (address_change_run db company Hfind Hcreate Hopen) as Hrun.
  rewrite Hrun. repeat split.
  - intros s Hs. rewrite Hs. cbn [newest_first fold_right insert_newest].
    eexists. split; [reflexivity |]. now split.
  - intros d Hs Hd. rewrite Hs, Hd. cbn [newest_first fold_right insert_newest].
    eexists. split; [reflexivity |]. now split.
  - intros Hs. destruct (newest_first_many _ Hs) as [a [b [r E]]]. now rewrite E.
  - intros Hs Hd. rewrite Hs. cbn [newest_first fold_right].
    destruct (newest_first_many _ Hd) as [a [b [r E]]]. now rewrite E.
  - intros Hs Hd. now rewrite Hs, Hd.
Qed.

(** Company 3 of [office_db] has a director and no secretary; company
    4 has two secretaries. *)
Lemma address_change_assignee_witness :
  find_fails office_db = false /\
  create_fails office_db = false /\
  open_changes office_db 3 = [] /\
  users_with office_db 3 corporateSecretary = [] /\
  (exists db',
     createTicket registrationAddressChange 3 office_db =
       (Ret {| id := 1; type := registrationAddressChange; companyId := 3;
               assigneeId := 7; status := open; category := corporate |}, db')) /\
  open_changes office_db 4 = [] /\
  (2 <= List.length (users_with office_db 4 corporateSecretary))%nat /\
  createTicket registrationAddressChange 4 office_db =
    (Throw (ConflictException
              "Multiple users with role corporateSecretary. Cannot create a ticket"),
     office_db).
Proof.
  assert (H1 : find_fails office_db = false) by reflexivity.
  assert (H2 : create_fails office_db = false) by reflexivity.
  assert (H3 : open_changes office_db 3 = []) by reflexivity.
  assert (H4 : users_with office_db 3 corporateSecretary = []) by reflexivity.
  assert (H5 : open_changes office_db 4 = []) by reflexivity.
  assert (H6 : (2 <= List.length (users_with office_db 4 corporateSecretary))%nat)
    by (vm_compute; lia).
  repeat (split; [assumption |]).
  split; [| split; [assumption | split; [assumption |]]].
  - destruct (proj1 (proj2 (address_change_assignee office_db 3 H1 H2 H3))
                {| user_id := 7; role := director; user_companyId := 3; createdAt := 20 |}
                H4 eq_refl) as [db' [Hrun _]].
    exists db'. exact Hrun.
  - exact (proj1 (proj2 (proj2 (address_change_assignee office_db 4 H1 H2 H5))) H6).
Defined.

End Assignees.

(** * What [createTicket] does to the store *)

Section CreateTicket.

Import Eff EffNotations Tickets TicketsSpec TicketsApi TicketsProps TicketsSteps.

Lemma UserRole_eqb_eq a b : UserRole_eqb a b = true -> a = b.
Proof. destruct a, b; cbn; congruence. Qed.

Lemma head_candidate db company r a rest :
  newest_first
    (filter (fun u => (user_companyId u =? company) && UserRole_eqb (role u) r)
            (users db)) = a :: rest ->
  In a (users db) /\ user_companyId a = company /\ role a = r.
Proof.
  intros E. apply newest_first_cons in E as [Hin _].
  apply filter_In in Hin as [Hin Hp]. apply andb_prop in Hp as [Hc Hr].
  apply Z.eqb_eq in Hc. apply UserRole_eqb_eq in Hr. auto.
Qed.

(** The outcome of a call, whatever the type: a ticket returned is new,
    open, of the type and company asked for, of the category of its
    type and assigned to a user of the company with a role fit for the
    type, and it is the last row; the rows before it are the old ones,
    untouched or, for a strike-off, resolved.  A call that throws
    leaves the rows alone. *)
Lemma createTicket_shape ty company db :
  let run := createTicket ty company db in
  users (snd run) = users db /\
  next_id db <= next_id (snd run) /\
  match fst run with
  | Throw _ => tickets (snd run) = tickets db
  | Ret t =>
      id t = next_id db /\
      next_id (snd run) = next_id db + 1 /\
      type t = ty /\ companyId t = company /\ status t = open /\
      category t = determineTicketCategory ty /\
      (exists u, In u (users db) /\ user_companyId u = company
                 /\ allowed_role ty (role u) = true /\ assigneeId t = user_id u) /\
      (exists f, touched ty company f
                 /\ tickets (snd run) = (map f (tickets db) ++ [t])%list) /\
      (ty = registrationAddressChange -> open_changes db company = [])
  end.
Proof.
  cbv zeta. destruct ty.
  - (* managementReport *)
    unfold createTicket. cbn [TicketType_eqb determineTicketCategory].
    unfold findAssignee, bind, ret, throw, User_findAll, Ticket_create.
    destruct (find_fails db); [cbn; repeat split; lia |].
    cbn [TicketType_eqb andb].
    destruct (newest_first _) as [| a rest] eqn:E; [cbn; repeat split; lia |].
    apply head_candidate in E as [Hin [Hc Hr]].
    cbn [UserRole_eqb orb andb fst snd].
    destruct (create_fails db); [cbn; repeat split; lia |].
    cbn. repeat split; try lia.
    + exists a. rewrite Hr. auto.
    + exists (fun x => x). split; [intros x; now left | now rewrite map_id].
    + discriminate.
  - (* registrationAddressChange *)
    unfold createTicket, checkForDuplicateRegistrationTicket, bind, Ticket_findOne.
    cbn [TicketType_eqb determineTicketCategory].
    destruct (find_fails db) eqn:Hfind; [cbn; repeat split; lia |].
    change (find _ (tickets db)) with (find (is_open_change company) (tickets db)).
    destruct (find (is_open_change company) (tickets db)) eqn:Hdup;
      [cbn; repeat split; lia |].
    apply find_filter in Hdup.
    unfold ret at 1.
    unfold findAssignee, bind, User_findAll, ret, throw, Ticket_create.
    rewrite Hfind. cbn [TicketType_eqb andb].
    destruct (newest_first
                (filter (fun u => (user_companyId u =? company)
                                  && UserRole_eqb (role u) corporateSecretary)
                        (users db)))
      as [| s [| s' ss]] eqn:Es; cbn [List.length Nat.eqb].
    + rewrite Hfind.
      destruct (newest_first
                  (filter (fun u => (user_companyId u =? company)
                                    && UserRole_eqb (role u) director)
                          (users db))) as [| d [| d' ds]] eqn:Ed;
        [cbn; repeat split; lia | | cbn; repeat split; lia].
      apply head_candidate in Ed as [Hin [Hc Hr]].
      cbn. destruct (create_fails db); [cbn; repeat split; lia |].
      cbn. repeat split; try lia; try assumption.
      * exists d. rewrite Hr. auto.
      * exists (fun x => x). split; [intros x; now left | now rewrite map_id].
      * intros _. exact Hdup.
    + apply head_candidate in Es as [Hin [Hc Hr]].
      cbn. destruct (create_fails db); [cbn; repeat split; lia |].
      cbn. repeat split; try lia; try assumption.
      * exists s. rewrite Hr. auto.
      * exists (fun x => x). split; [intros x; now left | now rewrite map_id].
      * intros _. exact Hdup.
    + cbn. repeat split; lia.
  - (* strikeOff *)
    unfold createTicket. cbn [TicketType_eqb determineTicketCategory].
    unfold createStrikeOffTicket, transaction, try_catch, bind, ret, throw,
      User_findAll, Ticket_create, Ticket_update_resolved.
    destruct (find_fails db); [cbn; repeat split; lia |].
    destruct (newest_first _) as [| d [| d' ds]] eqn:Ed;
      [cbn; repeat split; lia | | cbn; repeat split; lia].
    apply head_candidate in Ed as [Hin [Hc Hr]].
    cbn [List.length Nat.ltb Nat.leb].
    destruct (create_fails db); [cbn; repeat split; lia |].
    cbn [with_tickets update_fails fst snd].
    destruct (update_fails db); [cbn; repeat split; lia |].
    cbn. repeat split; try lia.
    + exists d. rewrite Hr. auto.
    + eexists (fun t => if (companyId t =? company) && TicketStatus_eqb (status t) open
                           && negb (id t =? next_id db)
                        then set_status resolved t else t).
      split.
      * intros x. destruct (companyId x =? company) eqn:E; cbn [andb]; [| now left].
        destruct (TicketStatus_eqb (status x) open && negb (id x =? next_id db));
          [right | now left].
        apply Z.eqb_eq in E. auto.
      * rewrite map_app. cbn [map companyId status id TicketStatus_eqb].
        rewrite !Z.eqb_refl. reflexivity.
    + discriminate.
Qed.


Lemma touched_other ty company f l :
  ty <> strikeOff -> touched ty company f -> map f l = l.
Proof.
  intros Hty H. rewrite <- (map_id l) at 2. apply map_ext. intros x.
  destruct (H x) as [E | [_ [E _]]]; [exact E | contradiction].
Qed.

(** X4: a ticket [createTicket] returns, whatever the type, has the
    identifier the store handed out, the type and the company asked
    for, the status [open], the category of its type, and an assignee
    who is a user of that company with a role fit for the type
    (accountant for a management report, corporate secretary or
    director for an address change, director for a strike-off); it is
    the last row of the table, behind the rows that were there, each
    unchanged or, for a strike-off, resolved. *)
Theorem created_ticket ty company db t db' :
  createTicket ty company db = (Ret t, db') ->
  id t = next_id db /\ type t = ty /\ companyId t = company /\
  status t = open /\ category t = determineTicketCategory ty /\
  (exists u, In u (users db) /\ user_companyId u = company
             /\ allowed_role ty (role u) = true /\ assigneeId t = user_id u) /\
  users db' = users db /\
  exists f, touched ty company f /\ tickets db' = (map f (tickets db) ++ [t])%list.
Proof.
  intros Hrun. pose proof (createTicket_shape ty company db) as H.
  cbv zeta in H. rewrite Hrun in H. cbn [fst snd] in H.
  destruct H as [Hu [_ [Hid [_ [Hty [Hc [Hs [Hcat [Hass [Hf _]]]]]]]]]].
  repeat split; assumption.
Qed.

(** A strike-off for company 1 of the sample store. *)
Lemma created_ticket_witness :
  let t := {| id := 5; type := strikeOff; companyId := 1; assigneeId := 1;
              status := open; category := management |} in
  let db' := snd (createTicket strikeOff 1 sample_db) in
  createTicket strikeOff 1 sample_db = (Ret t, db') /\
  category t = determineTicketCategory strikeOff /\
  users db' = users sample_db.
Proof.
  cbv zeta.
  assert (H : createTicket strikeOff 1 sample_db =
              (Ret {| id := 5; type := strikeOff; companyId := 1; assigneeId := 1;
                      status := open; category := management |},
               snd (createTicket strikeOff 1 sample_db))) by reflexivity.
  split; [exact H |].
  destruct (created_ticket _ _ _ _ _ H) as [_ [_ [_ [_ [Hcat [_ [Hu _]]]]]]].
  split; assumption.
Defined.

(** X5: a call of a type other than [strikeOff] never changes a row
    that is there: when it returns, the table is the old one with the
    new ticket behind it; when it throws, the store is as before. *)
Theorem other_types_only_append ty company db :
  ty <> strikeOff ->
  (forall t db', createTicket ty company db = (Ret t, db') ->
                 tickets db' = (tickets db ++ [t])%list) /\
  (forall e db', createTicket ty company db = (Throw e, db') -> db' = db).
Proof.
  intros Hty. split.
  - intros t db' Hrun.
    pose proof (createTicket_shape ty company db) as H.
    cbv zeta in H. rewrite Hrun in H. cbn [fst snd] in H.
    destruct H as [_ [_ [_ [_ [_ [_ [_ [_ [_ [[f [Hf Ht]] _]]]]]]]]]].
    now rewrite (touched_other _ _ _ _ Hty Hf) in Ht.
  - intros e db'. destruct ty; [| | contradiction].
    + unfold createTicket. cbn [TicketType_eqb].
      unfold findAssignee, bind, ret, throw, User_findAll, Ticket_create.
      destruct (find_fails db); [intros H; now injection H |].
      cbn [TicketType_eqb andb].
      destruct (newest_first _) as [| a rest]; [intros H; now injection H |].
      cbn [UserRole_eqb orb andb fst snd].
      destruct (create_fails db); cbn; intros H; [now injection H | discriminate H].
    + unfold createTicket, checkForDuplicateRegistrationTicket, bind, Ticket_findOne.
      cbn [TicketType_eqb].
      destruct (find_fails db) eqn:Hfind; [intros H; now injection H |].
      destruct (find _ (tickets db)); [intros H; now injection H |].
      unfold ret at 1.
      unfold findAssignee, bind, User_findAll, ret, throw, Ticket_create.
      rewrite Hfind. cbn [TicketType_eqb andb].
      destruct (newest_first
                  (filter (fun u => (user_companyId u =? company)
                                    && UserRole_eqb (role u) corporateSecretary)
                          (users db)))
        as [| s [| s' ss]]; cbn [List.length Nat.eqb].
      * rewrite Hfind.
        destruct (newest_first
                    (filter (fun u => (user_companyId u =? company)
                                      && UserRole_eqb (role u) director)
                            (users db))) as [| d [| d' ds]];
          cbn; try (intros H; now injection H).
        destruct (create_fails db); cbn; intros H; [now injection H | discriminate H].
      * cbn. destruct (create_fails db); cbn; intros H;
          [now injection H | discriminate H].
      * cbn. intros H. now injection H.
Qed.

(** A management report for company 1 of the sample store. *)
Lemma other_types_only_append_witness :
  managementReport <> strikeOff /\
  tickets (snd (createTicket managementReport 1 sample_db)) =
    (tickets sample_db
     ++ [{| id := 5; type := managementReport; companyId := 1; assigneeId := 2;
            status := open; category := accounting |}])%list.
Proof.
  assert (H : managementReport <> strikeOff) by discriminate.
  split; [exact H |].
  exact (proj1 (other_types_only_append managementReport 1 sample_db H)
           {| id := 5; type := managementReport; companyId := 1; assigneeId := 2;
              status := open; category := accounting |}
           (snd (createTicket managementReport 1 sample_db)) eq_refl).
Defined.

(** ** Invariants of the store *)

Lemma after_requests_ind (P : Db -> Prop) :
  (forall ty company db, P db -> P (snd (createTicket ty company db))) ->
  forall requests db, P db -> P (after_requests db requests).
Proof.
  intros Hstep requests. unfold after_requests.
  induction requests as [| r rs IH]; intros db H; [assumption |].
  cbn [fold_left]. apply IH. now apply Hstep.
Qed.

Lemma filter_map_shrinks {A} (p : A -> bool) (f : A -> A) l :
  (forall x, p (f x) = true -> p x = true) ->
  (List.length (filter p (map f l)) <= List.length (filter p l))%nat.
Proof.
  intros H. induction l as [| x l IH]; [reflexivity |].
  cbn [map filter]. destruct (p (f x)) eqn:E.
  - rewrite (H x E). cbn [List.length]. lia.
  - destruct (p x); cbn [List.length]; lia.
Qed.

Lemma open_change_touched ty company f company' x :
  touched ty company f ->
  is_open_change company' (f x) = true -> is_open_change company' x = true.
Proof.
  intros H. destruct (H x) as [-> | [-> _]]; [auto |].
  unfold is_open_change. cbn [set_status status companyId type TicketStatus_eqb].
  now rewrite andb_false_r.
Qed.

Lemma one_open_change_step ty company db :
  one_open_change db -> one_open_change (snd (createTicket ty company db)).
Proof.
  intros Hinv company'.
  pose proof (createTicket_shape ty company db) as H. cbv zeta in H.
  destruct H as [_ [_ H]]. unfold open_changes in *.
  destruct (fst (createTicket ty company db)) as [t | e].
  - destruct H as [_ [_ [Hty [Hc [_ [_ [_ [[f [Hf Ht]] Hnone]]]]]]]].
    rewrite Ht, filter_app, length_app.
    pose proof (filter_map_shrinks (is_open_change company') f (tickets db)
                  (fun x => open_change_touched _ _ _ _ x Hf)) as Hle.
    specialize (Hinv company'). unfold open_changes in Hinv.
    cbn [filter]. destruct (is_open_change company' t) eqn:E;
      cbn [List.length]; [| lia].
    unfold is_open_change in E. rewrite Hty, Hc in E.
    apply andb_prop in E as [E _]. apply andb_prop in E as [Ec Et].
    apply Z.eqb_eq in Ec. subst company'.
    destruct ty; try discriminate Et.
    rewrite (touched_other registrationAddressChange company f (tickets db));
      [| discriminate | exact Hf].
    specialize (Hnone eq_refl). unfold open_changes in Hnone. now rewrite Hnone.
  - rewrite H. apply Hinv.
Qed.

(** ** Calls that overlap *)

Lemma landed_stays n result db :
  Overlap.alone step n (Landed result) db = (Landed result, db).
Proof.
  induction n as [| n IH]; [reflexivity |].
  now rewrite alone_step.
Qed.

Lemma step_find reg_or_report company db :
  find_fails db = false ->
  step (AtFind reg_or_report company) db =
  (if TicketType_eqb reg_or_report registrationAddressChange
      && (List.length (newest_first (users_with db company (primary_role reg_or_report)))
          =? 0)%nat
   then AtFallback company
   else choose reg_or_report company (primary_role reg_or_report)
          (newest_first (users_with db company (primary_role reg_or_report))),
   db).
Proof.
  intros Hfind. cbn [step]. unfold User_findAll. rewrite Hfind.
  fold (users_with db company (primary_role reg_or_report)).
  now destruct (_ && _).
Qed.

Lemma step_fallback company db :
  find_fails db = false ->
  step (AtFallback company) db =
  (choose registrationAddressChange company director
     (newest_first (users_with db company director)), db).
Proof. intros Hfind. cbn [step]. unfold User_findAll. now rewrite Hfind. Qed.

Lemma step_check company db :
  find_fails db = false ->
  step (AtCheck company) db =
  (match open_changes db company with
   | [] => AtFind registrationAddressChange company
   | _ :: _ =>
       Landed (Throw (ConflictException
         "A registration address change ticket already exists for this company."))
   end, db).
Proof.
  intros Hfind. cbn [step]. unfold Ticket_findOne. rewrite Hfind.
  change (find _ (tickets db)) with (find (is_open_change company) (tickets db)).
  destruct (find (is_open_change company) (tickets db)) as [x |] eqn:E.
  - destruct (open_changes db company) eqn:Eo; [| reflexivity].
    apply find_filter in Eo. congruence.
  - apply find_filter in E. unfold open_changes. now rewrite E.
Qed.

Lemma step_create ty company a db :
  create_fails db = false ->
  step (AtCreate ty company a) db =
  (Landed (Ret {| id := next_id db; type := ty; companyId := company;
                  assigneeId := user_id a; status := open;
                  category := determineTicketCategory ty |}),
   with_tickets
     (fun l => (l ++ [{| id := next_id db; type := ty; companyId := company;
                         assigneeId := user_id a; status := open;
                         category := determineTicketCategory ty |}])%list)
     (next_id db + 1) db).
Proof. intros Hcreate. cbn [step]. unfold Ticket_create. now rewrite Hcreate. Qed.

Lemma step_throws f db :
  find_fails db = true -> (forall ty c a, f <> AtCreate ty c a) ->
  (forall r, f <> Landed r) ->
  step f db = (Landed (Throw (Error "storage failure")), db).
Proof.
  intros Hfind Hc Hl. destruct f; cbn [step];
    unfold Ticket_findOne, User_findAll; rewrite ?Hfind; try reflexivity.
  - now destruct (Hc ty company assignee).
  - now destruct (Hl result).
Qed.

Lemma alone_is_createTicket ty company db :
  ty <> strikeOff ->
  Overlap.alone step 4 (start ty company) db =
  (Landed (fst (createTicket ty company db)), snd (createTicket ty company db)).
Proof.
  intros Hty.
  destruct (find_fails db) eqn:Hfind.
  - assert (Hrun : createTicket ty company db = (Throw (Error "storage failure"), db)).
    { destruct ty; [| | contradiction];
        unfold createTicket, checkForDuplicateRegistrationTicket, findAssignee, bind,
          Ticket_findOne, User_findAll;
        cbn [TicketType_eqb]; unfold ret; now rewrite Hfind. }
    rewrite Hrun, alone_step.
    rewrite step_throws;
      [cbn [fst snd]; apply landed_stays | exact Hfind | |];
      destruct ty; try contradiction; unfold start; cbn [TicketType_eqb]; discriminate.
  - assert (Hlast : forall a n,
              Overlap.alone step (S n) (AtCreate ty company a) db =
              if create_fails db
              then (Landed (Throw (Error "storage failure")), db)
              else
                (Landed (Ret {| id := next_id db; type := ty; companyId := company;
                                assigneeId := user_id a; status := open;
                                category := determineTicketCategory ty |}),
                 with_tickets
                   (fun l => (l ++ [{| id := next_id db; type := ty;
                                       companyId := company; assigneeId := user_id a;
                                       status := open;
                                       category := determineTicketCategory ty |}])%list)
                   (next_id db + 1) db)).
    { intros a n. rewrite alone_step. cbn [step]. unfold Ticket_create.
      destruct (create_fails db); cbn [fst snd]; now rewrite landed_stays. }
    destruct ty; [| | contradiction]; unfold start; cbn [TicketType_eqb].
    + unfold createTicket, findAssignee, bind, ret, throw, User_findAll, Ticket_create.
      cbn [TicketType_eqb andb]. rewrite Hfind.
      rewrite alone_step, step_find by exact Hfind.
      cbn [TicketType_eqb andb fst snd primary_role]. unfold users_with.
      destruct (newest_first _) as [| a rest].
      * cbn [choose]. now rewrite landed_stays.
      * cbn [choose UserRole_eqb orb andb]. rewrite Hlast.
        now destruct (create_fails db).
    + unfold createTicket, checkForDuplicateRegistrationTicket, findAssignee, bind, ret,
        throw, Ticket_findOne, User_findAll, Ticket_create.
      cbn [TicketType_eqb andb]. rewrite Hfind.
      rewrite alone_step, step_check by exact Hfind. cbn [fst snd].
      change (find _ (tickets db)) with (find (is_open_change company) (tickets db)).
      destruct (open_changes db company) as [| x l] eqn:Eo.
      * rewrite (proj2 (find_filter _ _) Eo). rewrite Hfind.
        rewrite alone_step, step_find by exact Hfind.
        cbn [TicketType_eqb andb fst snd primary_role]. unfold users_with.
        destruct (newest_first
                    (filter (fun u => (user_companyId u =? company)
                                      && UserRole_eqb (role u) corporateSecretary)
                            (users db)))
          as [| s [| s' ss]]; cbn [List.length Nat.eqb].
        -- rewrite Hfind. rewrite alone_step, step_fallback by exact Hfind.
           cbn [fst snd]. unfold users_with.
           destruct (newest_first
                       (filter (fun u => (user_companyId u =? company)
                                         && UserRole_eqb (role u) director)
                               (users db))) as [| d [| d' ds]];
             cbn [choose UserRole_eqb orb andb List.length Nat.ltb Nat.leb].
           ++ now rewrite landed_stays.
           ++ rewrite Hlast. now destruct (create_fails db).
           ++ now rewrite landed_stays.
        -- cbn [choose UserRole_eqb orb andb List.length Nat.ltb Nat.leb].
           rewrite Hlast. now destruct (create_fails db).
        -- cbn [choose UserRole_eqb orb andb List.length Nat.ltb Nat.leb].
           now rewrite landed_stays.
      * destruct (find (is_open_change company) (tickets db)) eqn:E.
        -- now rewrite landed_stays.
        -- apply find_filter in E. unfold open_changes in Eo. congruence.
Qed.

(** Two address changes in flight for a company for which one alone
    would be created: both pass the duplicate check, both are
    created. *)
Lemma overlapping_address_changes db company t :
  find_fails db = false -> create_fails db = false ->
  open_changes db company = [] ->
  fst (createTicket registrationAddressChange company db) = Ret t ->
  let t' := {| id := next_id db + 1; type := registrationAddressChange;
               companyId := company; assigneeId := assigneeId t; status := open;
               category := corporate |} in
  exists db',
    Overlap.interleave step both_check_first
      [start registrationAddressChange company;
       start registrationAddressChange company] db
    = ([Landed (Ret t); Landed (Ret t')], db')
    /\ tickets db' = (tickets db ++ [t; t'])%list
    /\ open_changes db' company = [t; t'].
Proof.
  intros Hfind Hcreate Hopen Hrun. cbv zeta.
  rewrite (address_change_run db company Hfind Hcreate Hopen) in Hrun.
  (* a flight from its lookups to its end, with nothing in between *)
  assert (Hassignee : exists a,
            t = {| id := next_id db; type := registrationAddressChange;
                   companyId := company; assigneeId := user_id a; status := open;
                   category := corporate |}
            /\ forall db0,
                 find_fails db0 = false -> create_fails db0 = false ->
                 users db0 = users db ->
                 Overlap.alone step 3 (AtFind registrationAddressChange company) db0
                 = (Landed (Ret {| id := next_id db0;
                                   type := registrationAddressChange;
                                   companyId := company; assigneeId := user_id a;
                                   status := open; category := corporate |}),
                    with_tickets
                      (fun l => (l ++ [{| id := next_id db0;
                                          type := registrationAddressChange;
                                          companyId := company;
                                          assigneeId := user_id a; status := open;
                                          category := corporate |}])%list)
                      (next_id db0 + 1) db0)).
  { destruct (newest_first (users_with db company corporateSecretary))
      as [| s [| s' ss]] eqn:Hs; [| | discriminate Hrun].
    - destruct (newest_first (users_with db company director))
        as [| d [| d' ds]] eqn:Hd; [discriminate Hrun | | discriminate Hrun].
      cbn [fst] in Hrun. injection Hrun as <-. exists d. split; [reflexivity |].
      intros db0 Hf Hc Hu.
      assert (Hs0 : users_with db0 company corporateSecretary
                    = users_with db company corporateSecretary)
        by (unfold users_with; now rewrite Hu).
      assert (Hd0 : users_with db0 company director = users_with db company director)
        by (unfold users_with; now rewrite Hu).
      rewrite alone_step, step_find by exact Hf. cbn [primary_role fst snd].
      rewrite Hs0, Hs. cbn [TicketType_eqb andb List.length Nat.eqb].
      rewrite alone_step, step_fallback by exact Hf. rewrite Hd0, Hd.
      cbn [choose UserRole_eqb orb andb List.length Nat.ltb Nat.leb fst snd].
      rewrite alone_step, step_create by exact Hc. reflexivity.
    - cbn [fst] in Hrun. injection Hrun as <-. exists s. split; [reflexivity |].
      intros db0 Hf Hc Hu.
      assert (Hs0 : users_with db0 company corporateSecretary
                    = users_with db company corporateSecretary)
        by (unfold users_with; now rewrite Hu).
      rewrite alone_step, step_find by exact Hf. cbn [primary_role fst snd].
      rewrite Hs0, Hs. cbn [TicketType_eqb andb List.length Nat.eqb].
      cbn [choose UserRole_eqb orb andb List.length Nat.ltb Nat.leb fst snd].
      rewrite alone_step, step_create by exact Hc. cbn [fst snd].
      now rewrite landed_stays. }
  destruct Hassignee as [a [-> Hlook]]. cbn [assigneeId].
  set (t1 := {| id := next_id db; type := registrationAddressChange;
                companyId := company; assigneeId := user_id a; status := open;
                category := corporate |}).
  set (t2 := {| id := next_id db + 1; type := registrationAddressChange;
                companyId := company; assigneeId := user_id a; status := open;
                category := corporate |}).
  set (db1 := with_tickets (fun l => (l ++ [t1])%list) (next_id db + 1) db).
  set (db2 := with_tickets (fun l => (l ++ [t2])%list) (next_id db + 1 + 1) db1).
  exists db2.
  unfold start. cbn [TicketType_eqb].
  change both_check_first
    with (0 :: 1 :: repeat 0 3 ++ repeat 1 3 ++ [])%nat%list.
  (* the first call checks, then the second *)
  rewrite interleave_cons, advance_first, (step_check company db Hfind), Hopen.
  cbn [fst snd].
  rewrite interleave_cons, advance_second, (step_check company db Hfind), Hopen.
  cbn [fst snd].
  (* the first call runs to its end, then the second *)
  rewrite interleave_first, (Hlook db Hfind Hcreate eq_refl).
  cbn [fst snd]. fold t1. fold db1.
  rewrite interleave_second, (Hlook db1 Hfind Hcreate eq_refl).
  cbn [fst snd].
  change (next_id db1) with (next_id db + 1). fold t2. fold db2.
  rewrite interleave_nil.
  split; [reflexivity |]. split.
  - unfold db2, db1. cbn [with_tickets tickets]. now rewrite <- app_assoc.
  - unfold open_changes in *. unfold db2, db1. cbn [with_tickets tickets].
    rewrite !filter_app, Hopen. cbn [filter app]. unfold is_open_change, t1, t2.
    cbn [companyId type status TicketType_eqb TicketStatus_eqb].
    rewrite Z.eqb_refl. reflexivity.
Qed.

(** X6: at most one open address change per company, and what it
    rests on.  When the calls of [createTicket] are made one after the
    other, each returned before the next is made, a store in which no
    company has two open address-change tickets stays so, whatever the
    types and companies of the calls and whether they return or throw.
    The steps of a call from [await] to [await], taken with nothing in
    between, are that call.  But nothing keeps two calls apart: when
    two address changes for a company are in flight together and both
    have made their duplicate check before either creates its ticket,
    both are created, with consecutive identifiers and the same
    assignee, and the company has two open address-change tickets. *)
Theorem one_open_change_kept db requests :
  one_open_change db ->
  one_open_change (after_requests db requests) /\
  (forall ty company,
     ty <> strikeOff ->
     Overlap.alone step 4 (start ty company) db =
     (Landed (fst (createTicket ty company db)), snd (createTicket ty company db))) /\
  (forall company t,
     find_fails db = false -> create_fails db = false ->
     fst (createTicket registrationAddressChange company db) = Ret t ->
     let t' := {| id := next_id db + 1; type := registrationAddressChange;
                  companyId := company; assigneeId := assigneeId t; status := open;
                  category := corporate |} in
     exists db',
       Overlap.interleave step both_check_first
         [start registrationAddressChange company;
          start registrationAddressChange company] db
       = ([Landed (Ret t); Landed (Ret t')], db')
       /\ open_changes db' company = [t; t']
       /\ ~ one_open_change db').
Proof.
  intros Hinv. split; [| split].
  - revert db Hinv. apply (after_requests_ind one_open_change). intros ty company d.
    apply one_open_change_step.
  - intros ty company. apply alone_is_createTicket.
  - intros company t Hfind Hcreate Hrun.
    assert (Hopen : open_changes db company = []).
    { pose proof (createTicket_shape registrationAddressChange company db) as H.
      cbv zeta in H. rewrite Hrun in H.
      destruct H as [_ [_ [_ [_ [_ [_ [_ [_ [_ [_ H]]]]]]]]]]. now apply H. }
    destruct (overlapping_address_changes db company t Hfind Hcreate Hopen Hrun)
      as [db' [Hpool [_ Hboth]]].
    exists db'. split; [exact Hpool |]. split; [exact Hboth |].
    intros Hone. specialize (Hone company). rewrite Hboth in Hone.
    cbn [List.length] in Hone. lia.
Qed.

(** Served one after the other: two address changes, a management
    report and a strike-off for company 1 of the sample store.  In
    flight together: two address changes for company 3 of the office
    store. *)
Lemma one_open_change_kept_witness :
  let requests := [(registrationAddressChange, 1); (managementReport, 1);
                   (strikeOff, 1); (registrationAddressChange, 1);
                   (registrationAddressChange, 1)] in
  (one_open_change sample_db /\
   one_open_change (after_requests sample_db requests) /\
   map id (open_changes (after_requests sample_db requests) 1) = [7]) /\
  (one_open_change office_db /\
   one_open_change
     (after_requests office_db [(registrationAddressChange, 3);
                                (registrationAddressChange, 3)]) /\
   exists db',
     snd (Overlap.interleave step both_check_first
            [start registrationAddressChange 3; start registrationAddressChange 3]
            office_db) = db'
     /\ map id (open_changes db' 3) = [1; 2]
     /\ ~ one_open_change db').
Proof.
  cbv zeta. split.
  - assert (H : one_open_change sample_db).
    { intros company. unfold open_changes, sample_db, sample_tickets, is_open_change.
      cbn [tickets filter companyId type status TicketType_eqb TicketStatus_eqb andb].
      destruct (1 =? company), (2 =? company); cbn; lia. }
    split; [exact H |]. split.
    + exact (proj1 (one_open_change_kept sample_db _ H)).
    + vm_compute. reflexivity.
  - assert (H : one_open_change office_db).
    { intros company. cbn. lia. }
    split; [exact H |]. split.
    + exact (proj1 (one_open_change_kept office_db _ H)).
    + destruct (proj2 (proj2 (one_open_change_kept office_db [] H)) 3
                  {| id := 1; type := registrationAddressChange; companyId := 3;
                     assigneeId := 7; status := open; category := corporate |}
                  eq_refl eq_refl eq_refl) as [db' [Hpool [Hboth Hnot]]].
      exists db'. split; [now rewrite Hpool |]. split; [| exact Hnot].
      rewrite Hboth. reflexivity.
Defined.




End CreateTicket.

(** * The ticket endpoints *)
Section TicketEndpoints.

Import Eff Tickets TicketsSpec TicketsApi TicketsProps.

Variable View : Type.
Variable joined : list User -> Ticket -> View.

Lemma strikeOff_throws_conflict company db e :
  fst (createTicket strikeOff company db) = Throw e ->
  exists message, e = ConflictException message.
Proof.
  unfold createTicket. cbn [TicketType_eqb].
  unfold createStrikeOffTicket, transaction, try_catch.
  match goal with |- context [bind ?m ?k db] => destruct (bind m k db) as [[t | e0] db'] end.
  - discriminate.
  - destruct e0 as [m | m]; cbn; intros H; injection H as <-; eauto.
Qed.

Lemma createTicket_throw_keeps ty company db e db' :
  createTicket ty company db = (Throw e, db') ->
  users db' = users db /\ tickets db' = tickets db.
Proof.
  intros Hrun. pose proof (createTicket_shape ty company db) as H.
  cbv zeta in H. rewrite Hrun in H. cbn [fst snd] in H.
  destruct H as [Hu [_ Ht]]. now split.
Qed.

(** X8: what [TicketsController.create] answers.  When the service
    returns a ticket, that ticket is the answer and the cache entry is
    gone.  Otherwise the answer is an exception, nothing in the tables
    or the cache has changed, and either the status is 409 with the
    message of the service's [ConflictException], or the status is 500
    with the fixed message, the service having thrown a plain error
    whose message is not passed on; a strike-off request is never
    answered with 500. *)
Theorem create_answers ty company (app : App View) :
  match create View ty company app with
  | (Ret t, app') =>
      createTicket ty company (store View app) = (Ret t, store View app')
      /\ all_tickets View app' = None
  | (Throw (HttpError status message), app') =>
      users (store View app') = users (store View app)
      /\ tickets (store View app') = tickets (store View app)
      /\ all_tickets View app' = all_tickets View app
      /\ ((status = 409
           /\ fst (createTicket ty company (store View app))
              = Throw (ConflictException message))
          \/ (status = 500
              /\ message = "Failed to create ticket. Please try again later."
              /\ ty <> strikeOff
              /\ exists m, fst (createTicket ty company (store View app))
                           = Throw (Error m)))
  end.
Proof.
  unfold create.
  destruct (createTicket ty company (store View app)) as [[t | e] db'] eqn:Hrun.
  - cbn. now split.
  - destruct (createTicket_throw_keeps _ _ _ _ _ Hrun) as [Hu Ht].
    destruct e as [m | m]; cbn [status_of_exn store all_tickets fst].
    + repeat split; try assumption. left. now split.
    + repeat split; try assumption. right. repeat split.
      * intros ->.
        destruct (strikeOff_throws_conflict company (store View app) (Error m))
          as [m' Hm']; [now rewrite Hrun | discriminate Hm'].
      * now exists m.
Qed.

Lemma findAll_handler_cases (app : App View) :
  findAll_handler View joined app =
    (if find_fails (store View app)
     then Throw (HttpError 500 "Failed to retrieve tickets")
     else match tickets (store View app) with
          | [] => Throw (HttpError 404 "No tickets found")
          | _ :: _ => Ret (map (joined (users (store View app))) (tickets (store View app)))
          end,
     app).
Proof.
  unfold findAll_handler, findAll. destruct app as [db cache]. cbn [store all_tickets].
  destruct (find_fails db); [reflexivity |].
  destruct (tickets db); reflexivity.
Qed.

Lemma serve_coherent (app : App View) r :
  coherent joined app -> coherent joined (serve View joined app r).
Proof.
  intros Hc. destruct r as [| ty company |]; cbn [serve].
  - unfold get_tickets. destruct (all_tickets View app) as [cached |] eqn:Hcache;
      [exact Hc |].
    rewrite findAll_handler_cases.
    destruct (find_fails (store View app)); [exact Hc |].
    destruct (tickets (store View app)) as [| x l] eqn:Ht; [exact Hc |].
    right. cbn [snd store all_tickets]. rewrite Ht. split; [discriminate | reflexivity].
  - pose proof (create_shape := createTicket_throw_keeps ty company (store View app)).
    unfold create.
    destruct (createTicket ty company (store View app)) as [[t | e] db'].
    + left. reflexivity.
    + destruct (create_shape e db' eq_refl) as [Hu Ht].
      cbn [snd]. unfold coherent in *. cbn [store all_tickets].
      rewrite Hu, Ht. exact Hc.
  - left. reflexivity.
Qed.

Lemma serve_all_coherent (app : App View) requests :
  coherent joined app -> coherent joined (fold_left (serve View joined) requests app).
Proof.
  revert app. induction requests as [| r rs IH]; intros app Hc; [exact Hc |].
  cbn [fold_left]. apply IH. now apply serve_coherent.
Qed.

(** ** Requests that overlap *)

Lemma answered_stays n (app : App View) :
  (forall response,
     Overlap.alone (step_request View joined) n (GetAnswered View response) app
     = (GetAnswered View response, app))
  /\ (forall response,
        Overlap.alone (step_request View joined) n (PostAnswered View response) app
        = (PostAnswered View response, app)).
Proof.
  induction n as [| n [IHg IHp]]; [split; reflexivity |].
  split; intros response; rewrite alone_step; cbn [step_request fst snd]; auto.
Qed.

Lemma get_alone (app : App View) :
  Overlap.alone (step_request View joined) 3 (GetLookup View) app =
  (GetAnswered View (fst (get_tickets View joined app)),
   snd (get_tickets View joined app)).
Proof.
  rewrite alone_step. unfold get_tickets. cbn [step_request].
  destruct (all_tickets View app) as [cached |]; cbn [fst snd].
  - apply (proj1 (answered_stays 2 app)).
  - rewrite alone_step. cbn [step_request].
    destruct (findAll_handler View joined app) as [[response | e] app1]; cbn [fst snd].
    + rewrite alone_step. reflexivity.
    + apply (proj1 (answered_stays 1 app1)).
Qed.

Lemma post_alone ty company (app : App View) :
  Overlap.alone (step_request View joined) 2 (PostCreate View ty company) app =
  (PostAnswered View (fst (create View ty company app)),
   snd (create View ty company app)).
Proof.
  rewrite alone_step. unfold create. cbn [step_request].
  destruct (createTicket ty company (store View app)) as [[result | error] db'];
    cbn [fst snd].
  - rewrite alone_step. reflexivity.
  - apply (proj2 (answered_stays 1 _)).
Qed.

(** A [POST] served between the store read and the cache write of a
    [GET]: the rows read before the creation are cached after the
    deletion. *)
Lemma post_within_get_caches_old_rows ty company t db' (app : App View) :
  all_tickets View app = None ->
  find_fails (store View app) = false ->
  tickets (store View app) <> [] ->
  createTicket ty company (store View app) = (Ret t, db') ->
  Overlap.interleave (step_request View joined) post_within_get
    [GetLookup View; PostCreate View ty company] app
  = ([GetAnswered View
        (Ret (map (joined (users (store View app))) (tickets (store View app))));
      PostAnswered View (Ret t)],
     {| store := db';
        all_tickets :=
          Some (map (joined (users (store View app))) (tickets (store View app))) |}).
Proof.
  intros Hcache Hfind Hrows Hrun. unfold post_within_get.
  rewrite interleave_cons, advance_first. cbn [step_request]. rewrite Hcache.
  cbn [fst snd].
  rewrite interleave_cons, advance_first. cbn [step_request].
  rewrite findAll_handler_cases, Hfind.
  destruct (tickets (store View app)) as [| x l] eqn:Ht; [contradiction |].
  cbn [fst snd].
  rewrite interleave_cons, advance_second. cbn [step_request]. rewrite Hrun.
  cbn [fst snd].
  rewrite interleave_cons, advance_second. cbn [step_request fst snd store].
  rewrite interleave_cons, advance_first. cbn [step_request fst snd store].
  rewrite interleave_nil. reflexivity.
Qed.

(** X9: what a listing shows, and what it rests on.  When the requests
    are served one after the other, each answered before the next is
    taken up, and the cache entry is absent or holds the current rows
    to begin with, then after any sequence of listings, creations
    (successful or not, strike-offs included) and expiries of the
    entry, [GET /tickets] answers with the rows as the store has them
    now, never with an empty list; it answers 404 only when the table
    is empty, and 500 only when the store cannot be read and nothing is
    cached.  The steps of a request, taken with nothing in between,
    are that request.  But nothing keeps two requests apart: a [POST]
    served between the store read and the cache write of a [GET]
    leaves the rows from before the creation in the cache, after its
    own deletion of the entry, and the listings that follow show them
    in place of the rows of the store. *)
Theorem listing_is_current (app : App View) requests :
  coherent joined app ->
  let app' := fold_left (serve View joined) requests app in
  (coherent joined app' /\
   match fst (get_tickets View joined app') with
   | Ret rows =>
       rows = map (joined (users (store View app'))) (tickets (store View app'))
       /\ rows <> []
   | Throw (HttpError status _) =>
       all_tickets View app' = None
       /\ ((status = 404 /\ tickets (store View app') = []
            /\ find_fails (store View app') = false)
           \/ (status = 500 /\ find_fails (store View app') = true))
   end) /\
  (Overlap.alone (step_request View joined) 3 (GetLookup View) app' =
     (GetAnswered View (fst (get_tickets View joined app')),
      snd (get_tickets View joined app')) /\
   forall ty company,
     Overlap.alone (step_request View joined) 2 (PostCreate View ty company) app' =
     (PostAnswered View (fst (create View ty company app')),
      snd (create View ty company app'))) /\
  (forall ty company t db',
     all_tickets View app' = None ->
     find_fails (store View app') = false ->
     tickets (store View app') <> [] ->
     createTicket ty company (store View app') = (Ret t, db') ->
     let old := map (joined (users (store View app'))) (tickets (store View app')) in
     let late := {| store := db'; all_tickets := Some old |} in
     Overlap.interleave (step_request View joined) post_within_get
       [GetLookup View; PostCreate View ty company] app'
     = ([GetAnswered View (Ret old); PostAnswered View (Ret t)], late)
     /\ fst (get_tickets View joined late) = Ret old
     /\ List.length (tickets (store View late)) = S (List.length old)
     /\ ~ coherent joined late).
Proof.
  intros Hc. cbv zeta.
  pose proof (serve_all_coherent app requests Hc) as Hc'.
  set (app' := fold_left (serve View joined) requests app) in *.
  split; [| split].
  - split; [exact Hc' |].
    unfold get_tickets.
    destruct Hc' as [Hnone | [Hne Hsome]].
    + rewrite Hnone, findAll_handler_cases.
      destruct (find_fails (store View app')); cbn [fst].
      * split; [reflexivity |]. right. now split.
      * destruct (tickets (store View app')) as [| x l] eqn:Ht; cbn [fst].
        -- split; [reflexivity |]. left. now repeat split.
        -- split; [reflexivity | discriminate].
    + rewrite Hsome. cbn [fst]. split; [reflexivity |].
      intros E. apply map_eq_nil in E. contradiction.
  - split; [apply get_alone | intros ty company; apply post_alone].
  - intros ty company t db' Hcache Hfind Hrows Hrun.
    assert (Hlen : List.length (tickets db')
                   = S (List.length (map (joined (users (store View app')))
                                       (tickets (store View app'))))).
    { pose proof (createTicket_shape ty company (store View app')) as H.
      cbv zeta in H. rewrite Hrun in H. cbn [fst snd] in H.
      destruct H as [_ [_ [_ [_ [_ [_ [_ [_ [_ [[f [_ Ht]] _]]]]]]]]]].
      rewrite Ht, length_app, !length_map. cbn [List.length]. lia. }
    split; [now apply post_within_get_caches_old_rows |].
    split; [reflexivity |]. split; [exact Hlen |].
    intros [Hnone | [_ Hsome]]; [discriminate Hnone |].
    cbn [store all_tickets] in Hsome. injection Hsome as Hsome.
    apply (f_equal (@List.length View)) in Hsome.
    rewrite !length_map in Hsome. rewrite length_map in Hlen. lia.
Qed.

End TicketEndpoints.

(** The sample store behind an empty cache.  Served one after the
    other: a listing, a strike-off for company 1 and a listing again.
    Overlapping: the strike-off served within the listing; the
    listings that follow show tickets 1 and 2 as open, which the store
    has resolved. *)
Lemma listing_is_current_witness :
  let app := {| TicketsApi.store := TicketsSpec.sample_db;
                TicketsApi.all_tickets := None |} in
  let requests := [TicketsApi.GetTickets;
                   TicketsApi.PostTicket Tickets.strikeOff 1;
                   TicketsApi.GetTickets] in
  let served := fold_left (TicketsApi.serve Tickets.Ticket (fun _ t => t)) requests app in
  let late :=
    snd (Overlap.interleave (TicketsApi.step_request Tickets.Ticket (fun _ t => t))
           TicketsApi.post_within_get
           [TicketsApi.GetLookup Tickets.Ticket;
            TicketsApi.PostCreate Tickets.Ticket Tickets.strikeOff 1] app) in
  TicketsProps.coherent (fun _ t => t) app /\
  TicketsProps.coherent (fun _ t => t) served /\
  map Tickets.status
    (match fst (TicketsApi.get_tickets Tickets.Ticket (fun _ t => t) served)
     with Eff.Ret rows => rows | Eff.Throw _ => [] end)
  = map Tickets.status (Tickets.tickets (TicketsApi.store Tickets.Ticket served)) /\
  fst (TicketsApi.get_tickets Tickets.Ticket (fun _ t => t) late)
  = Eff.Ret TicketsSpec.sample_tickets /\
  map Tickets.status (Tickets.tickets (TicketsApi.store Tickets.Ticket late))
  = [Tickets.resolved; Tickets.resolved; Tickets.resolved; Tickets.open; Tickets.open].
Proof.
  cbv zeta.
  assert (H : TicketsProps.coherent (fun (_ : list Tickets.User) (t : Tickets.Ticket) => t)
                {| TicketsApi.store := TicketsSpec.sample_db;
                   TicketsApi.all_tickets := None |})
    by (left; reflexivity).
  split; [exact H |].
  pose proof (listing_is_current Tickets.Ticket (fun _ t => t) _
                [TicketsApi.GetTickets;
                 TicketsApi.PostTicket Tickets.strikeOff 1;
                 TicketsApi.GetTickets] H) as Hserved.
  cbv zeta in Hserved. destruct Hserved as [[Hcoherent _] _].
  split; [exact Hcoherent |].
  split; [vm_compute; reflexivity |].
  pose proof (listing_is_current Tickets.Ticket (fun _ t => t) _ [] H) as Hnow.
  cbv zeta in Hnow. destruct Hnow as [_ [_ Hoverlap]]. cbn [fold_left] in Hoverlap.
  destruct (Hoverlap Tickets.strikeOff 1 _ _ eq_refl eq_refl
              ltac:(discriminate) eq_refl) as [Hpool [Hget _]].
  rewrite Hpool. cbn [snd]. split; [exact Hget |].
  vm_compute. reflexivity.
Defined.

(** * The financial statement *)
Section FinancialStatement.

Import JsNum JsObject Eff EffNotations Reports ReportsSpec.

Open Scope string_scope.

Lemma fold_files {A} (line : A -> string -> A) contents (init : A) :
  fold_left (fun acc content => fold_left line (lines_of content) acc) contents init =
  fold_left line (List.concat (map lines_of contents)) init.
Proof.
  revert init. induction contents as [| c cs IH]; intros init; [reflexivity |].
  cbn [fold_left map List.concat]. now rewrite fold_left_app, IH.
Qed.

Lemma initial_balances_zero a :
  In a (List.concat categories) -> get_own a initial_balances = Some zero.
Proof.
  cbn [categories List.concat app Revenues Expenses Assets Liabilities Equity In].
  intros H.
  repeat (destruct H as [<- | H]; [reflexivity |]). destruct H.
Qed.

Lemma fs_lines_balances lines :
  map fst (fold_left fs_line lines initial_balances) = List.concat categories /\
  forall a, In a (List.concat categories) ->
            get_own a (fold_left fs_line lines initial_balances)
            = Some (account_sum a lines).
Proof.
  induction lines as [| l lines [IHk IHv]] using rev_ind.
  - split; [reflexivity | exact initial_balances_zero].
  - rewrite fold_left_app. cbn [fold_left].
    set (b := fold_left fs_line lines initial_balances) in *.
    unfold fs_line. cbv zeta. fold (line_key l). fold (line_net l).
    destruct (get_own (line_key l) b) as [x |] eqn:Hx.
    + assert (Hk : In (line_key l) (List.concat categories)).
      { rewrite <- IHk. clear - Hx. induction b as [| [k0 v0] b IH]; [discriminate |].
        cbn [get_own] in Hx. cbn [map fst In].
        destruct (String.eqb (line_key l) k0) eqn:E.
        - left. symmetry. now apply String.eqb_eq.
        - right. now apply IH. }
      assert (Hproto : line_key l <> proto_accessor).
      { intros E. rewrite E in Hk. clear - Hk.
        cbn [categories List.concat app Revenues Expenses Assets Liabilities Equity In] in Hk.
        repeat (destruct Hk as [Hk | Hk]; [discriminate Hk |]). destruct Hk. }
      split.
      * unfold set, hasOwnProperty. rewrite Hx. now rewrite map_fst_replace.
      * intros a Ha. rewrite account_sum_snoc.
        destruct (String.eqb (line_key l) a) eqn:E.
        -- apply String.eqb_eq in E. subst a.
           rewrite get_own_set_same by exact Hproto.
           rewrite (IHv _ Ha) in Hx. injection Hx as <-. reflexivity.
        -- rewrite get_own_set_other; [now apply IHv |].
           intros ->. now rewrite String.eqb_refl in E.
    + split; [exact IHk |].
      intros a Ha. rewrite account_sum_snoc.
      destruct (String.eqb (line_key l) a) eqn:E; [| now apply IHv].
      apply String.eqb_eq in E. subst a. rewrite (IHv _ Ha) in Hx. discriminate Hx.
Qed.

(** X10: the balances of the financial statement.  Whatever the files
    hold, the balance object keeps exactly the accounts of
    [categories], in their order: a line on any other account (a
    missing one, ['hasOwnProperty'], ['__proto__']) changes nothing.
    The balance of an account of [categories] is the sum of debit less
    credit over its lines in the order processed, started at [0] and
    with no reset of a balance that has become [0] or [NaN]; the
    report has for it the line [account,value] where the value is that
    sum, or [0] if the sum is [NaN] or a zero. *)
Theorem fs_balances contents :
  let balances := fold_left fs_file contents initial_balances in
  let lines := List.concat (map lines_of contents) in
  map fst balances = List.concat categories /\
  forall a, In a (List.concat categories) ->
    get_own a balances = Some (account_sum a lines) /\
    In (a ++ "," ++ toFixed2 (if truthy (account_sum a lines)
                              then account_sum a lines else zero))
       (fs_output balances).
Proof.
  cbv zeta. unfold fs_file. rewrite fold_files.
  destruct (fs_lines_balances (List.concat (map lines_of contents))) as [Hk Hv].
  split; [exact Hk |]. intros a Ha. split; [now apply Hv |].
  set (b := fold_left fs_line _ initial_balances) in *.
  assert (Hline : forall group, In a group ->
            In (a ++ "," ++ toFixed2 (if truthy (account_sum a (List.concat (map lines_of contents)))
                                      then account_sum a (List.concat (map lines_of contents))
                                      else zero))
               (group_lines b group)).
  { intros group Hg. unfold group_lines. apply in_map_iff. exists a.
    split; [| exact Hg]. unfold value_of. now rewrite (Hv a Ha). }
  unfold fs_output. cbv zeta.
  cbn [categories List.concat] in Ha. rewrite app_nil_r in Ha.
  rewrite !in_app_iff in Ha. rewrite !in_app_iff.
  destruct Ha as [Ha | [Ha | [Ha | [Ha | Ha]]]]; apply Hline in Ha; tauto.
Qed.

End FinancialStatement.

(** * The yearly report *)
Section YearlyReport.

Import JsNum JsObject Eff EffNotations Reports ReportsSpec ReportsProps.

Open Scope string_scope.

(** ** Code-unit order *)

Lemma ltb_irrefl a : JsString.ltb a a = false.
Proof.
  induction a as [| c a IH]; [reflexivity |].
  cbn [JsString.ltb]. now rewrite N.ltb_irrefl.
Qed.

Lemma ltb_total a b :
  JsString.ltb a b = false -> a <> b -> JsString.ltb b a = true.
Proof.
  revert b. induction a as [| x a IH]; intros [| y b]; cbn [JsString.ltb];
    try congruence.
  destruct (N.ltb_spec (N_of_ascii x) (N_of_ascii y)); [discriminate |].
  destruct (N.ltb_spec (N_of_ascii y) (N_of_ascii x)); [reflexivity |].
  assert (E : x = y).
  { rewrite <- (ascii_N_embedding x), <- (ascii_N_embedding y). f_equal. lia. }
  subst y. intros Hlt Hne. apply IH; [assumption | congruence].
Qed.

Lemma insert_sorted_perm k l : Permutation (insert_sorted k l) (k :: l).
Proof.
  induction l as [| x l IH]; [reflexivity |].
  cbn [insert_sorted]. destruct (JsString.ltb x k); [| reflexivity].
  rewrite IH. apply perm_swap.
Qed.

Lemma sort_keys_perm l : Permutation (sort_keys l) l.
Proof.
  induction l as [| k l IH]; [reflexivity |].
  cbn [sort_keys fold_right]. rewrite insert_sorted_perm. now constructor.
Qed.

Lemma insert_sorted_ascending k l :
  ascending l -> ~ In k l -> ascending (insert_sorted k l).
Proof.
  induction l as [| x l IH]; intros Hl Hk; [now split |].
  cbn [insert_sorted]. destruct (JsString.ltb x k) eqn:E.
  - destruct Hl as [Hx Hl].
    assert (Hk' : ~ In k l) by (intros H; apply Hk; now right).
    specialize (IH Hl Hk'). split; [| exact IH].
    destruct l as [| y l]; cbn [insert_sorted] in *; [exact E |].
    destruct (JsString.ltb y k); assumption.
  - split; [| exact Hl]. apply ltb_total; [exact E |].
    intros ->. apply Hk. now left.
Qed.

Lemma sort_keys_ascending l : NoDup l -> ascending (sort_keys l).
Proof.
  induction l as [| k l IH]; intros Hnd; [exact I |].
  inversion Hnd as [| k' l' Hk Hl]; subst.
  cbn [sort_keys fold_right]. apply insert_sorted_ascending; [now apply IH |].
  intros Hin. apply Hk.
  now apply (Permutation_in k (sort_keys_perm l)).
Qed.

(** ** The keys of an object *)

Lemma insert_index_perm x l : Permutation (insert_index x l) (x :: l).
Proof.
  induction l as [| y l IH]; [reflexivity |].
  cbn [insert_index]. destruct (Z.leb (fst x) (fst y)); [reflexivity |].
  rewrite IH. apply perm_swap.
Qed.

Lemma keys_perm {V} (o : obj V) : Permutation (keys o) (map fst o).
Proof.
  unfold keys, name_keys. induction o as [| [k v] o IH]; [reflexivity |].
  cbn [index_keys map fst filter]. destruct (index_of k) as [i |].
  - rewrite insert_index_perm. cbn [map snd app]. now constructor.
  - rewrite <- Permutation_middle. now constructor.
Qed.

(** ** The loop over the lines *)

Lemma tally_snoc k ps p :
  tally k (ps ++ [p])%list =
  if String.eqb (fst p) k
  then add (if truthy (tally k ps) then tally k ps else zero) (snd p)
  else tally k ps.
Proof. unfold tally. now rewrite fold_left_app. Qed.

Lemma tally_absent k ps : mem k (map fst ps) = false -> tally k ps = zero.
Proof.
  induction ps as [| p ps IH] using rev_ind; [reflexivity |].
  rewrite map_app, mem_app. cbn [map mem existsb]. rewrite orb_false_r.
  intros H. apply orb_false_elim in H as [Hps Hp].
  rewrite tally_snoc, String.eqb_sym, Hp. now apply IH.
Qed.

(** After the loop the object holds, for each key in the order first
    met, what the loop has added up. *)
Lemma accumulate_pairs ps :
  Forall (fun p => inherited (fst p) = false) ps ->
  fold_left (fun o p => accumulate o (fst p) (snd p)) ps [] =
  map (fun a => (a, CNum (tally a ps))) (distinct (map fst ps)).
Proof.
  induction ps as [| p ps IH] using rev_ind; intros Hplain; [reflexivity |].
  apply Forall_app in Hplain as [Hps Hp].
  inversion Hp as [| p' l' Hkp _]; subst.
  rewrite fold_left_app. cbn [fold_left]. rewrite (IH Hps).
  rewrite map_app. cbn [map]. rewrite distinct_snoc.
  set (k := fst p) in *. set (D := distinct (map fst ps)).
  pose proof (get_own_table (fun a => CNum (tally a ps)) D k) as Hown.
  destruct (mem k D) eqn:Hmem.
  - rewrite (accumulate_known _ _ _ _ Hown).
    rewrite replace_table by apply NoDup_distinct.
    apply map_ext. intros a. rewrite tally_snoc. fold k.
    rewrite (String.eqb_sym a k).
    destruct (String.eqb k a) eqn:E; [| reflexivity].
    apply String.eqb_eq in E. now subst a.
  - rewrite (accumulate_new _ _ _ Hkp Hown).
    rewrite map_app. cbn [map]. f_equal.
    + apply map_ext_in. intros a Ha. rewrite tally_snoc. fold k.
      destruct (String.eqb k a) eqn:E; [| reflexivity].
      apply String.eqb_eq in E. subst a. apply mem_In in Ha. congruence.
    + rewrite tally_snoc. fold k. rewrite String.eqb_refl.
      unfold D in Hmem. rewrite mem_distinct in Hmem.
      now rewrite (tally_absent k ps Hmem).
Qed.

Lemma yearly_lines_bookings h lines o :
  fold_left (yearly_line h) lines o =
  fold_left (fun o p => accumulate o (fst p) (snd p)) (bookings h lines) o.
Proof.
  revert o. induction lines as [| l lines IH]; intros o; [reflexivity |].
  cbn [fold_left]. rewrite IH. unfold bookings. cbn [filter].
  unfold yearly_line at 1, is_cash. cbv zeta.
  destruct (account (destructure l)) as [a |]; [| reflexivity].
  destruct (String.eqb a "Cash"); reflexivity.
Qed.

(** ** A year is never a name of the prototype *)

Lemma digit_first_not_inherited c r :
  JsString.is_digit c = true \/ c = "-"%char -> inherited (String c r) = false.
Proof.
  intros [H | ->]; [| reflexivity].
  destruct c as [[] [] [] [] [] [] [] []]; try discriminate H; reflexivity.
Qed.

Lemma year_key_not_inherited y : inherited (year_key y) = false.
Proof.
  destruct y as [z |]; [| reflexivity]. cbn [year_key].
  assert (Hn : forall n, inherited (JsString.of_N n) = false).
  { intros n. destruct (of_N_digits n) as [c [cs [Hs Hd]]].
    destruct (JsString.of_N n) as [| c' r]; [discriminate Hs |].
    cbn [list_ascii_of_string] in Hs. injection Hs as -> _.
    cbn [forallb] in Hd. apply andb_prop in Hd as [Hd _].
    apply digit_first_not_inherited. now left. }
  destruct z as [| p | p]; cbn [JsString.of_Z]; try apply Hn.
  apply digit_first_not_inherited. now right.
Qed.

(** X11: the yearly report.  Whatever the files hold, building the
    output never throws: every key of [cashByYear] is the decimal of a
    year or ['NaN'], never a name the object inherits.  The report is
    the header and one line [year,balance] per year of a ['Cash'] line,
    the years being strictly ascending as strings (so a year ['10000']
    comes before ['2024']) and the balance of a year being the sum of
    debit less credit over its lines in the order processed, a sum
    that is [0] or [NaN] being put back to [0] before the next line
    is added; lines of other accounts and lines with no account
    change nothing. *)
Theorem yearly_report h contents :
  let lines := List.concat (map lines_of contents) in
  exists ys,
    yearly_output (fold_left (yearly_file h) contents []) =
      Ret ("Financial Year,Cash Balance"
           :: map (fun y => y ++ "," ++ toFixed2 (year_sum h y lines)) ys)
    /\ Permutation ys (years h lines)
    /\ ascending ys.
Proof.
  cbv zeta. set (lines := List.concat (map lines_of contents)).
  assert (Hfold : fold_left (yearly_file h) contents [] =
                  map (fun y => (y, CNum (year_sum h y lines))) (years h lines)).
  { unfold yearly_file. rewrite fold_files. fold lines.
    rewrite yearly_lines_bookings. apply accumulate_pairs.
    unfold bookings. apply Forall_forall. intros p Hp.
    apply in_map_iff in Hp as [l [<- _]]. apply year_key_not_inherited. }
  rewrite Hfold.
  set (o := map (fun y => (y, CNum (year_sum h y lines))) (years h lines)).
  assert (Hfst : map fst o = years h lines).
  { unfold o. rewrite map_map. cbn [fst]. apply map_id. }
  assert (Hperm : Permutation (sort_keys (keys o)) (years h lines)).
  { rewrite sort_keys_perm, keys_perm. now rewrite Hfst. }
  exists (sort_keys (keys o)). split; [| split].
  - unfold yearly_output.
    assert (Hmap : map (fun year => (year, get o year)) (sort_keys (keys o))
                   = map (fun k => (k, Own (CNum (year_sum h k lines))))
                       (sort_keys (keys o))).
    { apply map_ext_in. intros k Hk. unfold get, o.
      rewrite (get_own_table (fun a => CNum (year_sum h a lines)) (years h lines) k).
      apply (Permutation_in k Hperm) in Hk. apply mem_In in Hk. now rewrite Hk. }
    rewrite Hmap, balance_lines_numbers. reflexivity.
  - exact Hperm.
  - apply sort_keys_ascending.
    apply (Permutation_NoDup (l := years h lines)).
    + symmetry. rewrite keys_perm. now rewrite Hfst.
    + apply NoDup_distinct.
Qed.

End YearlyReport.

(** * Lines that are not rows *)
Section OddLines.

Import JsNum JsObject Eff EffNotations Reports ReportsSpec ReportsProps.

Open Scope string_scope.

Lemma split_no_sep sep s :
  forallb (fun c => negb (Ascii.eqb c sep)) (list_ascii_of_string s) = true ->
  JsString.split sep s = [s].
Proof.
  induction s as [| c s IH]; [reflexivity |].
  cbn [list_ascii_of_string forallb JsString.split]. intros H.
  apply andb_prop in H as [Hc Hs]. apply negb_true_iff in Hc.
  now rewrite Hc, (IH Hs).
Qed.

Lemma destructure_no_comma line :
  no_comma line = true ->
  destructure line = {| date := line; account := None; debit := None; credit := None |}.
Proof.
  intros H. unfold destructure. cbv zeta. fold (JsString.split "," line).
  now rewrite (split_no_sep _ _ H).
Qed.

Lemma trimStart_all_space s : all_space s = true -> JsString.trimStart s = "".
Proof.
  unfold all_space. induction s as [| c s IH]; [reflexivity |].
  cbn [list_ascii_of_string forallb JsString.trimStart]. intros H.
  apply andb_prop in H as [Hc Hs]. rewrite Hc. now apply IH.
Qed.

(** X12: a line without a comma (an empty line, a heading of one word)
    has no account, no debit and no credit.  The accounts generator
    books it with the amount [0] on the account ['undefined'], which it
    creates if need be; the yearly generator and the financial
    statement skip it. *)
Theorem line_without_comma line :
  no_comma line = true ->
  (forall balances, accounts_line balances line = accumulate balances "undefined" zero) /\
  (forall h cashByYear, yearly_line h cashByYear line = cashByYear) /\
  (forall contents,
     fs_line (fold_left fs_file contents initial_balances) line
     = fold_left fs_file contents initial_balances).
Proof.
  intros H. pose proof (destructure_no_comma line H) as Hd. split; [| split].
  - intros balances. unfold accounts_line. cbv zeta. rewrite Hd. reflexivity.
  - intros h c. unfold yearly_line. cbv zeta. now rewrite Hd.
  - intros contents. unfold fs_line. cbv zeta. rewrite Hd.
    cbn [account prop_key].
    unfold fs_file. rewrite fold_files.
    destruct (fs_lines_balances (List.concat (map lines_of contents))) as [Hk _].
    rewrite get_own_not_In; [reflexivity |].
    rewrite Hk. cbn. intuition discriminate.
Qed.

(** The heading of a ledger that has no column separators. *)
Lemma line_without_comma_witness :
  no_comma "Ledger 2024" = true /\
  accounts_line [("Cash", CNum one)] "Ledger 2024"
  = [("Cash", CNum one); ("undefined", CNum zero)].
Proof.
  assert (H : no_comma "Ledger 2024" = true) by reflexivity.
  split; [exact H |].
  rewrite (proj1 (line_without_comma "Ledger 2024" H)). vm_compute. reflexivity.
Defined.

(** X13: a staging file that is empty or holds only white space is
    read as one empty line; on its own it makes the accounts report
    the header and the line [undefined,0.00]. *)
Theorem blank_file_reported content :
  all_space content = true ->
  lines_of content = [""] /\
  accounts_output (accounts_file [] content) = Ret ["Account,Balance"; "undefined,0.00"].
Proof.
  intros H.
  assert (Hl : lines_of content = [""]).
  { unfold lines_of, JsString.trim. now rewrite (trimStart_all_space _ H). }
  split; [exact Hl |]. unfold accounts_file. rewrite Hl. vm_compute. reflexivity.
Qed.

(** A file of two blank lines. *)
Lemma blank_file_reported_witness :
  let content := String " " (String LF (String " " EmptyString)) in
  all_space content = true /\
  accounts_output (accounts_file [] content) = Ret ["Account,Balance"; "undefined,0.00"].
Proof.
  cbv zeta.
  assert (H : all_space (String " " (String LF (String " " EmptyString))) = true)
    by reflexivity.
  split; [exact H |].
  exact (proj2 (blank_file_reported _ H)).
Defined.

End OddLines.

(** * What a generator reads and writes *)
Section GeneratorRuns.

Import JsNum JsObject Eff EffNotations Reports ReportsSpec ReportsProps.

Open Scope string_scope.

Lemma consume_fold_from {A} h (step : A -> string -> A) paths init pre :
  consume h step paths (fold_left step pre init) =
  match consume h (fun cs content => (cs ++ [content])%list) paths pre with
  | Ret contents => Ret (fold_left step contents init)
  | Throw e => Throw e
  end.
Proof.
  revert pre. induction paths as [| p paths IH]; intros pre; [reflexivity |].
  cbn [consume]. destruct (readFile h p) as [content | e]; [| reflexivity].
  rewrite <- IH. now rewrite fold_left_app.
Qed.

Lemma consume_fold {A} h (step : A -> string -> A) paths init :
  consume h step paths init =
  match contents_of h paths with
  | Ret contents => Ret (fold_left step contents init)
  | Throw e => Throw e
  end.
Proof. exact (consume_fold_from h step paths init []). Qed.

Lemma writes_app a b : writes (a ++ b)%list = (writes a ++ writes b)%list.
Proof. unfold writes. apply flat_map_app. Qed.

Lemma writes_reads paths : writes (map ReadFile paths) = [].
Proof. induction paths as [| p paths IH]; [reflexivity | exact IH]. Qed.

Lemma read_each_runs {A} h dir files (step : A -> string -> A) acc :
  exists n,
    runs_as (read_each h dir files step acc)
            (consume h step (map (path_join dir) files) acc)
            (map ReadFile (firstn n (map (path_join dir) files))).
Proof.
  revert acc. induction files as [| f files IH]; intros acc.
  - exists 0%nat. intros w. cbn. unfold ret. now rewrite log_nil.
  - cbn [read_each map consume].
    destruct (readFile h (path_join dir f)) as [content | e] eqn:Hread.
    + destruct (IH (step acc content)) as [n Hrun].
      exists (S n). intros w. unfold bind at 1. unfold modify at 1. unfold bind at 1.
      unfold lift at 1. rewrite Hrun, log_log. reflexivity.
    + exists 1%nat. intros w. unfold bind at 1. unfold modify at 1. unfold bind at 1.
      unfold lift at 1. reflexivity.
Qed.

Ltac run_through :=
  rewrite ?log_log; cbn [app]; rewrite <- ?app_assoc; cbn [app]; reflexivity.

(** What an asynchronous generator asks of the file system. *)
Lemma report_io_runs h r :
  match readdir h "tmp" with
  | Throw e => runs_as (report_io h r) (Throw e) [Readdir "tmp"]
  | Ret files =>
      let reads := map ReadFile (input_paths r files) in
      match rendered h r (completion_order h (input_paths r files)) with
      | Ret data =>
          runs_as (report_io h r) (writeFile h (output_file r) data)
                  (Readdir "tmp" :: reads ++ [WriteFile (output_file r) data])
      | Throw e => runs_as (report_io h r) (Throw e) (Readdir "tmp" :: reads)
      end
  end.
Proof.
  unfold rendered, input_paths.
  destruct (readdir h "tmp") as [files | e] eqn:Hdir.
  - cbv zeta.
    destruct r; cbn [report_io input_filter output_file render];
      unfold accounts_io, yearly_io, fs_io;
      match goal with
      | |- context [contents_of h ?p] =>
          destruct (contents_of h p) as [contents | e] eqn:Hc
      end;
      try match goal with
          | |- context [accounts_output ?b] =>
              destruct (accounts_output b) as [output | e] eqn:Ho
          | |- context [yearly_output ?b] =>
              destruct (yearly_output b) as [output | e] eqn:Ho
          end;
      intros w; unfold bind, do_readdir, do_writeFile, read_all, modify, lift, bind;
      rewrite Hdir, consume_fold, Hc; rewrite ?Ho; run_through.
  - intros w. destruct r; cbn [report_io];
      unfold accounts_io, yearly_io, fs_io, bind, do_readdir, modify, lift;
      now rewrite Hdir.
Qed.

(** What a synchronous generator asks of the file system. *)
Lemma sync_io_runs h r :
  match readdir h "tmp" with
  | Throw e => runs_as (sync_io h r) (Throw e) [Readdir "tmp"]
  | Ret files =>
      exists n,
        let reads := map ReadFile (firstn n (input_paths r files)) in
        match rendered h r (input_paths r files) with
        | Ret data =>
            runs_as (sync_io h r) (writeFile h (output_file r) data)
                    (Readdir "tmp" :: reads ++ [WriteFile (output_file r) data])
        | Throw e => runs_as (sync_io h r) (Throw e) (Readdir "tmp" :: reads)
        end
  end.
Proof.
  unfold rendered, input_paths.
  destruct (readdir h "tmp") as [files | e] eqn:Hdir.
  - assert (Hreads : forall A (step : A -> string -> A) acc,
              exists n,
                runs_as (read_each h "tmp" (filter (input_filter r) files) step acc)
                        (match contents_of h (map (path_join "tmp")
                                                (filter (input_filter r) files)) with
                         | Ret contents => Ret (fold_left step contents acc)
                         | Throw e => Throw e
                         end)
                        (map ReadFile
                           (firstn n (map (path_join "tmp")
                                        (filter (input_filter r) files))))).
    { intros A step acc.
      destruct (read_each_runs h "tmp" (filter (input_filter r) files) step acc)
        as [n Hrun].
      exists n. now rewrite <- consume_fold. }
    destruct r; cbn [sync_io input_filter output_file render] in *;
      [ destruct (Hreads _ accounts_file []) as [n Hrun]
      | destruct (Hreads _ (yearly_file h) []) as [n Hrun]
      | destruct (Hreads _ fs_file initial_balances) as [n Hrun] ];
      exists n;
      match goal with
      | |- context [contents_of h ?p] =>
          destruct (contents_of h p) as [contents | e] eqn:Hc
      end;
      try match goal with
          | |- context [accounts_output ?b] =>
              destruct (accounts_output b) as [output | e] eqn:Ho
          | |- context [yearly_output ?b] =>
              destruct (yearly_output b) as [output | e] eqn:Ho
          end;
      intros w; unfold bind at 1; unfold do_readdir, bind, modify, lift;
      rewrite Hdir, Hrun; unfold do_writeFile, bind, modify, lift;
      rewrite ?Ho; run_through.
  - intros w. destruct r; cbn [sync_io];
      unfold bind, do_readdir, modify, lift; now rewrite Hdir.
Qed.

Lemma generator_conclude h tm r w :
  generator h tm r w = conclude r tm (report_io h r (started r w)).
Proof. now rewrite generator_is_start_rest, rest_conclude. Qed.

(** X14: what an asynchronous generator does with its files.  When
    the listing of [tmp] and the reads of the entries its filter lets
    through succeed, the generator has issued the listing, a read per
    such entry in listing order, and then, if the text could be made
    of the contents taken in the order the reads completed, one write
    of that text to its own file under [out], on whose success alone
    the report then depends; if making the text throws (an account
    named like a property of [Object.prototype], in the accounts
    report), nothing is written and the report fails with that
    error. *)
Theorem generator_writes_render h tm r w files contents :
  readdir h "tmp" = Ret files ->
  contents_of h (completion_order h (input_paths r files)) = Ret contents ->
  let reads := map ReadFile (input_paths r files) in
  match render h r contents with
  | Ret data =>
      trace (snd (generator h tm r w)) =
        (trace w ++ Readdir "tmp" :: reads ++ [WriteFile (output_file r) data])%list
      /\ verdict h r = writeFile h (output_file r) data
  | Throw e =>
      trace (snd (generator h tm r w)) = (trace w ++ Readdir "tmp" :: reads)%list
      /\ verdict h r = Throw e
  end.
Proof.
  intros Hdir Hc. cbv zeta.
  pose proof (report_io_runs h r) as Hrun. rewrite Hdir in Hrun. cbv zeta in Hrun.
  unfold rendered in Hrun. rewrite Hc in Hrun.
  rewrite generator_conclude, trace_conclude. unfold verdict.
  destruct (render h r contents) as [data | e]; rewrite !Hrun; now split.
Qed.

(** The file of the integration test, and an account named
    [toString]. *)
Lemma generator_writes_render_witness :
  let h := host_with [("test.csv", test_csv)] "" in
  let h' := host_with [("odd.csv", "2024-01-01,toString,,1,0")] "" in
  (readdir h "tmp" = Ret ["test.csv"] /\
   contents_of h (completion_order h (input_paths YEARLY ["test.csv"])) = Ret [test_csv] /\
   trace (snd (generator h sample_timing YEARLY blank)) =
     [Readdir "tmp"; ReadFile "tmp/test.csv";
      WriteFile "out/yearly.csv"
        (JsString.join newline ["Financial Year,Cash Balance"; "2024,1000.00"])]) /\
  (trace (snd (generator h' sample_timing ACCOUNTS blank)) =
     [Readdir "tmp"; ReadFile "tmp/odd.csv"] /\
   verdict h' ACCOUNTS = Throw "balance.toFixed is not a function").
Proof.
  cbv zeta. split.
  - assert (H1 : readdir (host_with [("test.csv", test_csv)] "") "tmp"
                 = Ret ["test.csv"]) by reflexivity.
    assert (H2 : contents_of (host_with [("test.csv", test_csv)] "")
                   (completion_order (host_with [("test.csv", test_csv)] "")
                      (input_paths YEARLY ["test.csv"])) = Ret [test_csv])
      by (vm_compute; reflexivity).
    split; [exact H1 |]. split; [exact H2 |].
    pose proof (generator_writes_render _ sample_timing YEARLY blank _ _ H1 H2) as H.
    cbv zeta in H.
    assert (Hr : render (host_with [("test.csv", test_csv)] "") YEARLY [test_csv]
                 = Ret (JsString.join newline
                          ["Financial Year,Cash Balance"; "2024,1000.00"]))
      by (vm_compute; reflexivity).
    rewrite Hr in H. exact (proj1 H).
  - assert (H1 : readdir (host_with [("odd.csv", "2024-01-01,toString,,1,0")] "") "tmp"
                 = Ret ["odd.csv"]) by reflexivity.
    assert (H2 : contents_of (host_with [("odd.csv", "2024-01-01,toString,,1,0")] "")
                   (completion_order (host_with [("odd.csv", "2024-01-01,toString,,1,0")] "")
                      (input_paths ACCOUNTS ["odd.csv"]))
                 = Ret ["2024-01-01,toString,,1,0"])
      by (vm_compute; reflexivity).
    pose proof (generator_writes_render _ sample_timing ACCOUNTS blank _ _ H1 H2) as H.
    cbv zeta in H.
    assert (Hr : render (host_with [("odd.csv", "2024-01-01,toString,,1,0")] "") ACCOUNTS
                   ["2024-01-01,toString,,1,0"]
                 = Throw "balance.toFixed is not a function")
      by (vm_compute; reflexivity).
    rewrite Hr in H. exact H.
Defined.

Lemma sync_metrics h tm r w : metrics_of (snd (sync h tm r w)) = metrics_of w.
Proof.
  destruct (sync_cases h tm r w) as [ops [H | H]]; rewrite H; reflexivity.
Qed.

Lemma status_sync_finished r tm w :
  status_of (sync_finished r tm w) r = Own (finished_in (elapsed tm)).
Proof.
  unfold status_of, sync_finished, state. cbn [service set_states states].
  apply get_set_same. apply ReportType_value_not_proto.
Qed.

Lemma status_sync_finished_other r r' tm w :
  r' <> r -> status_of (sync_finished r tm w) r' = status_of w r'.
Proof.
  intros Hne. unfold status_of, sync_finished, state. cbn [service set_states states].
  apply get_set_other. intros E. apply ReportType_value_inj in E. congruence.
Qed.

(** X15: a synchronous generator ([accounts], [yearly], [fs]) never
    touches the metrics and no status but its own.  Either it returns
    and its status is ['finished in <seconds>'], or it throws, with
    the error of the file system or of the formatting, and its status
    stays ['starting']: there is no ['error: ...'] status for a
    synchronous run. *)
Theorem sync_generator_outcome h tm r w :
  let s := sync h tm r w in
  metrics_of (snd s) = metrics_of w /\
  (forall r', r' <> r -> status_of (snd s) r' = status_of w r') /\
  ((fst s = Ret tt /\ status_of (snd s) r = Own (finished_in (elapsed tm)))
   \/ (exists e, fst s = Throw e /\ status_of (snd s) r = Own "starting")).
Proof.
  cbv zeta. split; [apply sync_metrics |].
  rewrite sync_conclude.
  destruct (logs_only_sync_io h r) as [o [ops H]]. rewrite H.
  destruct o as [[] | e]; cbn [fst snd].
  - split.
    + intros r' Hne.
      now rewrite status_sync_finished_other, status_log, status_started_other.
    + left. split; [reflexivity |]. apply status_sync_finished.
  - split.
    + intros r' Hne. now rewrite status_log, status_started_other.
    + right. exists e. split; [reflexivity |].
      rewrite status_log. apply status_started.
Qed.

(** X16: the two versions of a generator agree on the files.  When
    the reads an asynchronous generator issues together complete in
    the order issued, it and its synchronous version succeed or fail
    together, with the same error, and write the same data to the
    same file; the asynchronous one returns [false] and records the
    error where the synchronous one throws. *)
Theorem sync_agrees_with_async h tm r w :
  in_listing_order h r ->
  let s := sync h tm r w in
  let a := generator h tm r w in
  writes (trace (snd s)) = writes (trace (snd a)) /\
  match verdict h r with
  | Ret _ => fst s = Ret tt /\ fst a = Ret true
  | Throw e =>
      fst s = Throw e /\ fst a = Ret false
      /\ status_of (snd a) r = Own ("error: " ++ e)
  end.
Proof.
  intros Horder. cbv zeta.
  assert (Hio : exists ops ops',
             runs_as (sync_io h r) (verdict h r) ops
             /\ runs_as (report_io h r) (verdict h r) ops'
             /\ writes ops = writes ops').
  { pose proof (report_io_runs h r) as Ha. pose proof (sync_io_runs h r) as Hs.
    unfold in_listing_order in Horder. unfold verdict.
    destruct (readdir h "tmp") as [files | e].
    - cbv zeta in Ha. rewrite (Horder files eq_refl) in Ha.
      destruct Hs as [n Hs]. cbv zeta in Hs.
      pose proof (writes_reads (firstn n (input_paths r files))) as Hw.
      destruct (rendered h r (input_paths r files)) as [data | e].
      + rewrite Ha. cbn [fst]. do 2 eexists. split; [exact Hs |]. split; [exact Ha |].
        change (Readdir "tmp" :: ?l) with ([Readdir "tmp"] ++ l)%list.
        rewrite !writes_app, Hw, writes_reads. reflexivity.
      + rewrite Ha. cbn [fst]. do 2 eexists. split; [exact Hs |]. split; [exact Ha |].
        change (Readdir "tmp" :: ?l) with ([Readdir "tmp"] ++ l)%list.
        rewrite !writes_app, Hw, writes_reads. reflexivity.
    - rewrite Ha. cbn [fst]. do 2 eexists. split; [exact Hs |]. split; [exact Ha |].
      reflexivity. }
  destruct Hio as [ops [ops' [Hs [Ha Hw]]]].
  split.
  - rewrite sync_conclude, generator_conclude, Hs, Ha.
    destruct (verdict h r) as [[] | e]; cbn [conclude snd];
      unfold sync_finished, succeeded, failed, started, set_metrics, set_states, log;
      cbn [trace service]; rewrite !writes_app; now rewrite Hw.
  - destruct (verdict h r) as [[] | e] eqn:Ev;
      rewrite sync_conclude, generator_conclude, Hs, Ha; cbn [conclude fst snd].
    + now split.
    + split; [reflexivity |]. split; [reflexivity |]. apply status_failed.
Qed.

(** The file of the integration test behind an output directory that
    refuses the write of the yearly report. *)
Lemma sync_agrees_with_async_witness :
  let h := host_with [("test.csv", test_csv)] "out/yearly.csv" in
  in_listing_order h YEARLY /\
  writes (trace (snd (sync h sample_timing YEARLY blank))) =
    [("out/yearly.csv",
      JsString.join newline ["Financial Year,Cash Balance"; "2024,1000.00"])] /\
  fst (sync h sample_timing YEARLY blank) =
    Throw "EACCES: permission denied, open 'out/yearly.csv'" /\
  fst (generator h sample_timing YEARLY blank) = Ret false.
Proof.
  cbv zeta.
  assert (H : in_listing_order (host_with [("test.csv", test_csv)] "out/yearly.csv") YEARLY).
  { intros files Hfiles. cbn in Hfiles. injection Hfiles as <-. reflexivity. }
  split; [exact H |].
  pose proof (sync_agrees_with_async _ sample_timing YEARLY blank H) as [Hw Hv].
  assert (E : verdict (host_with [("test.csv", test_csv)] "out/yearly.csv") YEARLY
              = Throw "EACCES: permission denied, open 'out/yearly.csv'")
    by (vm_compute; reflexivity).
  rewrite E in Hv. destruct Hv as [Hs [Ha _]].
  split; [| split; [exact Hs | exact Ha]].
  rewrite Hw. vm_compute. reflexivity.
Defined.

End GeneratorRuns.

(** * Sequences of calls *)
Section CallSequences.

Import JsNum JsObject Eff EffNotations Reports ReportsSpec ReportsProps.

Open Scope string_scope.

(** ** The counters *)

Lemma perform_counters w c :
  runs (metrics_of (perform w c)) =
    (if is_pipeline c then add (runs (metrics_of w)) one else runs (metrics_of w))
  /\ lastRun (metrics_of (perform w c)) =
       match c with
       | CallPipeline _ clk _ => Some (run_date clk)
       | _ => lastRun (metrics_of w)
       end.
Proof.
  destruct c as [h clk schedule | h tm r | h tm r]; cbn [perform is_pipeline].
  - rewrite pipeline_run. cbn [snd].
    pose proof (after_generators_shared h clk schedule w) as Hs.
    unfold shared in Hs. injection Hs as Hruns _ _ _.
    unfold metrics_of, getMetrics in *. cbn. now rewrite Hruns.
  - pose proof (generator_shared h tm r w) as Hs.
    unfold shared in Hs. injection Hs as Hruns Hlast _ _. now split.
  - now rewrite sync_metrics.
Qed.

(** X17: the run counter and the time of the last run follow the
    pipeline alone.  On a new service and after any sequence of calls,
    [runs] has been incremented once per call of
    [processReportsAsync], whether its reports succeeded or not, and
    by no call of a single generator, asynchronous or synchronous;
    [lastRun] is the date of the last pipeline call, and [null] as
    long as there was none. *)
Theorem counters_follow_pipeline h config calls :
  let m := metrics_of (after h config calls) in
  runs m = Nat.iter (pipeline_calls calls) (fun x => add x one) zero /\
  lastRun m = last_run_date calls.
Proof.
  cbv zeta. unfold after.
  induction calls as [| c calls [IHr IHl]] using rev_ind.
  - cbn [fold_left]. destruct (new_service_logs h config) as [ops H]. rewrite H.
    now split.
  - rewrite fold_left_app. cbn [fold_left].
    destruct (perform_counters (fold_left perform calls (new_ReportsService h config)) c)
      as [Hr Hl].
    rewrite Hr, Hl, IHr, IHl. unfold pipeline_calls, last_run_date.
    rewrite filter_app, length_app, fold_left_app. cbn [filter fold_left].
    split.
    + destruct (is_pipeline c); cbn [List.length].
      * now rewrite Nat.add_1_r.
      * now rewrite Nat.add_0_r.
    + destruct c; reflexivity.
Qed.

(** ** The calls to the file system *)

Lemma In_firstn {A} (x : A) n l : In x (firstn n l) -> In x l.
Proof.
  revert l. induction n as [| n IH]; intros [| y l]; cbn [firstn In]; try tauto.
  intros [-> | H]; [now left | right; now apply IH].
Qed.

Lemma input_is_csv r file : input_filter r file = true -> is_csv file = true.
Proof.
  destruct r; cbn [input_filter]; unfold is_yearly_input, is_fs_input;
    [tauto | |]; intros H; now apply andb_prop in H as [H _].
Qed.

Lemma reads_allowed r files n :
  Forall allowed (map ReadFile (firstn n (input_paths r files))).
Proof.
  apply Forall_forall. intros op Hop. apply in_map_iff in Hop as [p [<- Hp]].
  apply In_firstn in Hp. unfold input_paths in Hp.
  apply in_map_iff in Hp as [f [<- Hf]]. apply filter_In in Hf as [_ Hf].
  exists f. split; [reflexivity |]. now apply (input_is_csv r).
Qed.

Lemma write_allowed r data : allowed (WriteFile (output_file r) data).
Proof. destruct r; cbn; auto. Qed.

Lemma report_io_allowed h r :
  exists o ops, runs_as (report_io h r) o ops /\ Forall allowed ops.
Proof.
  pose proof (report_io_runs h r) as H.
  destruct (readdir h "tmp") as [files | e].
  - cbv zeta in H.
    pose proof (reads_allowed r files (List.length (input_paths r files))) as Hr.
    rewrite firstn_all in Hr.
    destruct (rendered h r (completion_order h (input_paths r files))) as [data | e];
      do 2 eexists; (split; [exact H |]); constructor; try reflexivity.
    + apply Forall_app. split; [exact Hr |].
      constructor; [apply write_allowed | constructor].
    + exact Hr.
  - do 2 eexists. split; [exact H |]. constructor; [reflexivity | constructor].
Qed.

Lemma sync_io_allowed h r :
  exists o ops, runs_as (sync_io h r) o ops /\ Forall allowed ops.
Proof.
  pose proof (sync_io_runs h r) as H.
  destruct (readdir h "tmp") as [files | e].
  - destruct H as [n H]. cbv zeta in H.
    pose proof (reads_allowed r files n) as Hr.
    destruct (rendered h r (input_paths r files)) as [data | e];
      do 2 eexists; (split; [exact H |]); constructor; try reflexivity.
    + apply Forall_app. split; [exact Hr |].
      constructor; [apply write_allowed | constructor].
    + exact Hr.
  - do 2 eexists. split; [exact H |]. constructor; [reflexivity | constructor].
Qed.

Lemma rest_allowed h tm r w :
  exists ops, trace (snd (rest h tm r w)) = (trace w ++ ops)%list /\ Forall allowed ops.
Proof.
  destruct (report_io_allowed h r) as [o [ops [Hrun Hops]]].
  exists ops. split; [| exact Hops].
  now rewrite rest_conclude, trace_conclude, Hrun.
Qed.

Lemma generator_allowed h tm r w :
  exists ops,
    trace (snd (generator h tm r w)) = (trace w ++ ops)%list /\ Forall allowed ops.
Proof.
  rewrite generator_is_start_rest.
  destruct (rest_allowed h tm r (started r w)) as [ops [H Hops]].
  exists ops. now split.
Qed.

Lemma settled_allowed h clk schedule w :
  exists ops,
    trace (settled h clk schedule w) = (trace w ++ ops)%list /\ Forall allowed ops.
Proof.
  revert w. induction schedule as [| r rs IH]; intros w.
  - exists []. split; [now rewrite app_nil_r | constructor].
  - cbn [settled]. rewrite generator_rest_is_rest.
    destruct (rest_allowed h (report_timing clk r) r w) as [ops [H Hops]].
    destruct (IH (snd (rest h (report_timing clk r) r w))) as [ops' [H' Hops']].
    exists (ops ++ ops')%list. split.
    + now rewrite H', H, app_assoc.
    + apply Forall_app. now split.
Qed.

Lemma perform_allowed w c :
  exists ops, trace (perform w c) = (trace w ++ ops)%list /\ Forall allowed ops.
Proof.
  destruct c as [h clk schedule | h tm r | h tm r]; cbn [perform].
  - rewrite pipeline_run. cbn [snd].
    change (trace (set_metrics ?f (set_metrics ?g ?x))) with (trace x).
    unfold after_generators. destruct (PARALLEL_PROCESSING (service w)).
    + apply (settled_allowed h clk schedule
               (started FINANCIAL_STATEMENTS (started YEARLY (started ACCOUNTS w)))).
    + destruct (generator_allowed h (clk_accounts clk) ACCOUNTS w) as [o1 [H1 A1]].
      destruct (generator_allowed h (clk_yearly clk) YEARLY
                  (snd (generator h (clk_accounts clk) ACCOUNTS w))) as [o2 [H2 A2]].
      destruct (generator_allowed h (clk_fs clk) FINANCIAL_STATEMENTS
                  (snd (generator h (clk_yearly clk) YEARLY
                          (snd (generator h (clk_accounts clk) ACCOUNTS w)))))
        as [o3 [H3 A3]].
      exists (o1 ++ o2 ++ o3)%list. split.
      * now rewrite H3, H2, H1, <- !app_assoc.
      * apply Forall_app. split; [exact A1 |]. apply Forall_app. now split.
  - apply generator_allowed.
  - destruct (sync_io_allowed h r) as [o [ops [Hrun Hops]]].
    exists ops. split; [| exact Hops].
    rewrite sync_conclude, Hrun. now destruct o.
Qed.

(** X18: what the service asks of the file system once it is built.
    In any sequence of calls of the pipeline and of the generators,
    asynchronous or synchronous and in whatever environment, the
    service only lists [tmp], reads entries of [tmp] whose name ends in
    [.csv] and writes [out/accounts.csv], [out/yearly.csv] and
    [out/fs.csv]: it never creates a directory, never reads an entry
    with another suffix and never writes anywhere else. *)
Theorem only_staging_and_output h config calls :
  exists ops,
    trace (after h config calls) = (trace (new_ReportsService h config) ++ ops)%list
    /\ Forall allowed ops.
Proof.
  unfold after. induction calls as [| c calls [ops [IH Hops]]] using rev_ind.
  - exists []. split; [now rewrite app_nil_r | constructor].
  - rewrite fold_left_app. cbn [fold_left].
    destruct (perform_allowed (fold_left perform calls (new_ReportsService h config)) c)
      as [ops' [H Hops']].
    exists (ops ++ ops')%list. split.
    + now rewrite H, IH, app_assoc.
    + apply Forall_app. now split.
Qed.

(** ** Construction *)


End CallSequences.

(** * The order in which the reports finish *)
Section CompletionOrder.

Import JsNum JsObject Eff EffNotations Reports ReportsSpec ReportsProps.

Open Scope string_scope.

Lemma board_started r w : board (started r w) = start_on r (board w).
Proof. reflexivity. Qed.

Lemma board_rest h tm r w : board (snd (rest h tm r w)) = finish_on h tm r (board w).
Proof.
  destruct (rest_verdict h tm r w) as [ops H]. rewrite H. unfold finish_on.
  destruct (verdict h r); reflexivity.
Qed.

Lemma board_generator h tm r w :
  board (snd (generator h tm r w)) = finish_on h tm r (start_on r (board w)).
Proof. now rewrite generator_is_start_rest, board_rest, board_started. Qed.

Lemma board_settled h clk schedule w :
  board (settled h clk schedule w) =
  fold_left (fun b r => finish_on h (report_timing clk r) r b) schedule (board w).
Proof.
  revert w. induction schedule as [| r rs IH]; intros w; [reflexivity |].
  cbn [settled fold_left]. now rewrite IH, generator_rest_is_rest, board_rest.
Qed.

Ltac on_three_keys :=
  unfold all_finished, finish_on, start_on;
  cbn [fold_left report_timing fst snd ReportType_value];
  repeat match goal with
         | |- context [verdict ?h ?r] => destruct (verdict h r)
         end;
  cbn [fst snd]; unfold set, hasOwnProperty; cbn; reflexivity.

(** The three generators leave the same board whichever way they are
    run, when the status object has the three report names as keys. *)
Lemma after_generators_board h clk schedule w :
  Permutation schedule all_reports -> keys_ok w ->
  board (after_generators h clk schedule w) = all_finished h clk (board w).
Proof.
  intros Hperm Hkeys. unfold after_generators.
  assert (Hb : exists a y f m,
             board w = ([("accounts", a); ("yearly", y); ("fs", f)], m)).
  { unfold keys_ok in Hkeys. unfold board.
    destruct (states (service w)) as [| [k1 a] [| [k2 y] [| [k3 f] [| p l]]]];
      try discriminate Hkeys.
    cbn in Hkeys. injection Hkeys as -> -> ->. now exists a, y, f, (metrics (service w)). }
  destruct Hb as [a [y [f [m Hb]]]].
  destruct (PARALLEL_PROCESSING (service w)).
  - rewrite board_settled, !board_started, Hb.
    destruct (permutations_of_three schedule Hperm)
      as [-> | [-> | [-> | [-> | [-> | ->]]]]]; on_three_keys.
  - rewrite !board_generator, Hb. on_three_keys.
Qed.

(** X20: the order in which the reports finish does not show.  Two
    pipeline runs in the same environment and with the same clock
    readings, started on services whose status objects and metrics are
    equal, leave equal status objects and equal metrics, whether they
    run in parallel or sequential mode and whatever the order in which
    the generators of a parallel run complete. *)
Theorem completion_order_does_not_show h clk schedule schedule' w w' :
  Permutation schedule all_reports -> Permutation schedule' all_reports ->
  keys_ok w -> board w' = board w ->
  board (snd (processReportsAsync h clk schedule w)) =
  board (snd (processReportsAsync h clk schedule' w')).
Proof.
  intros Hperm Hperm' Hkeys Hboard.
  assert (Hkeys' : keys_ok w').
  { unfold keys_ok in *. unfold board in Hboard. injection Hboard as Hs _.
    now rewrite Hs. }
  rewrite !pipeline_run. cbn [snd].
  assert (Hout : forall x,
             board (set_metrics (count_run (run_date clk))
                      (set_metrics (track rt_total with_total (total_time clk)) x))
             = (fst (board x),
                count_run (run_date clk)
                  (track rt_total with_total (total_time clk) (snd (board x)))))
    by reflexivity.
  rewrite !Hout.
  rewrite (after_generators_board h clk schedule w Hperm Hkeys).
  rewrite (after_generators_board h clk schedule' w' Hperm' Hkeys').
  now rewrite Hboard.
Qed.

(** A parallel run that completes in the order fs, accounts, yearly
    and a sequential run, both on a new service. *)
Lemma completion_order_does_not_show_witness :
  let h := host_with [("test.csv", test_csv)] "out/accounts.csv" in
  let sequential_service :=
    {| service :=
         {| TMP_DIR := "tmp"; OUTPUT_DIR := "out"; PARALLEL_PROCESSING := false;
            states := states (service blank); metrics := metrics (service blank) |};
       trace := [] |} in
  Permutation [FINANCIAL_STATEMENTS; ACCOUNTS; YEARLY] all_reports /\
  Permutation all_reports all_reports /\
  keys_ok blank /\
  board sequential_service = board blank /\
  board (snd (processReportsAsync h sample_clock
                [FINANCIAL_STATEMENTS; ACCOUNTS; YEARLY] blank)) =
  board (snd (processReportsAsync h sample_clock all_reports sequential_service)).
Proof.
  cbv zeta.
  assert (H1 : Permutation [FINANCIAL_STATEMENTS; ACCOUNTS; YEARLY] all_reports).
  { unfold all_reports.
    apply perm_trans with (l' := [ACCOUNTS; FINANCIAL_STATEMENTS; YEARLY]).
    - apply perm_swap.
    - apply perm_skip, perm_swap. }
  assert (H2 : Permutation all_reports all_reports) by apply Permutation_refl.
  assert (H3 : keys_ok blank) by reflexivity.
  assert (H4 : board
                 {| service :=
                      {| TMP_DIR := "tmp"; OUTPUT_DIR := "out";
                         PARALLEL_PROCESSING := false;
                         states := states (service blank);
                         metrics := metrics (service blank) |};
                    trace := [] |} = board blank) by reflexivity.
  repeat (split; [assumption |]).
  exact (completion_order_does_not_show _ sample_clock _ _ _ _ H1 H2 H3 H4).
Defined.

(** * From the environment to the service *)

(** X21: how the environment reaches the service.  Built from the
    registered configuration, the service has the staging and output
    directories named by [REPORTS_TMP_DIR] and [REPORTS_OUTPUT_DIR],
    and [tmp] and [out] where these are unset or empty, so neither
    field is ever empty; it runs the pipeline sequentially only when
    [REPORTS_PARALLEL_PROCESSING] is exactly ['false'].  The defaults
    of the constructor never come into play. *)
Theorem environment_reaches_service h env :
  let s := service (new_ReportsService h (reportsConfig env)) in
  TMP_DIR s = env_or (REPORTS_TMP_DIR env) "tmp" /\
  OUTPUT_DIR s = env_or (REPORTS_OUTPUT_DIR env) "out" /\
  TMP_DIR s <> "" /\ OUTPUT_DIR s <> "" /\
  (PARALLEL_PROCESSING s = false <-> REPORTS_PARALLEL_PROCESSING env = Some "false").
Proof.
  cbv zeta. destruct (new_service_logs h (reportsConfig env)) as [ops H]. rewrite H.
  cbn [service log initial_service TMP_DIR OUTPUT_DIR PARALLEL_PROCESSING
       reportsConfig reports_tmpDir reports_outputDir reports_parallelProcessing
       config_get].
  split; [reflexivity |]. split; [reflexivity |].
  split; [| split].
  - destruct (REPORTS_TMP_DIR env) as [[| c r] |]; discriminate.
  - destruct (REPORTS_OUTPUT_DIR env) as [[| c r] |]; discriminate.
  - unfold env_is_not_false.
    destruct (REPORTS_PARALLEL_PROCESSING env) as [v |]; [| split; discriminate].
    destruct (String.eqb v "false") eqn:E; cbn [negb].
    + apply String.eqb_eq in E. subst v. now split.
    + split; [discriminate |]. intros Hv. injection Hv as ->.
      now rewrite String.eqb_refl in E.
Qed.

End CompletionOrder.

(** * A strike-off followed by an address change *)
Section StrikeOffThenChange.

Import Eff EffNotations Tickets TicketsSpec TicketsApi TicketsProps.

Lemma strikeOff_run db company d :
  reliable db -> fresh_id db -> directors_of db company = [d] ->
  createTicket strikeOff company db =
  (Ret {| id := next_id db; type := strikeOff; companyId := company;
          assigneeId := user_id d; status := open; category := management |},
   with_tickets
     (fun _ => (map (resolve_for company) (tickets db)
                ++ [{| id := next_id db; type := strikeOff; companyId := company;
                       assigneeId := user_id d; status := open;
                       category := management |}])%list)
     (next_id db + 1) db).
Proof.
  intros [Hfind [Hcreate Hupdate]] Hfresh Hdir.
  unfold createTicket. cbn [TicketType_eqb].
  unfold createStrikeOffTicket, transaction, try_catch, bind, User_findAll.
  rewrite Hfind. fold (directors_of db company). rewrite Hdir.
  cbn [newest_first fold_right insert_newest List.length Nat.ltb Nat.leb].
  unfold Ticket_create. rewrite Hcreate.
  unfold Ticket_update_resolved, with_tickets.
  cbn [update_fails users tickets next_id find_fails create_fails id].
  rewrite Hupdate. unfold ret, mapTicketToDto. cbn [fst snd].
  f_equal. f_equal.
  rewrite map_app. cbn [map]. f_equal.
  - apply update_fresh. exact Hfresh.
  - cbn [companyId status id TicketStatus_eqb].
    rewrite !Z.eqb_refl. reflexivity.
Qed.

Lemma no_open_change_after_resolve company l :
  filter (is_open_change company) (map (resolve_for company) l) = [].
Proof.
  induction l as [| t l IH]; [reflexivity |].
  cbn [map filter]. unfold resolve_for at 1, is_open_change at 1.
  destruct (companyId t =? company) eqn:Ec; cbn [andb].
  - destruct (status t) eqn:Es; cbn [TicketStatus_eqb set_status status companyId type];
      rewrite ?Ec, ?Es; cbn [TicketStatus_eqb andb]; rewrite ?andb_false_r; exact IH.
  - rewrite Ec. exact IH.
Qed.

(** X22: a strike-off clears the way for an address change.  For a
    company with exactly one director, on a store that does not fail
    and hands out unused identifiers, the store after a strike-off has
    no open address-change ticket of the company, whatever it had
    before; a request for an address change that follows is therefore
    not refused as a duplicate, and when the company has no corporate
    secretary it is assigned to the director the strike-off was
    assigned to, and is the last row behind the strike-off ticket. *)
Theorem strikeOff_clears_the_way db company d :
  reliable db -> fresh_id db -> directors_of db company = [d] ->
  let db' := snd (createTicket strikeOff company db) in
  open_changes db' company = [] /\
  (users_with db company corporateSecretary = [] ->
   exists t' db'',
     createTicket registrationAddressChange company db' = (Ret t', db'')
     /\ assigneeId t' = user_id d
     /\ id t' = next_id db + 1
     /\ tickets db'' = (tickets db' ++ [t'])%list).
Proof.
  intros Hrel Hfresh Hdir. cbv zeta.
  rewrite (strikeOff_run db company d Hrel Hfresh Hdir). cbn [snd].
  set (ticket := {| id := next_id db; type := strikeOff; companyId := company;
                    assigneeId := user_id d; status := open; category := management |}).
  set (db' := with_tickets _ (next_id db + 1) db).
  assert (Hopen : open_changes db' company = []).
  { unfold open_changes, db'. cbn [with_tickets tickets].
    rewrite filter_app, no_open_change_after_resolve. cbn [filter app].
    unfold is_open_change, ticket. cbn [type TicketType_eqb].
    now rewrite andb_false_r. }
  split; [exact Hopen |]. intros Hsec.
  destruct Hrel as [Hfind [Hcreate _]].
  pose proof (address_change_run db' company Hfind Hcreate Hopen) as Hrun.
  assert (Hs : users_with db' company corporateSecretary = []) by exact Hsec.
  assert (Hd : users_with db' company director = [d]) by exact Hdir.
  rewrite Hs, Hd in Hrun. cbn [newest_first fold_right insert_newest] in Hrun.
  do 2 eexists. split; [exact Hrun |]. repeat split.
Qed.

(** Company 3 of the office store: a director and no secretary. *)
Lemma strikeOff_clears_the_way_witness :
  let d := {| user_id := 7; role := director; user_companyId := 3; createdAt := 20 |} in
  reliable office_db /\ fresh_id office_db /\ directors_of office_db 3 = [d] /\
  users_with office_db 3 corporateSecretary = [] /\
  open_changes (snd (createTicket strikeOff 3 office_db)) 3 = [] /\
  exists t' db'',
    createTicket registrationAddressChange 3 (snd (createTicket strikeOff 3 office_db))
    = (Ret t', db'')
    /\ assigneeId t' = 7.
Proof.
  cbv zeta.
  assert (H1 : reliable office_db) by (repeat split).
  assert (H2 : fresh_id office_db) by constructor.
  assert (H3 : directors_of office_db 3 =
               [{| user_id := 7; role := director; user_companyId := 3;
                   createdAt := 20 |}]) by reflexivity.
  assert (H4 : users_with office_db 3 corporateSecretary = []) by reflexivity.
  repeat (split; [assumption |]).
  destruct (strikeOff_clears_the_way office_db 3 _ H1 H2 H3) as [Hopen Hnext].
  split; [exact Hopen |].
  destruct (Hnext H4) as [t' [db'' [Hrun [Ha _]]]].
  exists t', db''. now split.
Defined.

End StrikeOffThenChange.

(** * The shape of the statuses, on an example *)
Section StatusShapeExample.

Import JsNum JsObject Eff EffNotations Reports ReportsSpec.

Open Scope string_scope.

(** A pipeline run in which the write of [out/fs.csv] is refused, then
    a run of the yearly generator on its own. *)
Lemma async_calls_keep_status_shape_witness :
  let h := host_with [("test.csv", test_csv)] "out/fs.csv" in
  let calls := [CallPipeline h sample_clock all_reports;
                CallAsync h sample_timing YEARLY] in
  Forall plausible_async calls /\
  shape_ok (after h default_config calls) /\
  status_of (after h default_config calls) FINANCIAL_STATEMENTS =
    Own "error: EACCES: permission denied, open 'out/fs.csv'".
Proof.
  cbv zeta.
  assert (Ht : plausible_timing sample_timing) by (vm_compute; reflexivity).
  assert (H : Forall plausible_async
                [CallPipeline (host_with [("test.csv", test_csv)] "out/fs.csv")
                   sample_clock all_reports;
                 CallAsync (host_with [("test.csv", test_csv)] "out/fs.csv")
                   sample_timing YEARLY]).
  { constructor; [cbn; auto | constructor; [exact Ht | constructor]]. }
  split; [exact H |]. split.
  - exact (async_calls_keep_status_shape
             (host_with [("test.csv", test_csv)] "out/fs.csv") default_config _ H).
  - vm_compute. reflexivity.
Defined.

End StatusShapeExample.

(** * The order of the accounts *)
Section AccountsOrder.

Import JsNum JsObject Eff EffNotations Reports ReportsSpec ReportsProps.

Open Scope string_scope.

Lemma accounts_lines_postings lines o :
  fold_left accounts_line lines o =
  fold_left (fun o p => accumulate o (fst p) (snd p)) (postings lines) o.
Proof.
  revert o. induction lines as [| l lines IH]; intros o; [reflexivity |].
  cbn [fold_left postings map]. apply IH.
Qed.

(** The index keys of an object, as [index_keys] lists them: by value,
    each with its value. *)
Fixpoint by_value (l : list (Z * string)) : Prop :=
  match l with
  | a :: r =>
      match r with
      | b :: _ => fst a <= fst b
      | [] => True
      end /\ by_value r
  | [] => True
  end.

Lemma insert_index_by_value x l : by_value l -> by_value (insert_index x l).
Proof.
  induction l as [| y l IH]; intros Hl; [now split |].
  cbn [insert_index]. destruct (Z.leb_spec (fst x) (fst y)).
  - split; [assumption | exact Hl].
  - destruct Hl as [Hy Hl]. specialize (IH Hl). split; [| exact IH].
    destruct l as [| z l]; cbn [insert_index] in *; [lia |].
    destruct (Z.leb (fst x) (fst z)); [lia | exact Hy].
Qed.

Lemma index_keys_by_value {V} (o : obj V) :
  by_value (index_keys o)
  /\ Forall (fun p => index_of (snd p) = Some (fst p)) (index_keys o).
Proof.
  induction o as [| [k v] o [IHs IHv]]; [split; [exact I | constructor] |].
  cbn [index_keys]. destruct (index_of k) as [i |] eqn:E; [| now split].
  split; [now apply insert_index_by_value |].
  apply (Permutation_Forall (Permutation_sym (insert_index_perm (i, k) (index_keys o)))).
  constructor; assumption.
Qed.

Lemma numeric_ascending_keys (l : list (Z * string)) :
  by_value l -> Forall (fun p => index_of (snd p) = Some (fst p)) l ->
  numeric_ascending (map snd l).
Proof.
  induction l as [| a l IH]; intros Hs Hv; [exact I |].
  destruct Hs as [Ha Hs]. inversion Hv as [| a' l' Hia Hl]; subst.
  split; [| now apply IH].
  destruct l as [| b l]; [exact I |]. cbn [map].
  inversion Hl as [| b' l' Hib _]; subst.
  unfold index_value. now rewrite Hia, Hib.
Qed.

Lemma index_keys_perm {V} (o : obj V) :
  Permutation (map snd (index_keys o)) (filter is_index (map fst o)).
Proof.
  induction o as [| [k v] o IH]; [reflexivity |].
  cbn [index_keys map fst filter]. unfold is_index at 1.
  destruct (index_of k) as [i |]; [| exact IH].
  rewrite insert_index_perm. cbn [map snd]. now constructor.
Qed.

(** X24: the accounts report in general.  When no account name is a
    property name of [Object.prototype], building the output does not
    throw, and the report is the header and one line [account,balance]
    per distinct account: first the accounts whose name is an array
    index (a canonical decimal below 2^32 - 1, such as an account
    number), in ascending order of value, then the others in the order
    first met.  The balance is the sum of debit less credit over the
    lines of the account in the order processed, a sum that is [0] or
    [NaN] being put back to [0] before the next line is added. *)
Theorem accounts_report_order lines :
  Forall (fun l => inherited (line_key l) = false) lines ->
  let names := distinct (map line_key lines) in
  exists numbered,
    accounts_output (fold_left accounts_line lines []) =
      Ret ("Account,Balance"
           :: map (fun a => a ++ "," ++ toFixed2 (tally a (postings lines)))
                (numbered ++ filter (fun k => negb (is_index k)) names))
    /\ Permutation numbered (filter is_index names)
    /\ numeric_ascending numbered.
Proof.
  intros Hplain. cbv zeta.
  assert (Hnames : map fst (postings lines) = map line_key lines).
  { unfold postings. rewrite map_map. reflexivity. }
  assert (Hfold : fold_left accounts_line lines [] =
                  map (fun a => (a, CNum (tally a (postings lines))))
                      (distinct (map line_key lines))).
  { rewrite accounts_lines_postings, accumulate_pairs, Hnames; [reflexivity |].
    unfold postings. apply Forall_forall. intros p Hp.
    apply in_map_iff in Hp as [l [<- Hl]]. cbn [fst].
    rewrite Forall_forall in Hplain. now apply Hplain. }
  rewrite Hfold.
  set (D := distinct (map line_key lines)).
  set (o := map (fun a => (a, CNum (tally a (postings lines)))) D).
  assert (Hfst : map fst o = D).
  { unfold o. rewrite map_map. cbn [fst]. apply map_id. }
  exists (map snd (index_keys o)). split; [| split].
  - unfold accounts_output, entries.
    assert (Hkeys : keys o = (map snd (index_keys o)
                              ++ filter (fun k => negb (is_index k)) D)%list).
    { unfold keys, name_keys. rewrite Hfst. f_equal. apply filter_ext.
      intros k. unfold is_index. now destruct (index_of k). }
    rewrite <- Hkeys.
    assert (Hmap : map (fun k => (k, get o k)) (keys o)
                   = map (fun k => (k, Own (CNum (tally k (postings lines))))) (keys o)).
    { apply map_ext_in. intros k Hk. unfold get, o.
      rewrite (get_own_table (fun a => CNum (tally a (postings lines))) D k).
      apply (Permutation_in k (keys_perm o)) in Hk. rewrite Hfst in Hk.
      apply mem_In in Hk. now rewrite Hk. }
    rewrite Hmap, balance_lines_numbers. reflexivity.
  - rewrite <- Hfst. apply index_keys_perm.
  - destruct (index_keys_by_value o) as [Hs Hv].
    now apply numeric_ascending_keys.
Qed.

(** A ledger that books on Cash, then on the accounts 1000 and 200:
    the report lists 200, 1000 and Cash. *)
Lemma accounts_report_order_witness :
  let lines := ["2024-01-01,Cash,,1000,0"; "2024-01-02,1000,,5,0";
                "2024-01-03,200,,0,7"] in
  Forall (fun l => inherited (line_key l) = false) lines /\
  exists numbered,
    accounts_output (fold_left accounts_line lines []) =
      Ret ("Account,Balance"
           :: map (fun a => a ++ "," ++ toFixed2 (tally a (postings lines)))
                (numbered ++ ["Cash"]))
    /\ Permutation numbered ["1000"; "200"]
    /\ numeric_ascending numbered.
Proof.
  cbv zeta.
  assert (H : Forall (fun l => inherited (line_key l) = false)
                ["2024-01-01,Cash,,1000,0"; "2024-01-02,1000,,5,0";
                 "2024-01-03,200,,0,7"]) by (repeat constructor).
  split; [exact H |].
  exact (accounts_report_order _ H).
Defined.

End AccountsOrder.
